(** * ipservice: the IP-range resolution engine, embedded in Rocq

    A shallow embedding of the Go packages [internal/service],
    [internal/repository] and [internal/model] of dantero-ps/ipservice,
    together with the slice of Go's [net], [net/netip], [strconv] and [fmt]
    that their results depend on.

    Conventions.
    - A Go byte is a [Z] in [0, 256); a [net.IP] or [net.IPMask] is a list of
      bytes and the nil slice is the empty list.
    - A Go [(value, error)] pair is a pair whose second component is an
      [option error]; [None] is the nil error.
    - Code that talks to a collaborator (HTTP server, Redis, PostgreSQL) is a
      state transformer over a world [W]; the interfaces of the Go code are
      type classes over [W].
    - A run-time panic is an outcome of its own, so that a nil dereference
      or an index out of range is visible in the result.
    - Logging, wall-clock measurements and the update mutex have no effect
      on any result below and are left out. *)

From Stdlib Require Import ZArith Lia Ascii String.
From stdpp Require Import base option list strings gmap.

Set Warnings "-register-all".

Local Open Scope Z_scope.

(** ** Errors *)

(** One constructor per place where the code (or the library it calls)
    builds an error value.  [Opaque] stands for an error produced by a
    collaborator: a transport failure, a driver error, a scanner error. *)
Inductive error : Type :=
| Opaque (what : string)
| ErrTooLong                                   (* bufio.ErrTooLong *)
| NumErrorSyntax (fn input : string)           (* strconv.ErrSyntax *)
| NumErrorRange (fn input : string)            (* strconv.ErrRange *)
| CIDRParseError (text : string)               (* net.ParseError, Type "CIDR address" *)
| CreatingRequest (e : error)                  (* "creating request: %w" *)
| FetchingRIRData (e : error)                  (* "fetching RIR data: %w" *)
| UnexpectedStatus (code : Z)                  (* "unexpected status code: %d" *)
| ReadingRIRData (e : error)                   (* "reading RIR data: %w" *)
| FailedAfterAttempts (n : Z) (last : option error) (* "failed after %d attempts: %w" *)
| NamedError (rir : string) (e : error)        (* "%s: %w" *)
| NoRangesFetched (errs : list error)          (* "no IP ranges fetched: %v" *)
| ClearingRanges (e : error)                   (* "clearing existing IP ranges: %w" *)
| InvalidIPAddress (s : string)                (* "invalid IP address: %s" *)
| InvalidRangeFormat.                          (* "invalid range format" *)

(** ** Panics and the state monad of the embedding *)

Inductive panic : Type := NilDereference | IndexOutOfRange.

Inductive outcome (A : Type) : Type :=
| Return (a : A)
| Panic (p : panic).
Arguments Return {A} a.
Arguments Panic {A} p.

Definition M (W A : Type) : Type := W -> outcome A * W.

#[export] Instance M_ret {W} : MRet (M W) := fun A a w => (Return a, w).
#[export] Instance M_bind {W} : MBind (M W) := fun A B k m w =>
  match m w with
  | (Return a, w') => k a w'
  | (Panic p, w') => (Panic p, w')
  end.

(** Lifting of a pure computation that may panic. *)
Definition lift {W A} (o : outcome A) : M W A := fun w => (o, w).

(** ** Strings, as [strings], [strconv] and [fmt] treat them *)

Module Str.

Definition byte_of (c : ascii) : Z := Z.of_N (N_of_ascii c).

Definition is_digit (c : ascii) : bool :=
  (48 <=? byte_of c) && (byte_of c <=? 57).

Definition digit_val (c : ascii) : Z := byte_of c - 48.

Definition digit_char (d : Z) : ascii := ascii_of_N (Z.to_N (48 + d)).

(** [strings.Split(s, sep)] for a one-byte separator: the pieces between
    the separators, one more than there are separators. *)
Fixpoint Split (sep : ascii) (s : string) : list string :=
  match s with
  | EmptyString => [EmptyString]
  | String c rest =>
      if Ascii.eqb c sep then EmptyString :: Split sep rest
      else match Split sep rest with
           | [] => [String c EmptyString]
           | p :: ps => String c p :: ps
           end
  end.

Definition HasPrefix (s p : string) : bool := String.prefix p s.

Definition len (s : string) : Z := Z.of_nat (String.length s).

(** [bytealg.IndexByteString]: the text before the first [c] and the text
    after it, or [None] when [c] does not occur. *)
Fixpoint cut (c : ascii) (s : string) : option (string * string) :=
  match s with
  | EmptyString => None
  | String a rest =>
      if Ascii.eqb a c then Some (EmptyString, rest)
      else match cut c rest with
           | Some (l, r) => Some (String a l, r)
           | None => None
           end
  end.

(** Decimal text of a non-negative number; 20 digits cover a uint64. *)
Fixpoint uitoa_aux (fuel : nat) (n : Z) (acc : string) : string :=
  match fuel with
  | O => acc
  | S f =>
      let acc' := String (digit_char (n mod 10)) acc in
      if n <? 10 then acc' else uitoa_aux f (n / 10) acc'
  end.

Definition uitoa (n : Z) : string := uitoa_aux 20 n EmptyString.

(** [fmt.Sprintf("%d", n)]. *)
Definition fmt_d (n : Z) : string :=
  if n <? 0 then String "-" (uitoa (- n)) else uitoa n.

(** The digits of [s] read as a decimal number, most significant first;
    [None] when a byte is not a digit. *)
Fixpoint digits (s : string) (acc : Z) : option Z :=
  match s with
  | EmptyString => Some acc
  | String c rest =>
      if is_digit c then digits rest (acc * 10 + digit_val c) else None
  end.

Definition min_int64 : Z := - 2 ^ 63.
Definition max_int64 : Z := 2 ^ 63 - 1.

(** Two's complement wrap-around of a Go [int] (64 bits). *)
Definition wrap64 (z : Z) : Z := (z + 2 ^ 63) mod 2 ^ 64 - 2 ^ 63.

(** [strconv.ParseInt(s, 10, 64)]: an optional sign, then one or more
    decimal digits; the value must fit an int64.  [fn] is the name the
    error carries ("ParseInt" or "Atoi"). *)
Definition parse_int (fn : string) (s : string) : Z * option error :=
  let '(neg, body) :=
    match s with
    | String "+" r => (false, r)
    | String "-" r => (true, r)
    | _ => (false, s)
    end in
  match body with
  | EmptyString => (0, Some (NumErrorSyntax fn s))
  | _ =>
      match digits body 0 with
      | None => (0, Some (NumErrorSyntax fn s))
      | Some n =>
          if neg then
            if n <=? 2 ^ 63 then (- n, None)
            else (min_int64, Some (NumErrorRange fn s))
          else
            if n <=? max_int64 then (n, None)
            else (max_int64, Some (NumErrorRange fn s))
      end
  end.

Definition ParseInt (s : string) : Z * option error := parse_int "ParseInt" s.
Definition Atoi (s : string) : Z * option error := parse_int "Atoi" s.

End Str.

(** ** Go's [net] and [net/netip], as far as the service depends on them *)

Module Net.

(** [net.IP] and [net.IPMask] are byte slices. *)
Abbreviation IP := (list Z).
Abbreviation IPMask := (list Z).

Record IPNet : Type := { net_IP : IP; net_Mask : IPMask }.

Definition IPv4len : nat := 4.
Definition IPv6len : nat := 16.

Definition v4InV6Prefix : list Z := [0; 0; 0; 0; 0; 0; 0; 0; 0; 0; 255; 255].

Definition bytes_eqb (a b : list Z) : bool :=
  bool_decide (a = b).

Definition allFF (b : list Z) : bool := forallb (Z.eqb 255) b.

(** [ip.To4()]: the 4-byte form of an IPv4 address, [None] for Go's nil. *)
Definition To4 (ip : IP) : option IP :=
  if Nat.eqb (length ip) IPv4len then Some ip
  else if Nat.eqb (length ip) IPv6len && bytes_eqb (take 12 ip) v4InV6Prefix
       then Some (drop 12 ip)
       else None.

(** [net.CIDRMask(ones, bits)]. *)
Fixpoint cidr_bytes (l : nat) (n : Z) : list Z :=
  match l with
  | O => []
  | S l' =>
      if 8 <=? n then 255 :: cidr_bytes l' (n - 8)
      else Z.lxor 255 (Z.shiftr 255 n) :: cidr_bytes l' 0
  end.

Definition CIDRMask (ones bits : Z) : IPMask :=
  if negb (bits =? 32) && negb (bits =? 128) then []
  else if (ones <? 0) || (bits <? ones) then []
  else cidr_bytes (Z.to_nat (bits / 8)) ones.

Definition and_bytes (a b : list Z) : list Z := zip_with Z.land a b.

(** [ip.Mask(mask)]. *)
Definition Mask (ip : IP) (mask : IPMask) : IP :=
  let mask :=
    if Nat.eqb (length mask) IPv6len && Nat.eqb (length ip) IPv4len
       && allFF (take 12 mask)
    then drop 12 mask else mask in
  let ip :=
    if Nat.eqb (length mask) IPv4len && Nat.eqb (length ip) IPv6len
       && bytes_eqb (take 12 ip) v4InV6Prefix
    then drop 12 ip else ip in
  if Nat.eqb (length ip) (length mask) then and_bytes ip mask else [].

(** [networkNumberAndMask(n)]; [None] for the pair of nils. *)
Definition networkNumberAndMask (n : IPNet) : option (IP * IPMask) :=
  let ip := match To4 (net_IP n) with Some x => Some x
            | None => if Nat.eqb (length (net_IP n)) IPv6len
                      then Some (net_IP n) else None
            end in
  match ip with
  | None => None
  | Some ip =>
      if Nat.eqb (length (net_Mask n)) IPv4len then
        if Nat.eqb (length ip) IPv4len then Some (ip, net_Mask n) else None
      else if Nat.eqb (length (net_Mask n)) IPv6len then
        if Nat.eqb (length ip) IPv4len then Some (ip, drop 12 (net_Mask n))
        else Some (ip, net_Mask n)
      else None
  end.

(** [n.Contains(ip)]. *)
Definition Contains (n : IPNet) (ip : IP) : bool :=
  let '(nn, m) := match networkNumberAndMask n with
                  | Some p => p
                  | None => ([], [])
                  end in
  let ip := match To4 ip with Some x => x | None => ip end in
  if Nat.eqb (length ip) (length nn)
  then bytes_eqb (and_bytes nn m) (and_bytes ip m)
  else false.

(** *** Text of addresses and masks *)

Definition hex_char (d : Z) : ascii :=
  if d <? 10 then Str.digit_char d else ascii_of_N (Z.to_N (87 + d)).

Definition hex_byte (b : Z) : string :=
  String (hex_char (Z.shiftr b 4)) (String (hex_char (Z.land b 15)) EmptyString).

Definition hexString (b : list Z) : string :=
  foldr (fun x s => hex_byte x +:+ s) EmptyString b.

(** [m.String()] of an [IPMask]: the hexadecimal digits, no punctuation. *)
Definition IPMask_String (m : IPMask) : string :=
  if Nat.eqb (length m) 0 then "<nil>" else hexString m.

(** A [netip.Addr]: an IPv4 address of 4 bytes, or an IPv6 address of 16
    bytes with its zone. *)
Inductive Addr : Type :=
| Addr4 (b : list Z)
| Addr6 (b : list Z) (zone : string).

Definition BitLen (a : Addr) : Z :=
  match a with Addr4 _ => 32 | Addr6 _ _ => 128 end.

Definition Zone (a : Addr) : string :=
  match a with Addr4 _ => EmptyString | Addr6 _ z => z end.

Definition As16 (a : Addr) : list Z :=
  match a with Addr4 b => v4InV6Prefix ++ b | Addr6 b _ => b end.

(** [netip.parseIPv4]: the loop over the bytes of [s].  [first] says that
    the byte at hand is s[0], [prevDot] that s[i-1] is a dot; [fields]
    holds the octets closed so far (its length is Go's [pos]). *)
Fixpoint parseIPv4_loop (s : string) (first prevDot : bool)
         (fields : list Z) (val digLen : Z) : option (list Z) :=
  match s with
  | EmptyString =>
      if Nat.ltb (length fields) 3 then None else Some (fields ++ [val])
  | String c rest =>
      if Str.is_digit c then
        if (digLen =? 1) && (val =? 0) then None
        else
          let val' := val * 10 + Str.digit_val c in
          if 255 <? val' then None
          else parseIPv4_loop rest false false fields val' (digLen + 1)
      else if Ascii.eqb c "." then
        if first || (match rest with EmptyString => true | _ => false end)
           || prevDot then None
        else if Nat.eqb (length fields) 3 then None
        else parseIPv4_loop rest false true (fields ++ [val]) 0 0
      else None
  end.

Definition parseIPv4 (s : string) : option (list Z) :=
  parseIPv4_loop s true false [] 0 0.

Definition hex_val (c : ascii) : option Z :=
  let b := Str.byte_of c in
  if (48 <=? b) && (b <=? 57) then Some (b - 48)
  else if (97 <=? b) && (b <=? 102) then Some (b - 97 + 10)
  else if (65 <=? b) && (b <=? 70) then Some (b - 65 + 10)
  else None.

(** The hexadecimal group at the head of [s]: the number of digits read,
    their value and the rest of [s]; [None] at a fifth digit. *)
Fixpoint hex_group (s : string) (off : nat) (acc : Z)
  : option (nat * Z * string) :=
  match s with
  | EmptyString => Some (off, acc, s)
  | String c rest =>
      match hex_val c with
      | None => Some (off, acc, s)
      | Some d =>
          if Nat.ltb 3 off then None
          else hex_group rest (S off) (Z.shiftl acc 4 + d)
      end
  end.

(** The main loop of [netip.parseIPv6]; [ip] holds the bytes written so
    far (its length is Go's [i]).  The result is what is left of [s], the
    bytes and the position of the ellipsis. *)
Fixpoint parseIPv6_loop (fuel : nat) (s : string) (ip : list Z)
         (ellipsis : option nat) : option (string * list Z * option nat) :=
  match fuel with
  | O => Some (s, ip, ellipsis)
  | S fuel' =>
      if Nat.leb 16 (length ip) then Some (s, ip, ellipsis)
      else
        match hex_group s 0 0 with
        | None => None
        | Some (O, _, _) => None
        | Some (_, acc, String "." _) =>
            if (match ellipsis with None => true | Some _ => false end)
               && negb (Nat.eqb (length ip) 12) then None
            else if Nat.ltb 16 (length ip + 4) then None
            else match parseIPv4 s with
                 | None => None
                 | Some b4 => Some (EmptyString, ip ++ b4, ellipsis)
                 end
        | Some (_, acc, rest) =>
            let ip := ip ++ [Z.shiftr acc 8; Z.land acc 255] in
            match rest with
            | EmptyString => Some (EmptyString, ip, ellipsis)
            | String c EmptyString => None
            | String c (String c' rest' as rest1) =>
                if negb (Ascii.eqb c ":") then None
                else if Ascii.eqb c' ":" then
                  match ellipsis with
                  | Some _ => None
                  | None =>
                      match rest' with
                      | EmptyString => Some (EmptyString, ip, Some (length ip))
                      | _ => parseIPv6_loop fuel' rest' ip (Some (length ip))
                      end
                  end
                else parseIPv6_loop fuel' rest1 ip ellipsis
            end
        end
  end.

(** [netip.parseIPv6]. *)
Definition parseIPv6 (s0 : string) : option Addr :=
  let split := match Str.cut "%" s0 with
               | Some (s, zone) => (s, zone, true)
               | None => (s0, EmptyString, false)
               end in
  let '(s, zone, hasZone) := split in
  if hasZone && (match zone with EmptyString => true | _ => false end) then None
  else
    let start :=
      match s with
      | String ":" (String ":" r) => (r, Some 0%nat, true)
      | _ => (s, None, false)
      end in
    let '(s, ellipsis, lead) := start in
    if lead && (match s with EmptyString => true | _ => false end)
    then Some (Addr6 (replicate 16 0) zone)
    else
      match parseIPv6_loop 9 s [] ellipsis with
      | None => None
      | Some (String _ _, _, _) => None
      | Some (EmptyString, ip, ellipsis) =>
          if Nat.ltb (length ip) 16 then
            match ellipsis with
            | None => None
            | Some e =>
                Some (Addr6 (take e ip ++ replicate (16 - length ip) 0
                              ++ drop e ip) zone)
            end
          else match ellipsis with
               | Some _ => None
               | None => Some (Addr6 ip zone)
               end
      end.

(** [netip.ParseAddr]: the first dot, colon or percent sign decides how
    the text is read. *)
Fixpoint ParseAddr_scan (whole s : string) : option Addr :=
  match s with
  | EmptyString => None
  | String c rest =>
      if Ascii.eqb c "." then
        match parseIPv4 whole with Some b => Some (Addr4 b) | None => None end
      else if Ascii.eqb c ":" then parseIPv6 whole
      else if Ascii.eqb c "%" then None
      else ParseAddr_scan whole rest
  end.

Definition ParseAddr (s : string) : option Addr := ParseAddr_scan s s.

(** [net.ParseIP]: the 16-byte form of the address, nil on failure. *)
Definition ParseIP (s : string) : IP :=
  match ParseAddr s with
  | Some a => if negb (Str.len (Zone a) =? 0) then [] else As16 a
  | None => []
  end.

(** [net.dtoi]: the decimal number at the head of [s], the number of bytes
    read and whether it is a number below 0xFFFFFF. *)
Definition big : Z := 16777215.

Fixpoint dtoi_loop (s : string) (n : Z) (i : Z) : Z * Z * bool :=
  match s with
  | EmptyString => (n, i, negb (i =? 0))
  | String c rest =>
      if Str.is_digit c then
        let n' := n * 10 + Str.digit_val c in
        if big <=? n' then (big, i, false)
        else dtoi_loop rest n' (i + 1)
      else if i =? 0 then (0, 0, false) else (n, i, true)
  end.

Definition dtoi (s : string) : Z * Z * bool := dtoi_loop s 0 0.

(** [net.ParseCIDR]: the address, the network (a pointer, [None] for nil)
    and the error. *)
Definition ParseCIDR (s : string) : IP * option IPNet * option error :=
  match Str.cut "/" s with
  | None => ([], None, Some (CIDRParseError s))
  | Some (addr, mask) =>
      match ParseAddr addr with
      | None => ([], None, Some (CIDRParseError s))
      | Some ipAddr =>
          if negb (Str.len (Zone ipAddr) =? 0)
          then ([], None, Some (CIDRParseError s))
          else
            let '(n, i, ok) := dtoi mask in
            if negb ok || negb (i =? Str.len mask) || (n <? 0)
               || (BitLen ipAddr <? n)
            then ([], None, Some (CIDRParseError s))
            else
              let m := CIDRMask n (BitLen ipAddr) in
              let addr16 := As16 ipAddr in
              (addr16, Some {| net_IP := Mask addr16 m; net_Mask := m |}, None)
      end
  end.

(** Text of an IPv4 address: [netip.Addr.String] of a 4-byte address. *)
Definition string4 (b : list Z) : string :=
  match b with
  | [a; b; c; d] =>
      Str.uitoa a +:+ "." +:+ Str.uitoa b +:+ "." +:+ Str.uitoa c
        +:+ "." +:+ Str.uitoa d
  | _ => EmptyString
  end.

(** The eight 16-bit groups of a 16-byte address. *)
Fixpoint groups (b : list Z) : list Z :=
  match b with
  | hi :: lo :: rest => Z.lor (Z.shiftl hi 8) lo :: groups rest
  | _ => []
  end.

(** Lower-case hexadecimal text of a group, no leading zeros. *)
Definition appendHex (x : Z) : string :=
  let d3 := Z.shiftr x 12 in
  let d2 := Z.land (Z.shiftr x 8) 15 in
  let d1 := Z.land (Z.shiftr x 4) 15 in
  let d0 := Z.land x 15 in
  if 4096 <=? x then
    String (hex_char d3) (String (hex_char d2) (String (hex_char d1)
      (String (hex_char d0) EmptyString)))
  else if 256 <=? x then
    String (hex_char d2) (String (hex_char d1) (String (hex_char d0) EmptyString))
  else if 16 <=? x then String (hex_char d1) (String (hex_char d0) EmptyString)
  else String (hex_char d0) EmptyString.

(** Length of the run of zero groups at the head of [g]. *)
Fixpoint zero_run (g : list Z) : nat :=
  match g with
  | x :: rest => if x =? 0 then S (zero_run rest) else O
  | [] => O
  end.

(** The longest run of at least two zero groups, leftmost on a tie:
    its start and its end, scanning from group [i]. *)
Fixpoint longest_zero_run (g : list Z) (i : nat) (best : option (nat * nat))
  : option (nat * nat) :=
  match g with
  | [] => best
  | _ :: rest =>
      let l := zero_run g in
      let best' :=
        if Nat.leb 2 l &&
           (match best with
            | None => true
            | Some (s, e) => Nat.ltb (e - s) l
            end)
        then Some (i, (i + l)%nat) else best in
      longest_zero_run rest (S i) best'
  end.

(** [netip.Addr.String] of a 16-byte address that is not IPv4-mapped. *)
Fixpoint string6_from (fuel : nat) (g : list Z) (i : nat)
         (run : option (nat * nat)) : string :=
  match fuel with
  | O => EmptyString
  | S fuel' =>
      if Nat.leb 8 i then EmptyString
      else
        match run with
        | Some (zs, ze) =>
            if Nat.eqb i zs then
              "::" +:+ (if Nat.leb 8 ze then EmptyString
                        else appendHex (nth ze g 0)
                               +:+ string6_from fuel' g (S ze) run)
            else (if Nat.ltb 0 i then ":" else EmptyString)
                   +:+ appendHex (nth i g 0) +:+ string6_from fuel' g (S i) run
        | None =>
            (if Nat.ltb 0 i then ":" else EmptyString)
              +:+ appendHex (nth i g 0) +:+ string6_from fuel' g (S i) run
        end
  end.

Definition string6 (b : list Z) : string :=
  let g := groups b in
  string6_from 9 g 0 (longest_zero_run g 0 None).

(** [ip.String()]. *)
Definition IP_String (ip : IP) : string :=
  if Nat.eqb (length ip) 0 then "<nil>"
  else if negb (Nat.eqb (length ip) IPv4len) && negb (Nat.eqb (length ip) IPv6len)
  then "?" +:+ hexString ip
  else match To4 ip with
       | Some p4 => string4 p4
       | None => string6 ip
       end.

End Net.

(** ** [internal/model] *)

Record IPRange : Type := {
  ID : Z;
  Network : Net.IPNet;
  CountryCode : string;
  Version : Z          (* 4 or 6 *)
}.

Record IPResponse : Type := {
  Resp_IP : string;
  Resp_CountryCode : string
}.

(** The zero value of [model.IPRange]. *)
Definition zeroIPRange : IPRange :=
  {| ID := 0; Network := {| Net.net_IP := []; Net.net_Mask := [] |};
     CountryCode := EmptyString; Version := 0 |}.

(** ** [internal/config] *)

Record RIR : Type := { Name : string; URL : string }.

Record Config : Type := { RIRs : list RIR }.

(** The five sources that [config.Load] installs. *)
Definition arin : RIR :=
  {| Name := "ARIN";
     URL := "https://ftp.arin.net/pub/stats/arin/delegated-arin-extended-latest" |}.

Definition ripe : RIR :=
  {| Name := "RIPE";
     URL := "https://ftp.ripe.net/pub/stats/ripencc/delegated-ripencc-latest" |}.

Definition apnic : RIR :=
  {| Name := "APNIC";
     URL := "https://ftp.apnic.net/stats/apnic/delegated-apnic-latest" |}.

Definition lacnic : RIR :=
  {| Name := "LACNIC";
     URL := "https://ftp.lacnic.net/pub/stats/lacnic/delegated-lacnic-latest" |}.

Definition afrinic : RIR :=
  {| Name := "AFRINIC";
     URL := "https://ftp.afrinic.net/stats/afrinic/delegated-afrinic-latest" |}.

Definition defaultRIRs : list RIR := [arin; ripe; apnic; lacnic; afrinic].

Definition defaultConfig : Config := {| RIRs := defaultRIRs |}.

(** ** Pure code that may panic *)

#[export] Instance outcome_ret : MRet outcome := fun A a => Return a.
#[export] Instance outcome_bind : MBind outcome := fun A B k m =>
  match m with
  | Return a => k a
  | Panic p => Panic p
  end.

(** [parts[i]]: indexing a slice panics out of range. *)
Definition index (parts : list string) (i : nat) : outcome string :=
  match parts !! i with
  | Some s => Return s
  | None => Panic IndexOutOfRange
  end.

(** ** What the platform decides

    [int(math.Log2(float64(value)))] leaves the integers for value <= 0:
    [math.Log2] gives NaN for a negative argument and -Inf for zero, and the
    Go specification leaves the conversion of such a value to [int]
    implementation-dependent.  The two results are the platform's. *)
Class Platform : Type := {
  int_of_NaN : Z;
  int_of_NegInf : Z
}.

(** amd64: the conversion instruction yields the "integer indefinite" value. *)
Definition amd64 : Platform :=
  {| int_of_NaN := Str.min_int64; int_of_NegInf := Str.min_int64 |}.

(** arm64: NaN converts to 0 and the infinities saturate. *)
Definition arm64 : Platform :=
  {| int_of_NaN := 0; int_of_NegInf := Str.min_int64 |}.

(** [int(math.Log2(float64(value)))] for an int64 [value].

    For 1 <= value < 2^53 the conversion to float64 is exact; [math.Log2]
    returns the exponent exactly on a power of two and a value strictly
    between two integers otherwise, at a distance from them that exceeds the
    rounding error as long as value < 2^48, so the truncation to [int] is
    the integer logarithm.  From 2^48 on Go's result may be one more than
    [Z.log2 value]; the prefix length computed from it is negative either
    way. *)
Definition log2_int `{Platform} (value : Z) : Z :=
  if value <? 0 then int_of_NaN
  else if value =? 0 then int_of_NegInf
  else Z.log2 value.

(** ** [internal/service/rir_service.go] *)

Record RIRStats : Type := {
  IPv4Count : Z;
  IPv6Count : Z;
  SkippedCount : Z;
  ParseErrors : Z
}.

Definition zeroStats : RIRStats :=
  {| IPv4Count := 0; IPv6Count := 0; SkippedCount := 0; ParseErrors := 0 |}.

Definition incSkipped (s : RIRStats) : RIRStats :=
  {| IPv4Count := IPv4Count s; IPv6Count := IPv6Count s;
     SkippedCount := SkippedCount s + 1; ParseErrors := ParseErrors s |}.

Definition incParseErrors (s : RIRStats) : RIRStats :=
  {| IPv4Count := IPv4Count s; IPv6Count := IPv6Count s;
     SkippedCount := SkippedCount s; ParseErrors := ParseErrors s + 1 |}.

Definition incIPv4 (s : RIRStats) : RIRStats :=
  {| IPv4Count := IPv4Count s + 1; IPv6Count := IPv6Count s;
     SkippedCount := SkippedCount s; ParseErrors := ParseErrors s |}.

Definition incIPv6 (s : RIRStats) : RIRStats :=
  {| IPv4Count := IPv4Count s; IPv6Count := IPv6Count s + 1;
     SkippedCount := SkippedCount s; ParseErrors := ParseErrors s |}.

(** [parseCIDR(ip, prefixLen)]: the network pointer and the error of
    [net.ParseCIDR] on "<ip>/<prefixLen>". *)
Definition parseCIDR (ip : string) (prefixLen : Z)
  : option Net.IPNet * option error :=
  let cidr := ip +:+ "/" +:+ Str.fmt_d prefixLen in
  let '(_, network, err) := Net.ParseCIDR cidr in
  (network, err).

(** What the [switch parts[2]] of [parseIPRange] leaves behind: an early
    return, or the network pointer and the range filled in so far. *)
Inductive switched : Type :=
| EarlyReturn (r : IPRange) (err : error)
| FallThrough (network : option Net.IPNet) (r : IPRange).

Definition withVersion (r : IPRange) (v : Z) : IPRange :=
  {| ID := ID r; Network := Network r; CountryCode := CountryCode r;
     Version := v |}.

(** [RIRService.parseIPRange(parts)]. *)
Definition parseIPRange `{Platform} (parts : list string)
  : outcome (IPRange * option error) :=
  let ipRange := zeroIPRange in
  countryCode ← index parts 1;
  startIP ← index parts 3;
  family ← index parts 2;
  sw ←
    (if String.eqb family "ipv4" then
       field ← index parts 4;
       let '(value, err) := Str.ParseInt field in
       match err with
       | Some e => Return (EarlyReturn ipRange e)
       | None =>
           (* Convert value to CIDR prefix length *)
           let prefixLen := Str.wrap64 (32 - log2_int value) in
           let '(network, err) := parseCIDR startIP prefixLen in
           match err with
           | Some e => Return (EarlyReturn ipRange e)
           | None => Return (FallThrough network (withVersion ipRange 4))
           end
       end
     else if String.eqb family "ipv6" then
       field ← index parts 4;
       let '(prefixLen, err) := Str.Atoi field in
       match err with
       | Some e => Return (EarlyReturn ipRange e)
       | None =>
           let '(network, err) := parseCIDR startIP prefixLen in
           match err with
           | Some e => Return (EarlyReturn ipRange e)
           | None => Return (FallThrough network (withVersion ipRange 6))
           end
       end
     else Return (FallThrough None ipRange));
  match sw with
  | EarlyReturn r e => Return (r, Some e)
  | FallThrough None _ => Panic NilDereference
  | FallThrough (Some network) r =>
      Return ({| ID := ID r; Network := network; CountryCode := countryCode;
                 Version := Version r |}, None)
  end.

(** One round of the [for scanner.Scan()] loop of [fetchWithTimeout]. *)
Definition scanLine `{Platform} (acc : list IPRange * RIRStats) (line : string)
  : outcome (list IPRange * RIRStats) :=
  let '(ranges, stats) := acc in
  if Str.HasPrefix line "#" || (Str.len line =? 0) then
    Return (ranges, incSkipped stats)
  else
    let parts := Str.Split "|" line in
    if Nat.ltb (length parts) 7 then Return (ranges, incSkipped stats)
    else
      p1 ← index parts 1;
      skip ← (if String.eqb p1 "*" then Return true
              else p6 ← index parts 6;
                   Return (negb (String.eqb p6 "allocated")
                           && negb (String.eqb p6 "assigned")));
      if skip : bool then Return (ranges, incSkipped stats)
      else
        p2 ← index parts 2;
        if negb (String.eqb p2 "ipv4") && negb (String.eqb p2 "ipv6") then
          Return (ranges, incSkipped stats)
        else
          '(ipRange, err) ← parseIPRange parts;
          match err with
          | Some _ => Return (ranges, incParseErrors stats)
          | None =>
              let stats := if Version ipRange =? 4 then incIPv4 stats
                           else incIPv6 stats in
              Return (ranges ++ [ipRange], stats)
          end.

Fixpoint scanLines `{Platform} (lines : list string)
         (acc : list IPRange * RIRStats) : outcome (list IPRange * RIRStats) :=
  match lines with
  | [] => Return acc
  | line :: rest => acc' ← scanLine acc line; scanLines rest acc'
  end.

(** What one GET brings back.  The body is given by what the
    [bufio.Scanner] over it yields: the lines before [Scan] returns false,
    and [scanner.Err()] at that point, which is [ErrTooLong] for a line
    beyond the 1 MiB buffer and the reader's error for a broken stream. *)
Inductive HTTPOutcome : Type :=
| RequestError (e : error)        (* http.NewRequestWithContext fails *)
| DoError (e : error)             (* client.Do fails *)
| Response (status : Z) (lines : list string) (scanErr : option error).

(** The network and the clock, as the fetcher uses them. *)
Class Transport (W : Type) : Type := {
  Get : string -> M W HTTPOutcome;
  Sleep : Z -> M W unit
}.

Definition Second : Z := 1000000000.
Definition StatusOK : Z := 200.
Definition maxRetries : Z := 3.

Section RIRService.
Context {W : Type} `{Platform} `{Transport W}.

(** [RIRService.fetchWithTimeout(ctx, url)]. *)
Definition fetchWithTimeout (url : string)
  : M W (list IPRange * RIRStats * option error) :=
  let stats := zeroStats in
  o ← Get url;
  match o with
  | RequestError e => mret ([], stats, Some (CreatingRequest e))
  | DoError e => mret ([], stats, Some (FetchingRIRData e))
  | Response status lines scanErr =>
      if negb (status =? StatusOK)
      then mret ([], stats, Some (UnexpectedStatus status))
      else
        '(ranges, stats) ← lift (scanLines lines ([], stats));
        match scanErr with
        | Some e => mret ([], stats, Some (ReadingRIRData e))
        | None => mret (ranges, stats, None)
        end
  end.

(** The [for attempt := 0; attempt < maxRetries; attempt++] loop of
    [FetchIPRanges], over the attempt numbers still to run. *)
Fixpoint retry (url : string) (attempts : list Z) (lastErr : option error)
  : M W (list IPRange * RIRStats * option error) :=
  match attempts with
  | [] =>
      (* the [stats] returned here is the outer, untouched variable *)
      mret ([], zeroStats, Some (FailedAfterAttempts maxRetries lastErr))
  | attempt :: rest =>
      _ ← (if 0 <? attempt then Sleep (attempt * 5 * Second) else mret tt);
      '(ranges, stats, err) ← fetchWithTimeout url;
      match err with
      | None => mret (ranges, stats, None)
      | Some e => retry url rest (Some e)
      end
  end.

(** [RIRService.FetchIPRanges(ctx, url)]. *)
Definition FetchIPRanges (url : string)
  : M W (list IPRange * RIRStats * option error) :=
  retry url (seqZ 0 maxRetries) None.

End RIRService.

(** ** [internal/service/ip_service.go] *)

(** The [Repository] interface. *)
Class Repository (W : Type) : Type := {
  SaveIPRanges : list IPRange -> M W (option error);
  FindCountryForIP : Net.IP -> M W (string * option error);
  ClearIPRanges : M W (option error);
  GetRangesCount : M W (Z * option error)
}.

(** The [Cache] interface. *)
Class Cache (W : Type) : Type := {
  SetCountry : string -> string -> M W (option error);
  GetCountry : string -> M W (string * option error);
  CacheIPRanges : list IPRange -> M W (option error);
  GetCachedRange : Net.IP -> M W (string * option error)
}.

(** The [totalStats] of [UpdateIPRanges]. *)
Record TotalStats : Type := {
  TotalRanges : Z;
  IPv4Ranges : Z;
  IPv6Ranges : Z;
  SkippedRanges : Z;
  TotalParseErrors : Z
}.

Definition zeroTotals : TotalStats :=
  {| TotalRanges := 0; IPv4Ranges := 0; IPv6Ranges := 0; SkippedRanges := 0;
     TotalParseErrors := 0 |}.

Definition addStats (t : TotalStats) (stats : RIRStats) (ranges : list IPRange)
  : TotalStats :=
  {| IPv4Ranges := IPv4Ranges t + IPv4Count stats;
     IPv6Ranges := IPv6Ranges t + IPv6Count stats;
     SkippedRanges := SkippedRanges t + SkippedCount stats;
     TotalParseErrors := TotalParseErrors t + ParseErrors stats;
     TotalRanges := TotalRanges t + Z.of_nat (length ranges) |}.

(** The reserved country code of an address that no range owns. *)
Definition unknownCountry : string := "ZZ".

Section IPService.
Context {W : Type} `{Platform} `{Transport W} `{Repository W} `{Cache W}.

(** The [for _, rir := range s.config.RIRs] loop of [UpdateIPRanges]. *)
Fixpoint fetchAll (rirs : list RIR) (allRanges : list IPRange)
         (errors : list error) (totalStats : TotalStats)
  : M W (list IPRange * list error * TotalStats) :=
  match rirs with
  | [] => mret (allRanges, errors, totalStats)
  | rir :: rest =>
      '(ranges, stats, err) ← FetchIPRanges (URL rir);
      match err with
      | Some e =>
          fetchAll rest allRanges (errors ++ [NamedError (Name rir) e])
                   totalStats
      | None =>
          fetchAll rest (allRanges ++ ranges) errors
                   (addStats totalStats stats ranges)
      end
  end.

(** [IPService.UpdateIPRanges(ctx)]. *)
Definition UpdateIPRanges (config : Config) : M W (option error) :=
  '(allRanges, errors, totalStats) ← fetchAll (RIRs config) [] [] zeroTotals;
  if Nat.eqb (length allRanges) 0 then mret (Some (NoRangesFetched errors))
  else
    err ← ClearIPRanges;
    match err with
    | Some e => mret (Some (ClearingRanges e))
    | None =>
        err ← SaveIPRanges allRanges;
        match err with
        | Some e => mret (Some e)
        | None =>
            (* Don't return error as database update was successful *)
            _ ← CacheIPRanges allRanges;
            mret None
        end
    end.

Definition isNil (err : option error) : bool :=
  match err with None => true | Some _ => false end.

Definition nonEmpty (s : string) : bool := negb (String.eqb s EmptyString).

(** [IPService.LookupIP(ctx, ipStr)]: the response pointer and the error. *)
Definition LookupIP (ipStr : string)
  : M W (option IPResponse * option error) :=
  (* Try direct IP cache first *)
  '(countryCode, err) ← GetCountry ipStr;
  if isNil err && nonEmpty countryCode then
    mret (Some {| Resp_IP := ipStr; Resp_CountryCode := countryCode |}, None)
  else
    let ip := Net.ParseIP ipStr in
    if Nat.eqb (length ip) 0 then
      mret (None, Some (InvalidIPAddress ipStr))
    else
      (* Try cached ranges *)
      '(countryCode, err) ← GetCachedRange ip;
      if isNil err && nonEmpty countryCode then
        (* Cache the specific IP for faster future lookups *)
        _ ← SetCountry ipStr countryCode;
        mret (Some {| Resp_IP := ipStr; Resp_CountryCode := countryCode |},
              None)
      else
        (* Fall back to database *)
        '(countryCode, err) ← FindCountryForIP ip;
        match err with
        | Some e => mret (None, Some e)
        | None =>
            (* Don't cache unknown results *)
            _ ← (if negb (String.eqb countryCode unknownCountry)
                 then _ ← SetCountry ipStr countryCode; mret tt
                 else mret tt);
            mret (Some {| Resp_IP := ipStr; Resp_CountryCode := countryCode |},
                  None)
        end.

(** [IPService.checkDataExists(ctx)]. *)
Definition checkDataExists : M W (bool * option error) :=
  '(count, err) ← GetRangesCount;
  match err with
  | Some e => mret (false, Some e)
  | None => mret (0 <? count, None)
  end.

End IPService.

(** ** [IPService.Start]

    [Start] up to its return: the check of the table and the initial
    load.  The goroutine that it starts before it returns, which runs
    [UpdateIPRanges] at every tick of a 24-hour ticker and logs its error,
    runs after that. *)

Section Start.
Context {W : Type} `{Platform} `{Transport W} `{Repository W} `{Cache W}.

Definition Start (config : Config) : M W (option error) :=
  (* Quick check if data exists *)
  '(exists_, err) ← checkDataExists;
  match err with
  | Some e => mret (Some (NamedError "checking data existence" e))
  | None =>
      if negb exists_ then
        err ← UpdateIPRanges config;
        match err with
        | Some e => mret (Some (NamedError "initial IP ranges update failed" e))
        | None => mret None
        end
      else mret None
  end.

End Start.

(** ** [internal/handler/ip_handler.go] *)

Module Strings.

(** [strings.Contains(s, substr)]. *)
Fixpoint Contains (s substr : string) : bool :=
  Str.HasPrefix s substr
  || match s with
     | EmptyString => false
     | String _ rest => Contains rest substr
     end.

End Strings.

(** The JSON body of a reply: a [model.Error] or the result of the lookup. *)
Inductive Body : Type :=
| ErrorBody (Message : string)
| ResultBody (result : IPResponse).

Definition StatusBadRequest : Z := 400.
Definition StatusNotFound : Z := 404.
Definition StatusInternalServerError : Z := 500.

Section Handler.
Context {W : Type}.

(** The method [Error()] of the error values. *)
Variable Error : error -> string.

(** The [IPService] interface of the handler. *)
Variable service : string -> M W (option IPResponse * option error).

(** [Handler.LookupIP(c)] with [ip] for [c.Params("ip")]: the status and
    the body of the reply. *)
Definition Handler_LookupIP (ip : string) : M W (Z * Body) :=
  if String.eqb ip EmptyString then
    mret (StatusBadRequest, ErrorBody "IP address is required")
  else
    '(result, err) ← service ip;
    match err with
    | Some e =>
        if Strings.Contains (Error e) "invalid IP address" then
          mret (StatusBadRequest,
                ErrorBody ("Invalid IP address format: " +:+ ip))
        else
          mret (StatusInternalServerError,
                ErrorBody "Failed to lookup IP address")
    | None =>
        match result with
        | None => lift (Panic NilDereference)   (* result.CountryCode *)
        | Some r =>
            if String.eqb (Resp_CountryCode r) "ZZ" then
              mret (StatusNotFound,
                    ErrorBody "No country information found for this IP")
            else mret (StatusOK, ResultBody r)
        end
    end.

End Handler.

(** ** The collaborators

    The state of PostgreSQL and of Redis, the script of what the network
    answers and of which calls fail, and the record of what the fetcher did
    to the network and the clock. *)

Inductive Event : Type :=
| EvGet (url : string)
| EvSleep (d : Z).

(** A row key of table [ip_ranges]: the [network] column, which carries the
    unique index, as base address and mask. *)
Abbreviation cidr := (list Z * list Z)%type.

Record World : Type := {
  pg_ip_ranges : gmap cidr (string * Z); (* network -> country_code, ip_version *)
  redis_kv : gmap string string;         (* the string keys, "ip:<address>" *)
  redis_ipranges : gmap string Z;        (* sorted set "ipranges": member -> score *)
  faults : list (option error);          (* one entry per call to a store, in order *)
  http : list HTTPOutcome;               (* one entry per request, in order *)
  trace : list Event
}.

Definition with_pg (w : World) (t : gmap cidr (string * Z)) : World :=
  {| pg_ip_ranges := t; redis_kv := redis_kv w;
     redis_ipranges := redis_ipranges w; faults := faults w; http := http w;
     trace := trace w |}.

Definition with_kv (w : World) (kv : gmap string string) : World :=
  {| pg_ip_ranges := pg_ip_ranges w; redis_kv := kv;
     redis_ipranges := redis_ipranges w; faults := faults w; http := http w;
     trace := trace w |}.

Definition with_ipranges (w : World) (z : gmap string Z) : World :=
  {| pg_ip_ranges := pg_ip_ranges w; redis_kv := redis_kv w;
     redis_ipranges := z; faults := faults w; http := http w;
     trace := trace w |}.

(** The next call to PostgreSQL or Redis: whether it fails, and with what.
    A script that has run out schedules no failure. *)
Definition call : M World (option error) := fun w =>
  match faults w with
  | [] => (Return None, w)
  | f :: rest =>
      (Return f,
       {| pg_ip_ranges := pg_ip_ranges w; redis_kv := redis_kv w;
          redis_ipranges := redis_ipranges w; faults := rest; http := http w;
          trace := trace w |})
  end.

Definition log (e : Event) (w : World) : World :=
  {| pg_ip_ranges := pg_ip_ranges w; redis_kv := redis_kv w;
     redis_ipranges := redis_ipranges w; faults := faults w; http := http w;
     trace := trace w ++ [e] |}.

(** A request is answered by the head of the script; when the script has
    run out nobody answers. *)
#[export] Instance World_Transport : Transport World := {|
  Get url := fun w =>
    match http w with
    | [] => (Return (DoError (Opaque "connection refused")), log (EvGet url) w)
    | o :: rest =>
        (Return o,
         log (EvGet url)
             {| pg_ip_ranges := pg_ip_ranges w; redis_kv := redis_kv w;
                redis_ipranges := redis_ipranges w; faults := faults w;
                http := rest; trace := trace w |})
    end;
  Sleep d := fun w => (Return tt, log (EvSleep d) w)
|}.

Definition gets {A} (f : World -> A) : M World A := fun w => (Return (f w), w).
Definition modify (f : World -> World) : M World unit := fun w => (Return tt, f w).

(** ** [internal/repository/redis.go]

    Keys never expire here: the 24-hour time-to-live that [Set] and [Expire]
    attach is not part of the state. *)

Module Redis.

Definition SetCountry (ip countryCode : string) : M World (option error) :=
  f ← call;
  match f with
  | Some err => mret (Some err)
  | None =>
      kv ← gets redis_kv;
      _ ← modify (fun w => with_kv w (<["ip:" +:+ ip := countryCode]> kv));
      mret None
  end.

Definition GetCountry (ip : string) : M World (string * option error) :=
  f ← call;
  match f with
  | Some err => mret (EmptyString, Some err)
  | None =>
      kv ← gets redis_kv;
      match kv !! ("ip:" +:+ ip) with
      | None => mret (EmptyString, None)           (* redis.Nil *)
      | Some countryCode => mret (countryCode, None)
      end
  end.

Definition ipToInt (ip : Net.IP) : Z :=
  match Net.To4 ip with
  | None => 0
  | Some ip =>
      Z.lor (Z.lor (Z.lor (Z.shiftl (nth 0 ip 0) 24) (Z.shiftl (nth 1 ip 0) 16))
                   (Z.shiftl (nth 2 ip 0) 8))
            (nth 3 ip 0)
  end.

(** The member that [CacheIPRanges] stores for a range, and its score. *)
Definition member (r : IPRange) : string :=
  CountryCode r +:+ "|" +:+ Net.IPMask_String (Net.net_Mask (Network r)).

Definition score (r : IPRange) : Z := ipToInt (Net.net_IP (Network r)).

(** The [ZAdd] commands of the pipeline, in order; adding a member that
    is there already moves it to the new score. *)
Definition zaddAll (ranges : list IPRange) (z : gmap string Z) : gmap string Z :=
  foldl (fun z r => <[member r := score r]> z) z ranges.

(** The pipeline of [CacheIPRanges] is sent as one batch: [Del], the
    [ZAdd]s, [Expire].  An [Exec] that fails is taken to fail before the
    batch reaches the server; nothing below depends on what a failed batch
    leaves behind. *)
Definition CacheIPRanges (ranges : list IPRange) : M World (option error) :=
  f ← call;
  match f with
  | Some err => mret (Some err)
  | None =>
      _ ← modify (fun w => with_ipranges w (zaddAll ranges ∅));
      mret None
  end.

(** Order of a sorted set: by score, then by member, byte-wise. *)
Definition zlt (a b : string * Z) : bool :=
  (a.2 <? b.2) || ((a.2 =? b.2) && String.ltb a.1 b.1).

(** [ZREVRANGEBYSCORE key max min LIMIT 0 1]: the last member, in the
    order of the set, among those whose score lies in [min, max]. *)
Definition ZRevRangeByScore1 (z : gmap string Z) (min max : Z) : list string :=
  let inRange := filter (fun e => min <= e.2 <= max) (map_to_list z) in
  match foldr (fun e best =>
                 match best with
                 | None => Some e
                 | Some b => if zlt b e then Some e else Some b
                 end) None inRange with
  | None => []
  | Some e => [e.1]
  end.

Definition GetCachedRange (ip : Net.IP) : M World (string * option error) :=
  let ipInt := ipToInt ip in
  (* Find the largest range start that's less than or equal to our IP *)
  f ← call;
  match f with
  | Some err => mret (EmptyString, Some err)
  | None =>
      z ← gets redis_ipranges;
      let ranges := ZRevRangeByScore1 z 0 ipInt in
      match ranges with
      | [] => mret (EmptyString, None)
      | range0 :: _ =>
          (* Parse the stored range *)
          let parts := Str.Split "|" range0 in
          match parts with
          | [countryCode; mask] =>
              (* Verify IP is in range *)
              let '(_, network, err) :=
                Net.ParseCIDR (Net.IP_String ip +:+ "/" +:+ mask) in
              match err, network with
              | Some e, _ => mret (EmptyString, Some e)
              | None, None => lift (Panic NilDereference)
              | None, Some network =>
                  if Net.Contains network ip then mret (countryCode, None)
                  else mret (EmptyString, None)
              end
          | _ => mret (EmptyString, Some InvalidRangeFormat)
          end
      end
  end.

End Redis.

#[export] Instance Redis_Cache : Cache World := {|
  SetCountry := Redis.SetCountry;
  GetCountry := Redis.GetCountry;
  CacheIPRanges := Redis.CacheIPRanges;
  GetCachedRange := Redis.GetCachedRange
|}.

(** ** [internal/repository/postgres.go]

    Table [ip_ranges] with its unique index on [network].  The text that
    [Network.String()] gives for a network built by [net.ParseCIDR] is
    "<base>/<prefix length>", which PostgreSQL reads back as that network,
    so a row is keyed by the network itself. *)

Module Postgres.

Definition rowKey (r : IPRange) : cidr :=
  (Net.net_IP (Network r), Net.net_Mask (Network r)).

(** [INSERT ... ON CONFLICT (network) DO UPDATE SET ...]. *)
Definition upsert (t : gmap cidr (string * Z)) (r : IPRange)
  : gmap cidr (string * Z) :=
  <[rowKey r := (CountryCode r, Version r)]> t.

(** The [for _, ipRange := range ranges] loop inside the transaction;
    [tx] is the table as the transaction sees it. *)
Fixpoint execAll (ranges : list IPRange) (tx : gmap cidr (string * Z))
  : M World (gmap cidr (string * Z) * option error) :=
  match ranges with
  | [] => mret (tx, None)
  | ipRange :: rest =>
      f ← call;                                 (* stmt.ExecContext *)
      match f with
      | Some err => mret (tx, Some err)
      | None => execAll rest (upsert tx ipRange)
      end
  end.

(** Every return before [tx.Commit()] succeeds runs the deferred
    [tx.Rollback()], which leaves the table as it was. *)
Definition SaveIPRanges (ranges : list IPRange) : M World (option error) :=
  f ← call;                                     (* db.BeginTx *)
  match f with
  | Some err => mret (Some err)
  | None =>
      f ← call;                                 (* tx.PrepareContext *)
      match f with
      | Some err => mret (Some err)
      | None =>
          t ← gets pg_ip_ranges;
          '(tx, err) ← execAll ranges t;
          match err with
          | Some err => mret (Some err)
          | None =>
              f ← call;                         (* tx.Commit *)
              match f with
              | Some err => mret (Some err)
              | None =>
                  _ ← modify (fun w => with_pg w tx);
                  mret None
              end
          end
      end
  end.

(** [TRUNCATE TABLE ip_ranges], a statement of its own outside any
    transaction of the service. *)
Definition ClearIPRanges : M World (option error) :=
  f ← call;
  match f with
  | Some err => mret (Some err)
  | None => _ ← modify (fun w => with_pg w ∅); mret None
  end.

Definition GetRangesCount : M World (Z * option error) :=
  f ← call;
  match f with
  | Some err => mret (0, Some err)
  | None => t ← gets pg_ip_ranges; mret (Z.of_nat (size t), None)
  end.

(** The bits of a byte string, most significant first. *)
Definition bitsOf (b : list Z) : list bool :=
  flat_map (fun x => map (Z.testbit x) [7; 6; 5; 4; 3; 2; 1; 0]) b.

Fixpoint leadingOnes (bits : list bool) : Z :=
  match bits with
  | true :: rest => 1 + leadingOnes rest
  | _ => 0
  end.

(** Prefix length of a mask made of ones followed by zeros. *)
Definition maskBits (m : list Z) : Z := leadingOnes (bitsOf m).

(** PostgreSQL's [bitncmp]: the first [n] bits of two addresses compared. *)
Fixpoint bitcmp (a b : list bool) : comparison :=
  match a, b with
  | x :: a', y :: b' =>
      match x, y with
      | false, true => Lt
      | true, false => Gt
      | _, _ => bitcmp a' b'
      end
  | _, _ => Eq
  end.

Definition bitncmp (a b : list Z) (n : Z) : comparison :=
  bitcmp (take (Z.to_nat n) (bitsOf a)) (take (Z.to_nat n) (bitsOf b)).

(** PostgreSQL's [network_cmp]: family, common prefix, prefix length,
    address. *)
Definition network_cmp (a b : cidr) : comparison :=
  if Nat.eqb (length a.1) (length b.1) then
    match bitncmp a.1 b.1 (Z.min (maskBits a.2) (maskBits b.2)) with
    | Eq =>
        match maskBits a.2 ?= maskBits b.2 with
        | Eq => bitncmp a.1 b.1 (8 * Z.of_nat (length a.1))
        | c => c
        end
    | c => c
    end
  else Nat.compare (length a.1) (length b.1).

(** [network >> addr]: the network strictly contains the host address. *)
Definition strictlyContains (n : cidr) (addr : list Z) : bool :=
  Nat.eqb (length n.1) (length addr)
  && (maskBits n.2 <? 8 * Z.of_nat (length addr))
  && match bitncmp n.1 addr (maskBits n.2) with Eq => true | _ => false end.

(** [SELECT country_code FROM ip_ranges WHERE network >> $1
     ORDER BY network ASC LIMIT 1]. *)
Definition selectCountry (t : gmap cidr (string * Z)) (addr : list Z)
  : option string :=
  let rows := filter (fun row => strictlyContains row.1 addr = true)
                     (map_to_list t) in
  match foldr (fun row best =>
                 match best with
                 | None => Some row
                 | Some b => match network_cmp row.1 b.1 with
                             | Lt => Some row
                             | _ => Some b
                             end
                 end) None rows with
  | None => None
  | Some row => Some row.2.1
  end.

(** The query is sent with [ip.String()]; the address PostgreSQL reads
    back is the 4-byte form of an IPv4 address and the 16 bytes
    otherwise.  Text that is no address is refused by the server. *)
Definition FindCountryForIP (ip : Net.IP) : M World (string * option error) :=
  f ← call;
  match f with
  | Some err => mret (EmptyString, Some err)
  | None =>
      let addr := match Net.To4 ip with Some p4 => p4 | None => ip end in
      if negb (Nat.eqb (length addr) 4) && negb (Nat.eqb (length addr) 16)
      then mret (EmptyString,
                 Some (Opaque "invalid input syntax for type inet"))
      else
        t ← gets pg_ip_ranges;
        match selectCountry t addr with
        | None => mret (unknownCountry, None)   (* sql.ErrNoRows *)
        | Some countryCode => mret (countryCode, None)
        end
  end.

End Postgres.

#[export] Instance Postgres_Repository : Repository World := {|
  SaveIPRanges := Postgres.SaveIPRanges;
  FindCountryForIP := Postgres.FindCountryForIP;
  ClearIPRanges := Postgres.ClearIPRanges;
  GetRangesCount := Postgres.GetRangesCount
|}.

(** ** [tests/mocks]

    A mock forwards each method to a function field; calling a field that
    was left nil panics.  The world of the mocks is the record of the calls
    made so far, and a function field may look at it, as a Go closure may
    look at what it captured. *)

Module mocks.

Inductive Call : Type :=
| CallSaveIPRanges (ranges : list IPRange)
| CallFindCountryForIP (ip : Net.IP)
| CallClearIPRanges
| CallGetRangesCount
| CallSetCountry (ip countryCode : string)
| CallGetCountry (ip : string)
| CallCacheIPRanges (ranges : list IPRange)
| CallGetCachedRange (ip : Net.IP).

Record MockRepository : Type := {
  SaveIPRangesFunc : option (list Call -> list IPRange -> option error);
  FindCountryForIPFunc : option (list Call -> Net.IP -> string * option error);
  ClearIPRangesFunc : option (list Call -> option error);
  GetRangesCountFunc : option (list Call -> Z * option error)
}.

Record MockCache : Type := {
  SetCountryFunc : option (list Call -> string -> string -> option error);
  GetCountryFunc : option (list Call -> string -> string * option error);
  CacheIPRangesFunc : option (list Call -> list IPRange -> option error);
  GetCachedRangeFunc : option (list Call -> Net.IP -> string * option error)
}.

(** Record the call, then run the function field on the calls before it. *)
Definition invoke {A} (c : Call) (f : option (list Call -> A))
  : M (list Call) A := fun calls =>
  match f with
  | None => (Panic NilDereference, calls ++ [c])
  | Some g => (Return (g calls), calls ++ [c])
  end.

Definition repository (m : MockRepository) : Repository (list Call) := {|
  SaveIPRanges ranges :=
    invoke (CallSaveIPRanges ranges)
           (option_map (fun f calls => f calls ranges) (SaveIPRangesFunc m));
  FindCountryForIP ip :=
    invoke (CallFindCountryForIP ip)
           (option_map (fun f calls => f calls ip) (FindCountryForIPFunc m));
  ClearIPRanges := invoke CallClearIPRanges (ClearIPRangesFunc m);
  GetRangesCount := invoke CallGetRangesCount (GetRangesCountFunc m)
|}.

Definition cache (m : MockCache) : Cache (list Call) := {|
  SetCountry ip countryCode :=
    invoke (CallSetCountry ip countryCode)
           (option_map (fun f calls => f calls ip countryCode) (SetCountryFunc m));
  GetCountry ip :=
    invoke (CallGetCountry ip)
           (option_map (fun f calls => f calls ip) (GetCountryFunc m));
  CacheIPRanges ranges :=
    invoke (CallCacheIPRanges ranges)
           (option_map (fun f calls => f calls ranges) (CacheIPRangesFunc m));
  GetCachedRange ip :=
    invoke (CallGetCachedRange ip)
           (option_map (fun f calls => f calls ip) (GetCachedRangeFunc m))
|}.

(** [LookupIP] of a service built over the two mocks. *)
Definition LookupIP (repo : MockRepository) (c : MockCache) (ipStr : string)
  : M (list Call) (option IPResponse * option error) :=
  @LookupIP (list Call) (repository repo) (cache c) ipStr.

(** The mocks of [TestIPService_LookupIP]: fixed answers, a [SetCountry]
    that succeeds, everything else left nil. *)
Definition testCache (cacheResponse : string) (cacheError : option error)
           (cachedRange : string) (rangeError : option error) : MockCache :=
  {| GetCountryFunc := Some (fun _ _ => (cacheResponse, cacheError));
     SetCountryFunc := Some (fun _ _ _ => None);
     GetCachedRangeFunc := Some (fun _ _ => (cachedRange, rangeError));
     CacheIPRangesFunc := None |}.

Definition testRepo (repoResponse : string) (repoError : option error)
  : MockRepository :=
  {| FindCountryForIPFunc := Some (fun _ _ => (repoResponse, repoError));
     SaveIPRangesFunc := None; ClearIPRangesFunc := None;
     GetRangesCountFunc := None |}.

End mocks.

(** ** Sample inputs and the vocabulary of the statements *)

(** The first line of the feed in [TestRIRService_FetchIPRanges], split. *)
Definition sampleParts : list string :=
  ["2"; "US"; "ipv4"; "192.168.0.0"; "65536"; "20100101"; "allocated"].

(** *** Worlds to run the service in *)

(** Nothing stored, nothing scripted. *)
Definition emptyWorld : World :=
  {| pg_ip_ranges := ∅; redis_kv := ∅; redis_ipranges := ∅; faults := [];
     http := []; trace := [] |}.

(** [w] with the network answering by [script]. *)
Definition answering (script : list HTTPOutcome) (w : World) : World :=
  {| pg_ip_ranges := pg_ip_ranges w; redis_kv := redis_kv w;
     redis_ipranges := redis_ipranges w; faults := faults w; http := script;
     trace := trace w |}.

(** [w] with the store calls failing by [script]. *)
Definition failing (script : list (option error)) (w : World) : World :=
  {| pg_ip_ranges := pg_ip_ranges w; redis_kv := redis_kv w;
     redis_ipranges := redis_ipranges w; faults := script; http := http w;
     trace := trace w |}.

(** The body of the "valid response" case of [TestRIRService_FetchIPRanges]. *)
Definition validBody : list string :=
  ["2|US|ipv4|192.168.0.0|65536|20100101|allocated";
   "2|CA|ipv6|2001:db8::|32|20100101|allocated"].

Definition usRange : IPRange :=
  {| ID := 0;
     Network := {| Net.net_IP := [192; 168; 0; 0];
                   Net.net_Mask := [255; 255; 0; 0] |};
     CountryCode := "US"; Version := 4 |}.

Definition caRange : IPRange :=
  {| ID := 0;
     Network := {| Net.net_IP := [32; 1; 13; 184; 0; 0; 0; 0; 0; 0; 0; 0; 0; 0; 0; 0];
                   Net.net_Mask := [255; 255; 255; 255; 0; 0; 0; 0; 0; 0; 0; 0; 0; 0; 0; 0] |};
     CountryCode := "CA"; Version := 6 |}.

Definition validStats : RIRStats :=
  {| IPv4Count := 1; IPv6Count := 1; SkippedCount := 0; ParseErrors := 0 |}.

(** A world whose next request is answered 200 with [validBody]. *)
Definition validWorld : World :=
  answering [Response 200 validBody None] emptyWorld.

(** What the fetcher does to the network and the clock when it makes all
    its attempts. *)
Definition retrySchedule (url : string) : list Event :=
  [EvGet url; EvSleep (5 * Second); EvGet url; EvSleep (10 * Second); EvGet url].

(** *** Cache reads that miss *)

(** A cache read that finds nothing and leaves the world [w1]. *)
Definition missAt {W : Type} (w1 : W) : M W (string * option error) :=
  fun _ => (Return (EmptyString, None), w1).

(** The cache [c] with its tier-1 read, or its tier-2 read, replaced. *)
Definition withGetCountry {W : Type} (c : Cache W)
           (g : string -> M W (string * option error)) : Cache W :=
  {| SetCountry := @SetCountry W c; GetCountry := g;
     CacheIPRanges := @CacheIPRanges W c;
     GetCachedRange := @GetCachedRange W c |}.

Definition withGetCachedRange {W : Type} (c : Cache W)
           (g : Net.IP -> M W (string * option error)) : Cache W :=
  {| SetCountry := @SetCountry W c; GetCountry := @GetCountry W c;
     CacheIPRanges := @CacheIPRanges W c; GetCachedRange := g |}.

(** *** Worlds of the resolver *)

Definition redisDown : error := Opaque "redis: connection refused".

(** The store holds 192.168.0.0/16 for US; the next two calls to a
    collaborator, the two cache reads of a lookup, fail. *)
Definition cacheDownWorld : World :=
  failing [Some redisDown; Some redisDown]
          (with_pg emptyWorld (Postgres.upsert ∅ usRange)).

(** Tier 1 holds a country under a key that is no address. *)
Definition staleKeyWorld : World :=
  with_kv emptyWorld {["ip:not-an-ip" := "US"]}.

(** A range that covers all of IPv4 and carries the unknown country code,
    as the feed line "x|ZZ|ipv4|0.0.0.0|4294967296|20100101|allocated"
    parses. *)
Definition zzRange : IPRange :=
  {| ID := 0;
     Network := {| Net.net_IP := [0; 0; 0; 0]; Net.net_Mask := [0; 0; 0; 0] |};
     CountryCode := "ZZ"; Version := 4 |}.

Definition ip8888 : Net.IP := [0; 0; 0; 0; 0; 0; 0; 0; 0; 0; 255; 255; 8; 8; 8; 8].

(** *** Worlds of the refresh *)

(** Two worlds with the same stores and the same script of failures. *)
Definition sameStores (w w1 : World) : Prop :=
  pg_ip_ranges w1 = pg_ip_ranges w
  /\ redis_kv w1 = redis_kv w
  /\ redis_ipranges w1 = redis_ipranges w
  /\ faults w1 = faults w.

(** [w] after [n] calls to a store have consumed their entries of the
    script. *)
Definition afterCalls (n : nat) (w : World) : World :=
  failing (drop n (faults w)) w.

(** The next [n] calls to a store succeed. *)
Definition callsSucceed (n : nat) (w : World) : Prop :=
  Forall (fun f => f = None) (take n (faults w)).

(** The error that the cycle records for a source that nobody answers
    for: three attempts, each refused. *)
Definition sourceDown (rir : RIR) : error :=
  NamedError (Name rir)
    (FailedAfterAttempts 3
       (Some (FetchingRIRData (Opaque "connection refused")))).

Definition otherSourcesDown : list error :=
  [sourceDown ripe; sourceDown apnic; sourceDown lacnic; sourceDown afrinic].

Definition insertFailed : error := Opaque "pq: connection reset".

(** The store holds 10.0.0.0/8 for DE; the first source asked answers
    with [validBody] and nobody answers for the others; the clear, the
    begin and the prepare succeed and the first insert fails. *)
Definition deRange : IPRange :=
  {| ID := 0;
     Network := {| Net.net_IP := [10; 0; 0; 0]; Net.net_Mask := [255; 0; 0; 0] |};
     CountryCode := "DE"; Version := 4 |}.

Definition insertFailsWorld : World :=
  failing [None; None; None; Some insertFailed]
          (answering [Response 200 validBody None]
                     (with_pg emptyWorld (Postgres.upsert ∅ deRange))).

(** The store holds 10.0.0.0/8 for DE; the first source asked answers 200
    with a body of comments only and nobody answers for the others. *)
Definition commentsOnlyWorld : World :=
  answering [Response 200 ["# delegated-arin-extended"; "# no records"] None]
            (with_pg emptyWorld (Postgres.upsert ∅ deRange)).

(** The entry of the script that the next call to a store consumes. *)
Definition nextFault (w : World) : option error :=
  match faults w with
  | f :: _ => f
  | [] => None
  end.

(** *** Dotted quads *)

(** The bytes that [parseIPv4] accepts. *)
Definition v4char (c : ascii) : bool := Str.is_digit c || Ascii.eqb c ".".

Fixpoint v4chars (s : string) : bool :=
  match s with
  | EmptyString => true
  | String c rest => v4char c && v4chars rest
  end.

Fixpoint hasDot (s : string) : bool :=
  match s with
  | EmptyString => false
  | String c rest => Ascii.eqb c "." || hasDot rest
  end.

(** *** Worlds of the range cache *)

(** The world whose tier 2 was rebuilt from [ranges]. *)
Definition tier2Of (ranges : list IPRange) : World :=
  (Redis.CacheIPRanges ranges emptyWorld).2.

(** A range that covers all of IPv4, as the feed line
    "x|US|ipv4|0.0.0.0|4294967296|20100101|allocated" parses. *)
Definition allV4Range : IPRange :=
  {| ID := 0;
     Network := {| Net.net_IP := [0; 0; 0; 0]; Net.net_Mask := [0; 0; 0; 0] |};
     CountryCode := "US"; Version := 4 |}.

(** A text that [net.ParseCIDR] accepts after the slash: [dtoi] reads all
    of it as a number. *)
Definition readableMask (mask : string) : bool :=
  let '(_, i, ok) := Net.dtoi mask in ok && (i =? Str.len mask).

Fixpoint allDigits (s : string) : bool :=
  match s with
  | EmptyString => true
  | String c rest => Str.is_digit c && allDigits rest
  end.

(** The mask of a network of prefix length 1 or more, as [net.ParseCIDR]
    builds it. *)
Definition prefixMask (m : list Z) : Prop :=
  (exists n, 1 <= n <= 32 /\ m = Net.CIDRMask n 32)
  \/ (exists n, 1 <= n <= 128 /\ m = Net.CIDRMask n 128).

(** *** Counting lines and ranges *)

(** The lines that the counters of a fetch account for. *)
Definition totalCount (s : RIRStats) : Z :=
  IPv4Count s + IPv6Count s + SkippedCount s + ParseErrors s.

(** The ranges tagged as IPv4. *)
Definition countVersion4 (ranges : list IPRange) : Z :=
  Z.of_nat (length (filter (fun r => Version r = 4) ranges)).

(** A body with a comment, an empty line, a short line, a summary line, an
    unallocated record, an autonomous-system record, a record with a broken
    count, and two records that parse. *)
Definition mixedBody : list string :=
  ["# header";
   "";
   "2|arin|20240101";
   "arin|*|ipv4|*|12345|summary";
   "arin|US|ipv4|192.0.2.0|256|20100101|reserved";
   "arin|US|asn|64512|1|20100101|allocated";
   "arin|US|ipv4|192.0.2.0|many|20100101|allocated";
   "arin|US|ipv4|192.168.0.0|65536|20100101|allocated";
   "arin|CA|ipv6|2001:db8::|32|20100101|assigned"].

(** *** Networks *)

(** A network as [net.ParseCIDR] builds it: a mask of [k] ones out of 32 or
    128 bits, and a base address of the same length with no bit set outside
    the mask. *)
Definition canonicalNet (n : Net.IPNet) : Prop :=
  exists bits k,
    (bits = 32 \/ bits = 128)
    /\ 0 <= k <= bits
    /\ Net.net_Mask n = Net.CIDRMask k bits
    /\ length (Net.net_IP n) = Z.to_nat (bits / 8)
    /\ Net.and_bytes (Net.net_IP n) (Net.net_Mask n) = Net.net_IP n.

(** A world in which every request is answered with status 500. *)
Definition serverErrorWorld : World :=
  answering [Response 500 [] None; Response 500 [] None; Response 500 [] None]
            emptyWorld.

(** *** Bytes *)

Definition isByte (b : Z) : Prop := 0 <= b < 256.

(** The last element of [l] that satisfies [p]. *)
Definition lastWith {A : Type} (p : A -> bool) (l : list A) : option A :=
  last (List.filter p l).

(** *** The range store *)

(** The address that PostgreSQL reads from the text of [ip.String()]. *)
Definition pgAddr (ip : Net.IP) : list Z :=
  match Net.To4 ip with Some p4 => p4 | None => ip end.

Definition frRange : IPRange :=
  {| ID := 0;
     Network := {| Net.net_IP := [10; 1; 0; 0]; Net.net_Mask := [255; 255; 0; 0] |};
     CountryCode := "FR"; Version := 4 |}.

(** The store holds 10.0.0.0/8 for DE and, inside it, 10.1.0.0/16 for FR. *)
Definition nestedWorld : World :=
  with_pg emptyWorld (foldl Postgres.upsert ∅ [deRange; frRange]).

Definition ip10123 : Net.IP := [0; 0; 0; 0; 0; 0; 0; 0; 0; 0; 255; 255; 10; 1; 2; 3].

(** *** Lookups *)

(** The worlds that a lookup of [ipStr] in [w] can leave: at most four
    calls made, and at most the tier-1 entry of the address written. *)
Definition lookupLeaves (ipStr : string) (w w' : World) : Prop :=
  pg_ip_ranges w' = pg_ip_ranges w
  /\ redis_ipranges w' = redis_ipranges w
  /\ http w' = http w
  /\ trace w' = trace w
  /\ (exists n, (n <= 4)%nat /\ faults w' = drop n (faults w))
  /\ forall k, k <> "ip:" +:+ ipStr -> redis_kv w' !! k = redis_kv w !! k.

Definition deResponse : IPResponse :=
  {| Resp_IP := "10.1.2.3"; Resp_CountryCode := "DE" |}.

(** An [Error] method for the runs of the handler: the text of the error
    that [LookupIP] builds, and of an error of a collaborator. *)
Definition sampleError (e : error) : string :=
  match e with
  | InvalidIPAddress s => "invalid IP address: " +:+ s
  | Opaque what => what
  | _ => EmptyString
  end.

(** *** Calls to the collaborators *)

(** The calls that a lookup of [ipStr] may make to its collaborators, in
    order. *)
Definition lookupCalls (ipStr : string) (made : list mocks.Call) : Prop :=
  let ip := Net.ParseIP ipStr in
  made = [mocks.CallGetCountry ipStr]
  \/ (ip <> []
      /\ (made = [mocks.CallGetCountry ipStr; mocks.CallGetCachedRange ip]
          \/ (exists c, c <> EmptyString
                /\ made = [mocks.CallGetCountry ipStr; mocks.CallGetCachedRange ip;
                           mocks.CallSetCountry ipStr c])
          \/ made = [mocks.CallGetCountry ipStr; mocks.CallGetCachedRange ip;
                     mocks.CallFindCountryForIP ip]
          \/ (exists c, c <> unknownCountry
                /\ made = [mocks.CallGetCountry ipStr; mocks.CallGetCachedRange ip;
                           mocks.CallFindCountryForIP ip;
                           mocks.CallSetCountry ipStr c]))).

(** A range that the table holds under the key of the model: a network as
    the parser builds it, whose text "<base>/<prefix length>" PostgreSQL
    reads back as that network (a base that is an IPv4 address in 16 bytes
    would be printed as a dotted quad), with a country code of the two
    characters of the column. *)
Definition storable (r : IPRange) : Prop :=
  canonicalNet (Network r)
  /\ (length (Net.net_IP (Network r)) = 16%nat ->
      Net.To4 (Net.net_IP (Network r)) = None)
  /\ String.length (CountryCode r) = 2%nat.

Definition hostRange : IPRange :=
  {| ID := 0;
     Network := {| Net.net_IP := [10; 1; 2; 3];
                   Net.net_Mask := [255; 255; 255; 255] |};
     CountryCode := "FR"; Version := 4 |}.

(** * Properties *)

Ltac unfold_M :=
  unfold mbind, M_bind, mret, M_ret, lift, outcome_bind, outcome_ret in *.

(** ** The range parser *)

Lemma ParseCIDR_network (s : string) ip network :
  Net.ParseCIDR s = (ip, network, None) -> exists n, network = Some n.
Proof.
  unfold Net.ParseCIDR.
  destruct (Str.cut "/" s) as [[addr mask]|]; [|discriminate].
  destruct (Net.ParseAddr addr) as [ipAddr|]; [|discriminate].
  destruct (negb _); [discriminate|].
  destruct (Net.dtoi mask) as [[n i] ok].
  destruct (_ || _); [discriminate|].
  intros [= _ <-]. eauto.
Qed.

Lemma parseCIDR_network (ip : string) (prefixLen : Z) network :
  parseCIDR ip prefixLen = (network, None) -> exists n, network = Some n.
Proof.
  unfold parseCIDR.
  destruct (Net.ParseCIDR _) as [[a n] e] eqn:E.
  intros [= -> ->]. eapply ParseCIDR_network; eauto.
Qed.

(** The [switch] of [parseIPRange] under the caller's filter: an early
    return, or a network pointer that is not nil. *)
Lemma parseIPRange_returns `{Platform} (parts : list string) :
  (5 <= length parts)%nat ->
  parts !! 2%nat = Some "ipv4" \/ parts !! 2%nat = Some "ipv6" ->
  exists r, parseIPRange parts = Return r.
Proof.
  intros Hlen Hfam.
  destruct parts as [|p0 [|p1 [|p2 [|p3 [|p4 rest]]]]]; simpl in Hlen; try lia.
  unfold parseIPRange. cbn [index lookup list_lookup]. simpl in Hfam.
  unfold_M. cbn.
  destruct Hfam as [[= ->]|[= ->]]; cbn.
  - destruct (Str.ParseInt p4) as [value [e|]]; [eauto|].
    destruct (parseCIDR p3 _) as [network [e|]] eqn:E; [eauto|].
    apply parseCIDR_network in E as [n ->]. eauto.
  - destruct (Str.Atoi p4) as [value [e|]]; [eauto|].
    destruct (parseCIDR p3 _) as [network [e|]] eqn:E; [eauto|].
    apply parseCIDR_network in E as [n ->]. eauto.
Qed.

(** C9. With "ipv4" or "ipv6" in [parts[2]], [parseIPRange] never
    dereferences a nil network pointer: each of the two cases either returns
    the error of the field or of [parseCIDR], or leaves a network that
    [net.ParseCIDR] returned without error. *)
Theorem C9_parseIPRange_no_nil_dereference `{Platform} (parts : list string) :
  parts !! 2%nat = Some "ipv4" \/ parts !! 2%nat = Some "ipv6" ->
  parseIPRange parts <> Panic NilDereference.
Proof.
  intros Hfam.
  destruct (decide (5 <= length parts)%nat) as [Hlen|Hlen].
  - destruct (parseIPRange_returns parts Hlen Hfam) as [r ->]. discriminate.
  - unfold parseIPRange, index. unfold_M.
    destruct parts as [|p0 [|p1 [|p2 [|p3 [|p4 rest]]]]]; simpl in *;
      try discriminate; try lia.
    destruct Hfam as [[= ->]|[= ->]]; cbn; discriminate.
Qed.

Lemma C9_parseIPRange_no_nil_dereference_witness :
  (sampleParts !! 2%nat = Some "ipv4" \/ sampleParts !! 2%nat = Some "ipv6")
  /\ @parseIPRange amd64 sampleParts <> Panic NilDereference.
Proof.
  split.
  - left. reflexivity.
  - apply (@C9_parseIPRange_no_nil_dereference amd64). left. reflexivity.
Defined.

(** Without the filter the default branch is taken and the dereference
    panics. *)
Lemma parseIPRange_other_family_panics `{Platform} p0 p1 p2 p3 rest :
  p2 <> "ipv4" -> p2 <> "ipv6" ->
  parseIPRange (p0 :: p1 :: p2 :: p3 :: rest) = Panic NilDereference.
Proof.
  intros H4 H6. unfold parseIPRange. cbn [index lookup list_lookup]. unfold_M.
  cbn. apply String.eqb_neq in H4, H6. rewrite H4, H6. reflexivity.
Qed.

(** ** The feed fetcher *)

Arguments parseIPRange : simpl never.

Lemma scanLine_spec `{Platform} ranges stats line :
  exists ranges' stats',
    scanLine (ranges, stats) line = Return (ranges', stats')
    /\ (ranges' = ranges \/ exists r, ranges' = ranges ++ [r])
    /\ Z.of_nat (length ranges') - (IPv4Count stats' + IPv6Count stats')
       = Z.of_nat (length ranges) - (IPv4Count stats + IPv6Count stats).
Proof.
  unfold scanLine.
  destruct (_ || _); [do 2 eexists; split; [reflexivity|split; [auto|reflexivity]]|].
  destruct (Nat.ltb _ 7) eqn:Hlen;
    [do 2 eexists; split; [reflexivity|split; [auto|reflexivity]]|].
  apply Nat.ltb_ge in Hlen.
  destruct (Str.Split "|" line) as [|p0 [|p1 [|p2 [|p3 [|p4 [|p5 [|p6 rest]]]]]]] eqn:E;
    simpl in Hlen; try lia.
  cbn [index lookup list_lookup]. unfold_M. cbn.
  destruct (String.eqb p1 "*"); cbn.
  { exists ranges, (incSkipped stats). auto. }
  destruct (negb (String.eqb p6 "allocated") && negb (String.eqb p6 "assigned")); cbn.
  { exists ranges, (incSkipped stats). auto. }
  destruct (String.eqb p2 "ipv4") eqn:E4; cbn.
  - apply String.eqb_eq in E4. subst p2.
    destruct (parseIPRange_returns (p0 :: p1 :: "ipv4" :: p3 :: p4 :: p5 :: p6 :: rest))
      as [[r err] ->]; [simpl; lia|left; reflexivity|].
    destruct err; cbn.
    + exists ranges, (incParseErrors stats). auto.
    + eexists (ranges ++ [r]), _. split; [reflexivity|]. split; [eauto|].
      rewrite length_app. simpl. destruct (Version r =? 4); simpl; lia.
  - destruct (String.eqb p2 "ipv6") eqn:E6; cbn.
    + apply String.eqb_eq in E6. subst p2.
      destruct (parseIPRange_returns (p0 :: p1 :: "ipv6" :: p3 :: p4 :: p5 :: p6 :: rest))
        as [[r err] ->]; [simpl; lia|right; reflexivity|].
      destruct err; cbn.
      * exists ranges, (incParseErrors stats). auto.
      * eexists (ranges ++ [r]), _. split; [reflexivity|]. split; [eauto|].
        rewrite length_app. simpl. destruct (Version r =? 4); simpl; lia.
    + exists ranges, (incSkipped stats). auto.
Qed.

(** The line loop runs to the end of the body whatever the lines are, and
    counts one IPv4 or IPv6 range for every range it collects. *)
Lemma scanLines_spec `{Platform} lines ranges stats :
  exists ranges' stats',
    scanLines lines (ranges, stats) = Return (ranges', stats')
    /\ Z.of_nat (length ranges') - (IPv4Count stats' + IPv6Count stats')
       = Z.of_nat (length ranges) - (IPv4Count stats + IPv6Count stats).
Proof.
  revert ranges stats. induction lines as [|line rest IH]; intros ranges stats.
  - exists ranges, stats. auto.
  - destruct (scanLine_spec ranges stats line) as (r1 & s1 & E1 & _ & Hc1).
    destruct (IH r1 s1) as (r2 & s2 & E2 & Hc2).
    exists r2, s2. split; [|lia].
    cbn [scanLines]. rewrite E1. exact E2.
Qed.

Section FetcherProperties.
Context {W : Type} `{Platform} `{Transport W}.

(** What [fetchWithTimeout] returns on each outcome of the request. *)
Lemma fetchWithTimeout_outcome (url : string) (w w1 : W) (o : HTTPOutcome) :
  Get url w = (Return o, w1) ->
  exists ranges stats err,
    fetchWithTimeout url w = (Return (ranges, stats, err), w1)
    /\ match o with
       | RequestError e => ranges = [] /\ err = Some (CreatingRequest e)
       | DoError e => ranges = [] /\ err = Some (FetchingRIRData e)
       | Response status lines scanErr =>
           if status =? StatusOK then
             match scanErr with
             | Some e => ranges = [] /\ err = Some (ReadingRIRData e)
             | None =>
                 err = None
                 /\ scanLines lines ([], zeroStats) = Return (ranges, stats)
             end
           else ranges = [] /\ err = Some (UnexpectedStatus status)
       end.
Proof.
  intros HG. unfold fetchWithTimeout. unfold_M. rewrite HG.
  destruct o as [e|e|status lines scanErr]; [eauto 8|eauto 8|].
  destruct (status =? StatusOK); cbn; [|eauto 8].
  destruct (scanLines_spec lines [] zeroStats) as (r & s & E & _).
  rewrite E. destruct scanErr; eauto 8.
Qed.

(** C8. Whatever an attempt returns, it returns after one request, and
    what it returns is decided by how the request ended.  A request that
    could not be built or sent, an answer other than 200, and a body whose
    scan ended in an error (a line beyond the buffer, a broken stream) give
    an error and no ranges, whatever the line loop had collected.  An answer
    200 whose body was scanned to its end gives no error, and the ranges and
    statistics that the line loop built from the whole body, one IPv4 or
    IPv6 count per range. *)
Theorem C8_fetchWithTimeout_all_or_nothing
        (url : string) (w w' : W) ranges stats err :
  fetchWithTimeout url w = (Return (ranges, stats, err), w') ->
  exists o,
    Get url w = (Return o, w')
    /\ match o with
       | RequestError _ | DoError _ => ranges = [] /\ err <> None
       | Response status lines scanErr =>
           if (status =? StatusOK) && isNil scanErr then
             err = None
             /\ scanLines lines ([], zeroStats) = Return (ranges, stats)
             /\ Z.of_nat (length ranges) = IPv4Count stats + IPv6Count stats
           else ranges = [] /\ err <> None
       end.
Proof.
  unfold fetchWithTimeout. unfold_M.
  destruct (Get url w) as [[o|p] w1] eqn:HG; [|discriminate].
  destruct o as [e|e|status lines scanErr].
  - intros [= <- <- <- <-]. eexists. split; [reflexivity|]. split; [reflexivity|discriminate].
  - intros [= <- <- <- <-]. eexists. split; [reflexivity|]. split; [reflexivity|discriminate].
  - destruct (status =? StatusOK) eqn:Es; cbn [negb].
    + destruct (scanLines_spec lines [] zeroStats) as (r & s & E & Hc).
      rewrite E.
      destruct scanErr; intros [= <- <- <- <-]; eexists;
        (split; [reflexivity|]); cbv beta iota; rewrite Es; cbn [isNil andb].
      * split; [reflexivity|discriminate].
      * split; [reflexivity|]. split; [exact E|]. simpl in Hc. lia.
    + intros [= <- <- <- <-]. eexists. split; [reflexivity|].
      cbv beta iota. rewrite Es. cbn [andb]. split; [reflexivity|discriminate].
Qed.

(** No ranges come with an error. *)
Lemma fetchWithTimeout_error_no_ranges (url : string) (w w' : W) ranges stats e :
  fetchWithTimeout url w = (Return (ranges, stats, Some e), w') -> ranges = [].
Proof.
  intros E. apply C8_fetchWithTimeout_all_or_nothing in E as (o & _ & Ho).
  destruct o as [?|?|status lines scanErr]; try (destruct Ho as [-> _]; reflexivity).
  destruct (_ && _); destruct Ho as [Ho _]; [discriminate|exact Ho].
Qed.

End FetcherProperties.

(** The two scenarios of the parser: 192.168.0.0/16 for US, family 4, and
    2001:db8::/32 for CA, family 6. *)
Example scanLines_validBody :
  @scanLines amd64 validBody ([], zeroStats)
  = Return ([usRange; caRange],
            {| IPv4Count := 1; IPv6Count := 1; SkippedCount := 0;
               ParseErrors := 0 |}).
Proof. vm_compute. reflexivity. Qed.

Lemma C8_fetchWithTimeout_all_or_nothing_witness :
  @fetchWithTimeout World amd64 _ "http://rir.test" validWorld
  = (Return ([usRange; caRange], validStats, None),
     log (EvGet "http://rir.test") emptyWorld)
  /\ exists o,
       Get "http://rir.test" validWorld
       = (Return o, log (EvGet "http://rir.test") emptyWorld)
       /\ match o with
          | RequestError _ | DoError _ =>
              [usRange; caRange] = [] /\ (None : option error) <> None
          | Response status lines scanErr =>
              if (status =? StatusOK) && isNil scanErr then
                (None : option error) = None
                /\ @scanLines amd64 lines ([], zeroStats)
                   = Return ([usRange; caRange], validStats)
                /\ Z.of_nat (length [usRange; caRange])
                   = IPv4Count validStats + IPv6Count validStats
              else [usRange; caRange] = [] /\ (None : option error) <> None
          end.
Proof.
  assert (E : @fetchWithTimeout World amd64 _ "http://rir.test" validWorld
              = (Return ([usRange; caRange], validStats, None),
                 log (EvGet "http://rir.test") emptyWorld))
    by (vm_compute; reflexivity).
  split; [exact E|].
  exact (@C8_fetchWithTimeout_all_or_nothing World amd64 _ _ _ _ _ _ _ E).
Defined.

(** In the scripted world a request always comes back, and leaves one
    [EvGet] in the trace. *)
Lemma World_Get (url : string) (w : World) :
  exists o w1, Get url w = (Return o, w1)
               /\ trace w1 = trace w ++ [EvGet url]
               /\ pg_ip_ranges w1 = pg_ip_ranges w
               /\ redis_kv w1 = redis_kv w
               /\ redis_ipranges w1 = redis_ipranges w
               /\ faults w1 = faults w.
Proof.
  cbn. destruct (http w); eauto 10.
Qed.

Lemma World_fetchWithTimeout `{Platform} (url : string) (w : World) :
  exists ranges stats err w1,
    fetchWithTimeout url w = (Return (ranges, stats, err), w1)
    /\ trace w1 = trace w ++ [EvGet url]
    /\ pg_ip_ranges w1 = pg_ip_ranges w
    /\ redis_kv w1 = redis_kv w
    /\ redis_ipranges w1 = redis_ipranges w
    /\ faults w1 = faults w.
Proof.
  destruct (World_Get url w) as (o & w1 & HG & Hrest).
  destruct (fetchWithTimeout_outcome url w w1 o HG) as (r & s & e & E & _).
  eauto 10.
Qed.


(** The "server error" case of [TestRIRService_FetchIPRanges]: three
    answers 500, three requests, the error of the last one wrapped. *)
Example FetchIPRanges_server_error :
  let w := answering [Response 500 [] None; Response 500 [] None;
                      Response 500 [] None] emptyWorld in
  (@FetchIPRanges World amd64 _ "http://rir.test" w).1
  = Return ([], zeroStats,
            Some (FailedAfterAttempts 3 (Some (UnexpectedStatus 500))))
  /\ trace (@FetchIPRanges World amd64 _ "http://rir.test" w).2
     = retrySchedule "http://rir.test".
Proof. vm_compute. split; reflexivity. Qed.

(** ** The resolver *)

Section ResolverProperties.
Context {W : Type} {repo : Repository W}.

(** Whatever [LookupIP] returns, it returns after the tier-1 read, and
    with an error only when that read was not a hit. *)
Lemma LookupIP_error_after_miss (cache : Cache W) ipStr w resp e w' :
  LookupIP ipStr w = (Return (resp, Some e), w') ->
  exists c err w1,
    GetCountry ipStr w = (Return (c, err), w1)
    /\ isNil err && nonEmpty c = false.
Proof.
  unfold LookupIP. unfold_M.
  destruct (GetCountry ipStr w) as [[[c err]|p] w1]; [|discriminate].
  destruct (isNil err && nonEmpty c) eqn:Hit; [discriminate|].
  eauto.
Qed.

(** The errors that reach the caller. *)
Lemma LookupIP_errors (cache : Cache W) ipStr w resp e w' :
  LookupIP ipStr w = (Return (resp, Some e), w') ->
  resp = None
  /\ ((Net.ParseIP ipStr = [] /\ e = InvalidIPAddress ipStr)
      \/ exists w1 c,
           FindCountryForIP (Net.ParseIP ipStr) w1 = (Return (c, Some e), w')).
Proof.
  unfold LookupIP. unfold_M.
  destruct (GetCountry ipStr w) as [[[c1 err1]|p] w1]; [|discriminate].
  destruct (isNil err1 && nonEmpty c1); [discriminate|].
  destruct (Nat.eqb (length (Net.ParseIP ipStr)) 0) eqn:Hnil.
  { intros [= <- <- <-]. split; [reflexivity|]. left.
    apply Nat.eqb_eq in Hnil. destruct (Net.ParseIP ipStr); [auto|discriminate]. }
  destruct (GetCachedRange (Net.ParseIP ipStr) w1) as [[[c2 err2]|p] w2];
    [|discriminate].
  destruct (isNil err2 && nonEmpty c2).
  { destruct (SetCountry ipStr c2 w2) as [[?|?] ?]; discriminate. }
  destruct (FindCountryForIP (Net.ParseIP ipStr) w2) as [[[c3 err3]|p] w3] eqn:EF;
    [|discriminate].
  destruct err3 as [e3|].
  { intros [= <- <- <-]. split; [reflexivity|]. right. eauto. }
  destruct (negb (String.eqb c3 unknownCountry)).
  - destruct (SetCountry ipStr c3 w3) as [[?|?] ?]; discriminate.
  - discriminate.
Qed.


(** The store path keeps the unknown country out of tier 1: the world
    after the lookup is the world after the store's answer. *)
Lemma LookupIP_store_unknown_not_cached (cache : Cache W) ipStr w c1 e1 w1 c2 e2 w2 w3 :
  GetCountry ipStr w = (Return (c1, e1), w1) ->
  isNil e1 && nonEmpty c1 = false ->
  Net.ParseIP ipStr <> [] ->
  GetCachedRange (Net.ParseIP ipStr) w1 = (Return (c2, e2), w2) ->
  isNil e2 && nonEmpty c2 = false ->
  FindCountryForIP (Net.ParseIP ipStr) w2 = (Return (unknownCountry, None), w3) ->
  LookupIP ipStr w
  = (Return (Some {| Resp_IP := ipStr; Resp_CountryCode := unknownCountry |},
             None), w3).
Proof.
  intros HG Hm1 Hip HR Hm2 HF. unfold LookupIP. unfold_M.
  rewrite HG, Hm1.
  destruct (Net.ParseIP ipStr) as [|b ip] eqn:E; [congruence|].
  cbn [length Nat.eqb]. rewrite HR, Hm2, HF. reflexivity.
Qed.

(** The tier-2 path writes whatever country the range cache returned. *)
Lemma LookupIP_tier2_hit_is_cached (cache : Cache W) ipStr w c1 e1 w1 c2 w2 r w3 :
  GetCountry ipStr w = (Return (c1, e1), w1) ->
  isNil e1 && nonEmpty c1 = false ->
  Net.ParseIP ipStr <> [] ->
  GetCachedRange (Net.ParseIP ipStr) w1 = (Return (c2, None), w2) ->
  c2 <> EmptyString ->
  SetCountry ipStr c2 w2 = (Return r, w3) ->
  LookupIP ipStr w
  = (Return (Some {| Resp_IP := ipStr; Resp_CountryCode := c2 |}, None), w3).
Proof.
  intros HG Hm1 Hip HR Hc HS. unfold LookupIP. unfold_M.
  rewrite HG, Hm1.
  destruct (Net.ParseIP ipStr) as [|b ip] eqn:E; [congruence|].
  cbn [length Nat.eqb]. rewrite HR.
  apply String.eqb_neq in Hc. unfold nonEmpty. rewrite Hc. cbn [isNil andb negb].
  rewrite HS. reflexivity.
Qed.

End ResolverProperties.


(** Both cache reads fail and the lookup still answers from the store. *)
Example LookupIP_cache_down :
  (LookupIP "192.168.1.1" cacheDownWorld).1
  = Return (Some {| Resp_IP := "192.168.1.1"; Resp_CountryCode := "US" |}, None).
Proof. vm_compute. reflexivity. Qed.

(** C10. There is a lookup of a string that is no IP address which still
    answers with a country: tier 1 is read by the literal string before the
    string is parsed.  And a lookup that ends in an error, the
    invalid-address error among them, has read tier 1 first and did not hit
    there. *)
Theorem C10_tier1_read_before_parse :
  (exists (w : World) (ipStr countryCode : string),
      Net.ParseIP ipStr = []
      /\ (LookupIP ipStr w).1
         = Return (Some {| Resp_IP := ipStr; Resp_CountryCode := countryCode |},
                   None))
  /\ (forall (w : World) ipStr resp w',
         LookupIP ipStr w = (Return (resp, Some (InvalidIPAddress ipStr)), w') ->
         exists c err w1,
           GetCountry ipStr w = (Return (c, err), w1)
           /\ isNil err && nonEmpty c = false).
Proof.
  split.
  - exists staleKeyWorld, "not-an-ip", "US". split; vm_compute; reflexivity.
  - intros w ipStr resp w' E. eapply LookupIP_error_after_miss; eauto.
Qed.

Lemma C10_tier1_read_before_parse_witness :
  LookupIP "not-an-ip" emptyWorld
  = (Return (None, Some (InvalidIPAddress "not-an-ip")), emptyWorld)
  /\ exists c err w1,
       GetCountry "not-an-ip" emptyWorld = (Return (c, err), w1)
       /\ isNil err && nonEmpty c = false.
Proof.
  split; [reflexivity|].
  apply (proj2 C10_tier1_read_before_parse emptyWorld "not-an-ip" None emptyWorld).
  reflexivity.
Defined.

(** C4. The lookup that the claim excludes: tier 1 misses, the range cache
    answers with the unknown country code, and [LookupIP] writes it to
    tier 1.  The mocks are those of [TestIPService_LookupIP]. *)
Theorem C4_tier2_hit_caches_unknown :
  mocks.LookupIP (mocks.testRepo EmptyString None)
                 (mocks.testCache EmptyString None unknownCountry None)
                 "8.8.8.8" []
  = (Return (Some {| Resp_IP := "8.8.8.8"; Resp_CountryCode := unknownCountry |},
             None),
     [mocks.CallGetCountry "8.8.8.8"; mocks.CallGetCachedRange ip8888;
      mocks.CallSetCountry "8.8.8.8" unknownCountry]).
Proof. vm_compute. reflexivity. Qed.

(** The same over Redis: the range cache rebuilt from [zzRange] answers
    "ZZ" for 8.8.8.8, and the lookup leaves "ZZ" under "ip:8.8.8.8". *)
Example LookupIP_redis_caches_unknown :
  let w := (Redis.CacheIPRanges [zzRange] emptyWorld).2 in
  (LookupIP "8.8.8.8" w).1
  = Return (Some {| Resp_IP := "8.8.8.8"; Resp_CountryCode := "ZZ" |}, None)
  /\ redis_kv (LookupIP "8.8.8.8" w).2 !! "ip:8.8.8.8" = Some "ZZ".
Proof. vm_compute. split; reflexivity. Qed.

(** The scenario of the specification: 8.8.8.8 with both tiers empty and no
    matching range resolves to the unknown country and leaves tier 1 as it
    was. *)
Example LookupIP_unknown_not_cached :
  LookupIP "8.8.8.8" emptyWorld
  = (Return (Some {| Resp_IP := "8.8.8.8"; Resp_CountryCode := "ZZ" |}, None),
     emptyWorld).
Proof. vm_compute. reflexivity. Qed.

(** ** The refresh coordinator *)

Lemma sameStores_refl (w : World) : sameStores w w.
Proof. repeat split. Qed.

Lemma sameStores_trans (w w1 w2 : World) :
  sameStores w w1 -> sameStores w1 w2 -> sameStores w w2.
Proof.
  unfold sameStores. intros (? & ? & ? & ?) (? & ? & ? & ?).
  repeat split; congruence.
Qed.

Lemma sameStores_log (e : Event) (w : World) : sameStores w (log e w).
Proof. repeat split. Qed.

Lemma World_fetchWithTimeout_stores `{Platform} (url : string) (w : World) :
  exists ranges stats err w1,
    fetchWithTimeout url w = (Return (ranges, stats, err), w1)
    /\ sameStores w w1.
Proof.
  destruct (World_fetchWithTimeout url w)
    as (r & s & e & w1 & E & _ & Hpg & Hkv & Hz & Hf).
  exists r, s, e, w1. split; [exact E|]. repeat split; assumption.
Qed.

Lemma World_retry_stores `{Platform} (url : string) attempts lastErr (w : World) :
  exists ranges stats err w1,
    retry url attempts lastErr w = (Return (ranges, stats, err), w1)
    /\ sameStores w w1.
Proof.
  revert lastErr w. induction attempts as [|attempt rest IH]; intros lastErr w.
  - do 4 eexists. split; [reflexivity|apply sameStores_refl].
  - cbn [retry].
    assert (HS : exists w0,
               (if 0 <? attempt then Sleep (attempt * 5 * Second) else mret tt) w
               = (Return tt, w0) /\ sameStores w w0).
    { destruct (0 <? attempt); eexists; (split; [reflexivity|]);
        [apply sameStores_log|apply sameStores_refl]. }
    unfold_M. destruct HS as (w0 & -> & S0).
    destruct (World_fetchWithTimeout_stores url w0) as (r & s & e & w1 & -> & S1).
    destruct e as [e|].
    + destruct (IH (Some e) w1) as (r2 & s2 & e2 & w2 & -> & S2).
      do 4 eexists. split; [reflexivity|].
      eauto using sameStores_trans.
    + do 4 eexists. split; [reflexivity|]. eauto using sameStores_trans.
Qed.

Lemma World_FetchIPRanges_stores `{Platform} (url : string) (w : World) :
  exists ranges stats err w1,
    FetchIPRanges url w = (Return (ranges, stats, err), w1)
    /\ sameStores w w1.
Proof. apply World_retry_stores. Qed.

(** The loop over the sources touches neither store, returns what it was
    given when every source fails, and records one error per failed
    source. *)
Lemma World_fetchAll `{Platform} rirs allRanges errors totals (w : World) :
  exists allRanges' errors' totals' w1,
    fetchAll rirs allRanges errors totals w
    = (Return (allRanges', errors', totals'), w1)
    /\ sameStores w w1
    /\ (length errors' <= length errors + length rirs)%nat
    /\ (length errors' = (length errors + length rirs)%nat ->
        allRanges' = allRanges).
Proof.
  revert allRanges errors totals w.
  induction rirs as [|rir rest IH]; intros allRanges errors totals w.
  - do 4 eexists. split; [reflexivity|]. split; [apply sameStores_refl|].
    simpl. split; [lia|auto].
  - cbn [fetchAll]. unfold_M.
    destruct (World_FetchIPRanges_stores (URL rir) w) as (r & s & e & w1 & -> & S1).
    destruct e as [e|].
    + destruct (IH allRanges (errors ++ [NamedError (Name rir) e]) totals w1)
        as (a2 & e2 & t2 & w2 & -> & S2 & Hle & Heq).
      do 4 eexists. split; [reflexivity|].
      split; [eauto using sameStores_trans|].
      rewrite length_app in Hle, Heq. simpl in *. split; [lia|].
      intros Hl. apply Heq. lia.
    + destruct (IH (allRanges ++ r) errors (addStats totals s r) w1)
        as (a2 & e2 & t2 & w2 & -> & S2 & Hle & Heq).
      do 4 eexists. split; [reflexivity|].
      split; [eauto using sameStores_trans|].
      simpl. split; [lia|]. intros Hl. lia.
Qed.

(** *** The stores under the script of failures *)

Lemma call_spec (w : World) : call w = (Return (nextFault w), afterCalls 1 w).
Proof. destruct w as [pg kv z [|f fs] h t]; reflexivity. Qed.

Lemma afterCalls_0 (w : World) : afterCalls 0 w = w.
Proof. destruct w; reflexivity. Qed.

Lemma afterCalls_afterCalls (n m : nat) (w : World) :
  afterCalls n (afterCalls m w) = afterCalls (m + n) w.
Proof.
  unfold afterCalls, failing. cbn. rewrite drop_drop. reflexivity.
Qed.

Lemma callsSucceed_S (n : nat) (w : World) :
  callsSucceed (S n) w -> nextFault w = None /\ callsSucceed n (afterCalls 1 w).
Proof.
  unfold callsSucceed, nextFault, afterCalls, failing. cbn.
  destruct (faults w) as [|f fs]; cbn.
  - intros _. split; [reflexivity|]. rewrite take_nil. constructor.
  - intros Hall. inversion Hall; subst. rewrite drop_0. auto.
Qed.

Lemma callsSucceed_le (n m : nat) (w : World) :
  (n <= m)%nat -> callsSucceed m w -> callsSucceed n w.
Proof.
  unfold callsSucceed. intros Hle Hall.
  replace (take n (faults w)) with (take n (take m (faults w)))
    by (rewrite take_take; f_equal; lia).
  apply Forall_take. exact Hall.
Qed.

Lemma callsSucceed_afterCalls (n m : nat) (w : World) :
  callsSucceed (m + n) w -> callsSucceed n (afterCalls m w).
Proof.
  revert w. induction m as [|m IH]; intros w Hall.
  - rewrite afterCalls_0. exact Hall.
  - apply callsSucceed_S in Hall as [_ Hall]. apply IH in Hall.
    rewrite afterCalls_afterCalls in Hall. exact Hall.
Qed.

Lemma nextFault_afterCalls (n : nat) (w : World) :
  nextFault (afterCalls n w)
  = match faults w !! n with Some f => f | None => None end.
Proof.
  unfold nextFault, afterCalls, failing. cbn.
  destruct (faults w !! n) as [f|] eqn:E.
  - rewrite (drop_S _ _ _ E). reflexivity.
  - apply lookup_ge_None in E. rewrite drop_ge by lia. reflexivity.
Qed.

(** The insert loop with no failing call: every range is upserted. *)
Lemma execAll_ok ranges tx (w : World) :
  callsSucceed (length ranges) w ->
  Postgres.execAll ranges tx w
  = (Return (foldl Postgres.upsert tx ranges, None),
     afterCalls (length ranges) w).
Proof.
  revert tx w. induction ranges as [|r rest IH]; intros tx w Hall.
  - cbn. rewrite afterCalls_0. reflexivity.
  - cbn [Postgres.execAll length]. unfold_M. rewrite call_spec.
    apply callsSucceed_S in Hall as [-> Hall].
    rewrite (IH _ _ Hall). rewrite afterCalls_afterCalls. reflexivity.
Qed.

(** The insert loop in general: it returns, only the script moved, and
    without an error every range has been upserted. *)
Lemma execAll_any ranges tx (w : World) :
  exists tx' err n,
    Postgres.execAll ranges tx w = (Return (tx', err), afterCalls n w)
    /\ (err = None -> tx' = foldl Postgres.upsert tx ranges).
Proof.
  revert tx w. induction ranges as [|r rest IH]; intros tx w.
  - exists tx, None, 0%nat. cbn. rewrite afterCalls_0. auto.
  - cbn [Postgres.execAll]. unfold_M. rewrite call_spec.
    destruct (nextFault w) as [e|].
    + exists tx, (Some e), 1%nat. split; [reflexivity|discriminate].
    + destruct (IH (Postgres.upsert tx r) (afterCalls 1 w))
        as (tx' & err & n & -> & Htx).
      exists tx', err, (1 + n)%nat. rewrite afterCalls_afterCalls. auto.
Qed.

(** [SaveIPRanges] is all or nothing: with an error the table is as it
    was, without one every range has been upserted. *)
Lemma SaveIPRanges_any ranges (w : World) :
  exists err n,
    Postgres.SaveIPRanges ranges w
    = (Return err,
       match err with
       | Some _ => afterCalls n w
       | None => with_pg (afterCalls n w)
                         (foldl Postgres.upsert (pg_ip_ranges w) ranges)
       end).
Proof.
  unfold Postgres.SaveIPRanges. unfold_M. rewrite call_spec.
  destruct (nextFault w) as [e|]; [exists (Some e), 1%nat; reflexivity|].
  rewrite call_spec.
  destruct (nextFault (afterCalls 1 w)) as [e|].
  { exists (Some e), 2%nat. rewrite afterCalls_afterCalls. reflexivity. }
  rewrite afterCalls_afterCalls. cbn [gets].
  destruct (execAll_any ranges (pg_ip_ranges (afterCalls (1 + 1) w))
                        (afterCalls (1 + 1) w)) as (tx' & err & n & E & Htx).
  rewrite E. rewrite afterCalls_afterCalls.
  destruct err as [e|]; [exists (Some e), (1 + 1 + n)%nat; reflexivity|].
  rewrite call_spec. rewrite afterCalls_afterCalls.
  destruct (nextFault _) as [e|].
  { exists (Some e), (1 + 1 + n + 1)%nat. reflexivity. }
  exists None, (1 + 1 + n + 1)%nat. cbn [modify].
  rewrite (Htx eq_refl). reflexivity.
Qed.

Lemma SaveIPRanges_ok ranges (w : World) :
  callsSucceed (3 + length ranges) w ->
  Postgres.SaveIPRanges ranges w
  = (Return None,
     with_pg (afterCalls (3 + length ranges) w)
             (foldl Postgres.upsert (pg_ip_ranges w) ranges)).
Proof.
  intros Hall. unfold Postgres.SaveIPRanges. unfold_M. rewrite call_spec.
  apply callsSucceed_S in Hall as [-> Hall].
  rewrite call_spec. apply callsSucceed_S in Hall as [-> Hall].
  rewrite afterCalls_afterCalls in *. cbn [gets].
  assert (Hex : callsSucceed (length ranges) (afterCalls (1 + 1) w)).
  { eapply callsSucceed_le; [|exact Hall]. lia. }
  rewrite (execAll_ok _ _ _ Hex). rewrite afterCalls_afterCalls.
  rewrite call_spec.
  replace (S (length ranges)) with (length ranges + 1)%nat in Hall by lia.
  apply callsSucceed_afterCalls in Hall. rewrite afterCalls_afterCalls in Hall.
  apply callsSucceed_S in Hall as [-> _].
  rewrite afterCalls_afterCalls. cbn [modify].
  replace (1 + 1 + length ranges + 1)%nat with (3 + length ranges)%nat by lia.
  reflexivity.
Qed.

Lemma ClearIPRanges_spec (w : World) :
  Postgres.ClearIPRanges w
  = (Return (nextFault w),
     match nextFault w with
     | Some _ => afterCalls 1 w
     | None => with_pg (afterCalls 1 w) ∅
     end).
Proof.
  unfold Postgres.ClearIPRanges. unfold_M. rewrite call_spec.
  destruct (nextFault w); reflexivity.
Qed.

Lemma CacheIPRanges_spec ranges (w : World) :
  Redis.CacheIPRanges ranges w
  = (Return (nextFault w),
     match nextFault w with
     | Some _ => afterCalls 1 w
     | None => with_ipranges (afterCalls 1 w) (Redis.zaddAll ranges ∅)
     end).
Proof.
  unfold Redis.CacheIPRanges. unfold_M. rewrite call_spec.
  destruct (nextFault w); reflexivity.
Qed.

(** *** The refresh cycle *)

(** The claim of C1 fails on [insertFailsWorld] under the default
    configuration: the first source is fetched, the table is truncated, the
    first insert fails, the transaction is rolled back, and the cycle ends
    in an error with an empty table where 10.0.0.0/8 was. *)
Lemma C1_failed_insert_empties_store :
  (@FetchIPRanges World amd64 _ (URL arin) insertFailsWorld).1
  = Return ([usRange; caRange], validStats, None)
  /\ (@UpdateIPRanges World amd64 _ _ _ defaultConfig insertFailsWorld).1
     = Return (Some insertFailed)
  /\ pg_ip_ranges insertFailsWorld !! Postgres.rowKey deRange = Some ("DE", 4)
  /\ pg_ip_ranges (@UpdateIPRanges World amd64 _ _ _ defaultConfig insertFailsWorld).2
     = ∅.
Proof. vm_compute. repeat split; reflexivity. Qed.

(** C1, amended. A refresh cycle that ends in an error leaves both cache
    tiers as they were, and leaves the Range Store unchanged when no range
    was aggregated or when the clear failed, and empty when the clear
    succeeded and the bulk insert failed: the insert is all or nothing, so
    the store is never partially populated, but the clear is not undone. *)
Theorem C1_failed_refresh_store `{Platform} (config : Config) (w w1 w' : World)
        allRanges errors totals (e : error) :
  fetchAll (RIRs config) [] [] zeroTotals w
  = (Return (allRanges, errors, totals), w1) ->
  UpdateIPRanges config w = (Return (Some e), w') ->
  redis_kv w' = redis_kv w
  /\ redis_ipranges w' = redis_ipranges w
  /\ pg_ip_ranges w'
     = match allRanges, nextFault w with
       | [], _ => pg_ip_ranges w
       | _ :: _, Some _ => pg_ip_ranges w
       | _ :: _, None => ∅
       end.
Proof.
  intros HF. unfold UpdateIPRanges. unfold_M. rewrite HF.
  destruct (World_fetchAll (RIRs config) [] [] zeroTotals w)
    as (a & er & t & w1' & HF' & (Hpg & Hkv & Hz & Hfl) & _).
  rewrite HF in HF'. injection HF' as <- <- <- <-.
  assert (Hnf : nextFault w1 = nextFault w) by (unfold nextFault; rewrite Hfl; reflexivity).
  destruct allRanges as [|r rest]; cbn [length Nat.eqb].
  { intros [= <- <-]. auto. }
  cbn [ClearIPRanges Postgres_Repository]. rewrite ClearIPRanges_spec.
  rewrite Hnf. destruct (nextFault w) as [ce|].
  { intros [= <- <-]. cbn. auto. }
  cbn [SaveIPRanges Postgres_Repository].
  destruct (SaveIPRanges_any (r :: rest) (with_pg (afterCalls 1 w1) ∅))
    as (err & n & ->).
  destruct err as [se|].
  { intros [= <- <-]. cbn. auto. }
  cbn [CacheIPRanges Redis_Cache]. rewrite CacheIPRanges_spec.
  discriminate.
Qed.

Lemma C1_failed_refresh_store_witness :
  @fetchAll World amd64 _ (RIRs defaultConfig) [] [] zeroTotals insertFailsWorld
  = (Return ([usRange; caRange], otherSourcesDown,
             addStats zeroTotals validStats [usRange; caRange]),
     (@fetchAll World amd64 _ (RIRs defaultConfig) [] [] zeroTotals insertFailsWorld).2)
  /\ @UpdateIPRanges World amd64 _ _ _ defaultConfig insertFailsWorld
     = (Return (Some insertFailed),
        (@UpdateIPRanges World amd64 _ _ _ defaultConfig insertFailsWorld).2)
  /\ redis_kv (@UpdateIPRanges World amd64 _ _ _ defaultConfig insertFailsWorld).2
     = redis_kv insertFailsWorld
  /\ redis_ipranges (@UpdateIPRanges World amd64 _ _ _ defaultConfig insertFailsWorld).2
     = redis_ipranges insertFailsWorld
  /\ pg_ip_ranges (@UpdateIPRanges World amd64 _ _ _ defaultConfig insertFailsWorld).2
     = ∅.
Proof.
  assert (HF : @fetchAll World amd64 _ (RIRs defaultConfig) [] [] zeroTotals
                 insertFailsWorld
               = (Return ([usRange; caRange], otherSourcesDown,
                          addStats zeroTotals validStats [usRange; caRange]),
                  (@fetchAll World amd64 _ (RIRs defaultConfig) [] [] zeroTotals
                     insertFailsWorld).2))
    by (vm_compute; reflexivity).
  assert (HU : @UpdateIPRanges World amd64 _ _ _ defaultConfig insertFailsWorld
               = (Return (Some insertFailed),
                  (@UpdateIPRanges World amd64 _ _ _ defaultConfig insertFailsWorld).2))
    by (vm_compute; reflexivity).
  split; [exact HF|]. split; [exact HU|].
  exact (@C1_failed_refresh_store amd64 defaultConfig insertFailsWorld _ _ _ _ _ _ HF HU).
Defined.




(** ** The prefix length of an IPv4 record *)

Lemma parseIPv4_loop_chars s first prevDot fields val digLen a :
  Net.parseIPv4_loop s first prevDot fields val digLen = Some a ->
  v4chars s = true.
Proof.
  revert first prevDot fields val digLen.
  induction s as [|c s IH]; intros first prevDot fields val digLen; [reflexivity|].
  cbn [Net.parseIPv4_loop v4chars]. unfold v4char.
  destruct (Str.is_digit c); cbn.
  - destruct (_ && _); [discriminate|]. destruct (255 <? _); [discriminate|].
    apply IH.
  - destruct (Ascii.eqb c "."); [|discriminate]. cbn.
    destruct (_ || _); [discriminate|]. destruct (Nat.eqb _ 3); [discriminate|].
    apply IH.
Qed.

Lemma parseIPv4_loop_dot s first prevDot fields val digLen a :
  Net.parseIPv4_loop s first prevDot fields val digLen = Some a ->
  (length fields < 3)%nat ->
  hasDot s = true.
Proof.
  revert first prevDot fields val digLen.
  induction s as [|c s IH]; intros first prevDot fields val digLen.
  - cbn [Net.parseIPv4_loop]. intros E Hl. apply Nat.ltb_lt in Hl.
    rewrite Hl in E. discriminate.
  - cbn [Net.parseIPv4_loop hasDot].
    destruct (Str.is_digit c) eqn:Hd.
    + destruct (_ && _); [discriminate|]. destruct (255 <? _); [discriminate|].
      intros E Hl. rewrite (IH _ _ _ _ _ E Hl). apply orb_true_r.
    + destruct (Ascii.eqb c "."); [reflexivity|discriminate].
Qed.

Lemma parseIPv4_loop_length s first prevDot fields val digLen a :
  Net.parseIPv4_loop s first prevDot fields val digLen = Some a ->
  (length fields <= 3)%nat ->
  length a = 4%nat.
Proof.
  revert first prevDot fields val digLen.
  induction s as [|c s IH]; intros first prevDot fields val digLen.
  - cbn [Net.parseIPv4_loop]. destruct (Nat.ltb _ 3) eqn:Hl; [discriminate|].
    apply Nat.ltb_ge in Hl. intros [= <-] Hle. rewrite length_app. simpl. lia.
  - cbn [Net.parseIPv4_loop].
    destruct (Str.is_digit c).
    + destruct (_ && _); [discriminate|]. destruct (255 <? _); [discriminate|].
      apply IH.
    + destruct (Ascii.eqb c "."); [|discriminate].
      destruct (_ || _); [discriminate|].
      destruct (Nat.eqb _ 3) eqn:H3; [discriminate|].
      apply Nat.eqb_neq in H3. intros E Hle. eapply IH; [exact E|].
      rewrite length_app. simpl. lia.
Qed.

Lemma v4char_not_special c :
  v4char c = true ->
  Ascii.eqb c "/" = false
  /\ (Ascii.eqb c "." = false -> Ascii.eqb c ":" = false /\ Ascii.eqb c "%" = false).
Proof.
  destruct c as [[] [] [] [] [] [] [] []]; vm_compute; intuition discriminate.
Qed.

Lemma cut_v4chars s d :
  v4chars s = true -> Str.cut "/" (s +:+ String "/" d) = Some (s, d).
Proof.
  induction s as [|c s IH]; [reflexivity|].
  cbn [v4chars]. intros [Hc Hs]%andb_true_iff.
  change (String c s +:+ String "/" d) with (String c (s +:+ String "/" d)).
  cbn [Str.cut].
  destruct (v4char_not_special c Hc) as [-> _]. rewrite (IH Hs). reflexivity.
Qed.

Lemma ParseAddr_scan_v4 whole s :
  v4chars s = true -> hasDot s = true ->
  Net.ParseAddr_scan whole s
  = match Net.parseIPv4 whole with Some b => Some (Net.Addr4 b) | None => None end.
Proof.
  induction s as [|c s IH]; [discriminate|].
  cbn [v4chars hasDot Net.ParseAddr_scan]. intros [Hc Hs]%andb_true_iff.
  destruct (Ascii.eqb c ".") eqn:Hdot; [reflexivity|].
  destruct (v4char_not_special c Hc) as [_ Hsp].
  destruct (Hsp Hdot) as [-> ->]. cbn [orb]. intros Hd. apply IH; assumption.
Qed.

(** A dotted quad is read by [ParseAddr] as the IPv4 address that
    [parseIPv4] gives. *)
Lemma ParseAddr_v4 s a :
  Net.parseIPv4 s = Some a -> Net.ParseAddr s = Some (Net.Addr4 a).
Proof.
  intros E. unfold Net.ParseAddr.
  rewrite ParseAddr_scan_v4.
  - rewrite E. reflexivity.
  - eapply parseIPv4_loop_chars. exact E.
  - eapply parseIPv4_loop_dot; [exact E|]. simpl. lia.
Qed.

Lemma cidr_bytes_length l n : length (Net.cidr_bytes l n) = l.
Proof.
  revert n. induction l as [|l IH]; intros n; [reflexivity|].
  cbn [Net.cidr_bytes]. destruct (8 <=? n); simpl; rewrite IH; reflexivity.
Qed.

Lemma CIDRMask_32_length n :
  0 <= n <= 32 -> length (Net.CIDRMask n 32) = 4%nat.
Proof.
  intros Hn. unfold Net.CIDRMask. cbn [Z.eqb negb andb].
  destruct (n <? 0) eqn:E1; [lia|]. destruct (32 <? n) eqn:E2; [lia|].
  cbn [orb]. apply cidr_bytes_length.
Qed.

Lemma Mask_v4 a m :
  length a = 4%nat -> length m = 4%nat ->
  Net.Mask (Net.v4InV6Prefix ++ a) m = Net.and_bytes a m.
Proof.
  intros Ha Hm.
  destruct a as [|a0 [|a1 [|a2 [|a3 [|]]]]]; try discriminate.
  destruct m as [|m0 [|m1 [|m2 [|m3 [|]]]]]; try discriminate.
  reflexivity.
Qed.

(** The decimal text of a prefix length is read back by [dtoi]. *)
Lemma dtoi_fmt_d n :
  0 <= n <= 32 ->
  Net.dtoi (Str.fmt_d n) = (n, Str.len (Str.fmt_d n), true).
Proof.
  intros Hn.
  assert (Hk : exists k : nat, (k <= 32)%nat /\ n = Z.of_nat k)
    by (exists (Z.to_nat n); lia).
  destruct Hk as (k & Hk & ->). clear Hn.
  do 33 (destruct k as [|k]; [vm_compute; reflexivity|]).
  lia.
Qed.

(** [net.ParseCIDR] on a dotted quad and a prefix length within 0..32. *)
Lemma parseCIDR_v4 start a n :
  Net.parseIPv4 start = Some a -> 0 <= n <= 32 ->
  parseCIDR start n
  = (Some {| Net.net_IP := Net.and_bytes a (Net.CIDRMask n 32);
             Net.net_Mask := Net.CIDRMask n 32 |}, None).
Proof.
  intros Ea Hn. unfold parseCIDR, Net.ParseCIDR.
  change (start +:+ "/" +:+ Str.fmt_d n) with (start +:+ String "/" (Str.fmt_d n)).
  rewrite cut_v4chars by (eapply parseIPv4_loop_chars; exact Ea).
  rewrite (ParseAddr_v4 _ _ Ea). cbn [Net.Zone Str.len String.length Z.of_nat
                                     Z.eqb negb Net.BitLen Net.As16].
  rewrite (dtoi_fmt_d n Hn). rewrite !Z.eqb_refl. cbn [negb orb].
  destruct (n <? 0) eqn:E1; [lia|]. destruct (32 <? n) eqn:E2; [lia|].
  cbn [orb].
  rewrite Mask_v4.
  - reflexivity.
  - eapply parseIPv4_loop_length; [exact Ea|]. simpl. lia.
  - apply CIDRMask_32_length. exact Hn.
Qed.

(** The claim of C3 fails on a count of 3: the record is accepted and the
    count is cut down to the power of two below it, a /31. *)
Lemma C3_count_3_is_accepted :
  Str.ParseInt "3" = (3, None)
  /\ (forall k : Z, 2 ^ k <> 3)
  /\ @parseIPRange amd64
       ["2"; "US"; "ipv4"; "192.168.0.0"; "3"; "20100101"; "allocated"]
     = Return ({| ID := 0;
                  Network := {| Net.net_IP := [192; 168; 0; 0];
                                Net.net_Mask := [255; 255; 255; 254] |};
                  CountryCode := "US"; Version := 4 |}, None).
Proof.
  split; [reflexivity|]. split; [|vm_compute; reflexivity].
  intros k Hk.
  destruct (Z.lt_ge_cases k 0) as [Hneg|Hpos].
  - rewrite Z.pow_neg_r in Hk by lia. discriminate.
  - destruct (Z.lt_ge_cases k 2) as [Hlt|Hge].
    + assert (k = 0 \/ k = 1) as [-> | ->] by lia; discriminate.
    + assert (2 ^ 2 <= 2 ^ k) by (apply Z.pow_le_mono_r; lia). lia.
Qed.

(** C3, amended. For an IPv4 record whose start is a dotted quad and whose
    size field is a decimal count between 2^k and 2^(k+1) - 1, with k from 0
    to 32, the parser returns no error and the network start/(32 - k) with
    the host bits of the start cleared: a power of two gives the prefix
    length 32 - log2(count), and a count that is not a power of two is
    treated as the power of two below it. *)
Theorem C3_ipv4_prefix_from_count `{Platform}
        (registry countryCode start size : string) (rest : list string)
        (a : list Z) (value k : Z) :
  Net.parseIPv4 start = Some a ->
  Str.ParseInt size = (value, None) ->
  0 <= k <= 32 ->
  2 ^ k <= value < 2 ^ (k + 1) ->
  parseIPRange (registry :: countryCode :: "ipv4" :: start :: size :: rest)
  = Return ({| ID := 0;
               Network := {| Net.net_IP := Net.and_bytes a (Net.CIDRMask (32 - k) 32);
                             Net.net_Mask := Net.CIDRMask (32 - k) 32 |};
               CountryCode := countryCode; Version := 4 |}, None).
Proof.
  intros Ea Ev Hk Hv.
  unfold parseIPRange. cbn [index lookup list_lookup]. unfold_M. cbn [String.eqb].
  change (String.eqb "ipv4" "ipv4") with true. cbn iota.
  rewrite Ev.
  assert (Hlog : Z.log2 value = k) by (apply Z.log2_unique; lia).
  assert (Hpos : 0 < value).
  { assert (0 < 2 ^ k) by (apply Z.pow_pos_nonneg; lia). lia. }
  assert (Hl : log2_int value = k).
  { unfold log2_int. destruct (value <? 0) eqn:E1; [lia|].
    destruct (value =? 0) eqn:E2; [lia|]. exact Hlog. }
  rewrite Hl.
  assert (Hw : Str.wrap64 (32 - k) = 32 - k).
  { unfold Str.wrap64. rewrite Z.mod_small; lia. }
  rewrite Hw.
  rewrite (parseCIDR_v4 start a (32 - k) Ea) by lia.
  reflexivity.
Qed.

Lemma C3_ipv4_prefix_from_count_witness :
  Net.parseIPv4 "192.168.0.0" = Some [192; 168; 0; 0]
  /\ Str.ParseInt "65536" = (65536, None)
  /\ 0 <= 16 <= 32
  /\ 2 ^ 16 <= 65536 < 2 ^ (16 + 1)
  /\ @parseIPRange amd64 sampleParts
     = Return ({| ID := 0;
                  Network := {| Net.net_IP := Net.and_bytes [192; 168; 0; 0]
                                                (Net.CIDRMask (32 - 16) 32);
                                Net.net_Mask := Net.CIDRMask (32 - 16) 32 |};
                  CountryCode := "US"; Version := 4 |}, None).
Proof.
  split; [reflexivity|]. split; [reflexivity|]. split; [lia|]. split; [lia|].
  apply (@C3_ipv4_prefix_from_count amd64 "2" "US" "192.168.0.0" "65536"
           ["20100101"; "allocated"] [192; 168; 0; 0] 65536 16);
    [reflexivity|reflexivity|lia|lia].
Defined.

(** The scenario of the specification: 65536 addresses from 192.168.0.0
    are 192.168.0.0/16. *)
Example parseIPRange_sample :
  @parseIPRange amd64 sampleParts = Return (usRange, None).
Proof. vm_compute. reflexivity. Qed.

(** A count from 2^33 on makes the prefix length negative, which
    [net.ParseCIDR] refuses. *)
Example parseIPRange_count_too_large :
  @parseIPRange amd64
    ["2"; "US"; "ipv4"; "192.168.0.0"; "8589934592"; "20100101"; "allocated"]
  = Return (zeroIPRange, Some (CIDRParseError "192.168.0.0/-1")).
Proof. vm_compute. reflexivity. Qed.

(** ** The range cache *)

(** What [CacheIPRanges] stores for 10.0.0.0/8: the start as score, the
    country and the mask in hexadecimal as member. *)
Example CacheIPRanges_member :
  map_to_list (redis_ipranges (tier2Of [deRange])) = [("DE|ff000000", 167772160)].
Proof. vm_compute. reflexivity. Qed.

(** C2. The lookup that the claim describes as "no match": tier 2 holds
    10.0.0.0/8 alone, the address 11.0.0.1 lies above its start and outside
    it.  [GetCachedRange] finds the entry and then fails to rebuild a CIDR
    from the address and the stored mask text, and returns that error. *)
Theorem C2_outside_nearest_range_is_an_error :
  Net.Contains (Network deRange) (Net.ParseIP "11.0.0.1") = false
  /\ Redis.GetCachedRange (Net.ParseIP "11.0.0.1") (tier2Of [deRange])
     = (Return (EmptyString, Some (CIDRParseError "11.0.0.1/ff000000")),
        tier2Of [deRange]).
Proof. vm_compute. split; reflexivity. Qed.

(** An address inside the stored range fares no better. *)
Example GetCachedRange_inside_range :
  Net.Contains (Network deRange) (Net.ParseIP "10.1.2.3") = true
  /\ (Redis.GetCachedRange (Net.ParseIP "10.1.2.3") (tier2Of [deRange])).1
     = Return (EmptyString, Some (CIDRParseError "10.1.2.3/ff000000")).
Proof. vm_compute. split; reflexivity. Qed.

(** The one mask text that reads as a prefix length is that of /0, and then
    the network is rebuilt around the queried address itself: an IPv6
    address gets the country of the IPv4 range 0.0.0.0/0, which does not
    contain it. *)
Example GetCachedRange_other_family :
  Net.Contains (Network allV4Range) (Net.ParseIP "2001:db8::1") = false
  /\ (Redis.GetCachedRange (Net.ParseIP "2001:db8::1") (tier2Of [allV4Range])).1
     = Return ("US", None).
Proof. vm_compute. split; reflexivity. Qed.

(** *** No range of prefix length 1 or more is ever found in tier 2 *)

Lemma dtoi_loop_all s n i n' i' :
  Net.dtoi_loop s n i = (n', i', true) -> i' = i + Str.len s ->
  allDigits s = true.
Proof.
  revert n i. induction s as [|c s IH]; intros n i; [reflexivity|].
  cbn [Net.dtoi_loop allDigits]. unfold Str.len. cbn [String.length].
  destruct (Str.is_digit c).
  - destruct (Net.big <=? _); [discriminate|].
    intros E Hi. cbn [andb]. eapply IH; [exact E|]. unfold Str.len. lia.
  - destruct (i =? 0); [discriminate|]. intros [= _ <-] Hi. lia.
Qed.

Lemma readableMask_allDigits mask :
  readableMask mask = true -> allDigits mask = true.
Proof.
  unfold readableMask, Net.dtoi.
  destruct (Net.dtoi_loop mask 0 0) as [[n i] ok] eqn:E.
  intros [-> Hi%Z.eqb_eq]%andb_true_iff.
  eapply dtoi_loop_all; [exact E|]. lia.
Qed.

Lemma allDigits_slash x m : allDigits (x +:+ String "/" m) = false.
Proof.
  induction x as [|c x IH]; [reflexivity|].
  change (String c x +:+ String "/" m) with (String c (x +:+ String "/" m)).
  cbn [allDigits]. rewrite IH. apply andb_false_r.
Qed.

(** What follows the first slash of [x/m] is [m] itself or a text with a
    slash in it. *)
Lemma cut_slash x m :
  exists addr mask,
    Str.cut "/" (x +:+ String "/" m) = Some (addr, mask)
    /\ (mask = m \/ exists y, mask = y +:+ String "/" m).
Proof.
  induction x as [|c x IH].
  - exists EmptyString, m. split; [reflexivity|auto].
  - change (String c x +:+ String "/" m) with (String c (x +:+ String "/" m)).
    cbn [Str.cut]. destruct (Ascii.eqb c "/").
    + exists EmptyString, (x +:+ String "/" m). split; [reflexivity|eauto].
    + destruct IH as (addr & mask & -> & Hm).
      exists (String c addr), mask. auto.
Qed.

(** [net.ParseCIDR] refuses an address followed by a mask text that does
    not read as a number. *)
Lemma ParseCIDR_unreadable x m :
  readableMask m = false ->
  exists e, Net.ParseCIDR (x +:+ String "/" m) = ([], None, Some e).
Proof.
  intros Hm. unfold Net.ParseCIDR.
  destruct (cut_slash x m) as (addr & mask & -> & Hmask).
  assert (Hr : readableMask mask = false).
  { destruct Hmask as [-> | [y ->]]; [exact Hm|].
    destruct (readableMask (y +:+ String "/" m)) eqn:E; [|reflexivity].
    apply readableMask_allDigits in E. rewrite allDigits_slash in E. discriminate. }
  destruct (Net.ParseAddr addr) as [ipAddr|]; [|eauto].
  destruct (negb _); [eauto|].
  unfold readableMask in Hr. destruct (Net.dtoi mask) as [[n i] ok].
  apply andb_false_iff in Hr.
  assert (negb ok || negb (i =? Str.len mask) = true) as ->
    by (destruct Hr as [-> | ->]; [reflexivity|apply orb_true_r]).
  cbn [orb]. eauto.
Qed.

(** The hexadecimal text of a mask reads as a number for prefix length 0
    only. *)
Lemma hex_mask_unreadable m :
  prefixMask m -> readableMask (Net.IPMask_String m) = false.
Proof.
  intros [(n & Hn & ->) | (n & Hn & ->)].
  - assert (Hk : exists k : nat, (k < 32)%nat /\ n = Z.of_nat (S k))
      by (exists (Z.to_nat (n - 1)); lia).
    destruct Hk as (k & Hk & ->). clear Hn.
    do 32 (destruct k as [|k]; [vm_compute; reflexivity|]). lia.
  - assert (Hk : exists k : nat, (k < 128)%nat /\ n = Z.of_nat (S k))
      by (exists (Z.to_nat (n - 1)); lia).
    destruct Hk as (k & Hk & ->). clear Hn.
    do 128 (destruct k as [|k]; [vm_compute; reflexivity|]). lia.
Qed.

Lemma Split_nonempty sep s : Str.Split sep s <> [].
Proof.
  destruct s as [|c s]; cbn [Str.Split]; [discriminate|].
  destruct (Ascii.eqb c sep); [discriminate|].
  destruct (Str.Split sep s); discriminate.
Qed.

Lemma Split_app sep a b :
  Str.Split sep (a +:+ String sep b) = Str.Split sep a ++ Str.Split sep b.
Proof.
  induction a as [|c a IH].
  - change (EmptyString +:+ String sep b) with (String sep b).
    cbn [Str.Split]. rewrite Ascii.eqb_refl. reflexivity.
  - change (String c a +:+ String sep b) with (String c (a +:+ String sep b)).
    cbn [Str.Split]. destruct (Ascii.eqb c sep).
    + rewrite IH. reflexivity.
    + rewrite IH. pose proof (Split_nonempty sep a).
      destruct (Str.Split sep a); [congruence|reflexivity].
Qed.

Lemma Split_singleton sep s t : Str.Split sep s = [t] -> t = s.
Proof.
  revert t. induction s as [|c s IH]; intros t.
  - cbn. congruence.
  - cbn [Str.Split]. destruct (Ascii.eqb c sep).
    + intros [= <- E]. destruct (Split_nonempty _ _ E).
    + destruct (Str.Split sep s) as [|p ps] eqn:E;
        [destruct (Split_nonempty _ _ E)|].
      intros [= <- ->]. rewrite (IH p eq_refl). reflexivity.
Qed.

(** A member of two fields carries the mask text of its range. *)
Lemma Split_member r countryCode mask :
  Str.Split "|" (Redis.member r) = [countryCode; mask] ->
  mask = Net.IPMask_String (Net.net_Mask (Network r)).
Proof.
  unfold Redis.member.
  change (CountryCode r +:+ "|" +:+ ?m) with (CountryCode r +:+ String "|" m).
  rewrite Split_app.
  pose proof (Split_nonempty "|" (CountryCode r)) as H1.
  pose proof (Split_nonempty "|" (Net.IPMask_String (Net.net_Mask (Network r)))) as H2.
  destruct (Str.Split "|" (CountryCode r)) as [|c1 [|c2 cs]]; [congruence| |].
  - destruct (Str.Split "|" (Net.IPMask_String _)) as [|m1 [|m2 ms]] eqn:E;
      [congruence| |discriminate].
    intros [= _ <-]. apply Split_singleton in E. exact E.
  - destruct (Str.Split "|" (Net.IPMask_String _)) as [|m1 ms]; [congruence|].
    cbn. intros [= _ _ E]. destruct cs; discriminate.
Qed.

(** The members of a rebuilt index are the members of the ranges. *)
Lemma zaddAll_member ranges (z : gmap string Z) m s :
  Redis.zaddAll ranges z !! m = Some s ->
  z !! m <> None \/ exists r, r ∈ ranges /\ m = Redis.member r.
Proof.
  unfold Redis.zaddAll. revert z.
  induction ranges as [|r rest IH]; intros z; cbn [foldl].
  - intros E. left. congruence.
  - intros E. apply IH in E as [E | (r' & Hin & ->)].
    + destruct (decide (Redis.member r = m)) as [<- | Hne].
      * right. exists r. split; [left|reflexivity].
      * rewrite lookup_insert_ne in E by exact Hne. auto.
    + right. exists r'. split; [right; exact Hin|reflexivity].
Qed.

(** What [ZREVRANGEBYSCORE] returns is a member of the set. *)
Lemma ZRevRangeByScore1_member (z : gmap string Z) min max m rest :
  Redis.ZRevRangeByScore1 z min max = m :: rest -> z !! m <> None.
Proof.
  unfold Redis.ZRevRangeByScore1.
  set (l := filter _ (map_to_list z)).
  assert (Hl : forall e, e ∈ l -> z !! e.1 = Some e.2).
  { intros [k v] [_ Hin]%list_elem_of_filter. apply elem_of_map_to_list. exact Hin. }
  clearbody l.
  assert (Hbest : forall best,
             foldr (fun e best =>
                      match best with
                      | None => Some e
                      | Some b => if Redis.zlt b e then Some e else Some b
                      end) None l = Some best -> best ∈ l).
  { induction l as [|e l IH]; cbn [foldr]; [discriminate|].
    intros best.
    destruct (foldr _ None l) as [b|] eqn:E.
    - destruct (Redis.zlt b e); intros [= <-]; [left|].
      right. apply IH; [|reflexivity].
      intros e' He'. apply Hl. right. exact He'.
    - intros [= <-]. left. }
  destruct (foldr _ None l) as [best|]; [|discriminate].
  intros [= <- _]. rewrite (Hl best (Hbest best eq_refl)). discriminate.
Qed.

(** X10. However tier 2 was rebuilt from ranges of prefix length 1 or more, a
    lookup in it never returns a country: the entry found is refused when
    its mask text is put after the slash of a CIDR. *)
Lemma GetCachedRange_never_hits ranges (ip : Net.IP) (w w' : World) c err :
  (forall r, r ∈ ranges -> prefixMask (Net.net_Mask (Network r))) ->
  redis_ipranges w = Redis.zaddAll ranges ∅ ->
  Redis.GetCachedRange ip w = (Return (c, err), w') ->
  c = EmptyString.
Proof.
  intros Hmask Hz. unfold Redis.GetCachedRange. unfold_M. rewrite call_spec.
  destruct (nextFault w); [intros [= <- _ _]; reflexivity|].
  cbn [gets]. change (redis_ipranges (afterCalls 1 w)) with (redis_ipranges w).
  destruct (Redis.ZRevRangeByScore1 _ _ _) as [|range0 rest] eqn:EZ;
    [intros [= <- _ _]; reflexivity|].
  apply ZRevRangeByScore1_member in EZ.
  destruct (redis_ipranges w !! range0) as [s|] eqn:Es; [|congruence].
  rewrite Hz in Es. apply zaddAll_member in Es as [Es | (r & Hin & ->)].
  { rewrite lookup_empty in Es. congruence. }
  destruct (Str.Split "|" (Redis.member r)) as [|cc [|mask [|x xs]]] eqn:ES;
    try (intros [= <- _ _]; reflexivity).
  apply Split_member in ES. subst mask.
  change (Net.IP_String ip +:+ "/" +:+ ?m) with (Net.IP_String ip +:+ String "/" m).
  destruct (ParseCIDR_unreadable (Net.IP_String ip)
              (Net.IPMask_String (Net.net_Mask (Network r)))
              (hex_mask_unreadable _ (Hmask r Hin))) as [e ->].
  intros [= <- _ _]. reflexivity.
Qed.

(** *** Where the ranges of the examples come from *)

Example parseIPRange_deRange :
  @parseIPRange amd64
    ["x"; "DE"; "ipv4"; "10.0.0.0"; "16777216"; "20100101"; "allocated"]
  = Return (deRange, None).
Proof. vm_compute. reflexivity. Qed.

Example parseIPRange_allV4Range :
  @parseIPRange amd64
    ["x"; "US"; "ipv4"; "0.0.0.0"; "4294967296"; "20100101"; "allocated"]
  = Return (allV4Range, None).
Proof. vm_compute. reflexivity. Qed.

Example parseIPRange_zzRange :
  @parseIPRange amd64
    ["x"; "ZZ"; "ipv4"; "0.0.0.0"; "4294967296"; "20100101"; "allocated"]
  = Return (zzRange, None).
Proof. vm_compute. reflexivity. Qed.

(** The masks of the ranges that the parser builds from a positive prefix
    length are the masks that tier 2 cannot read back. *)
Example prefixMask_deRange : prefixMask (Net.net_Mask (Network deRange)).
Proof. left. exists 8. split; [lia|reflexivity]. Qed.

(** * Further properties of the code *)

(** ** The line loop of the fetcher *)

(** What one round of the loop does: it skips the line, counts a parse
    error, or appends the range that [parseIPRange] returned for the fields
    of the line and counts it under its version. *)
Lemma scanLine_cases `{Platform} ranges stats line :
  scanLine (ranges, stats) line = Return (ranges, incSkipped stats)
  \/ scanLine (ranges, stats) line = Return (ranges, incParseErrors stats)
  \/ exists r,
       parseIPRange (Str.Split "|" line) = Return (r, None)
       /\ scanLine (ranges, stats) line
          = Return (ranges ++ [r],
                    if Version r =? 4 then incIPv4 stats else incIPv6 stats).
Proof.
  unfold scanLine.
  destruct (_ || _); [auto|].
  destruct (Nat.ltb _ 7) eqn:Hlen; [auto|].
  apply Nat.ltb_ge in Hlen.
  destruct (Str.Split "|" line) as [|p0 [|p1 [|p2 [|p3 [|p4 [|p5 [|p6 rest]]]]]]] eqn:E;
    simpl in Hlen; try lia.
  cbn [index lookup list_lookup]. unfold_M. cbn.
  destruct (String.eqb p1 "*"); cbn; [auto|].
  destruct (negb (String.eqb p6 "allocated") && negb (String.eqb p6 "assigned"));
    cbn; [auto|].
  destruct (String.eqb p2 "ipv4") eqn:E4; cbn.
  - apply String.eqb_eq in E4. subst p2.
    destruct (parseIPRange_returns (p0 :: p1 :: "ipv4" :: p3 :: p4 :: p5 :: p6 :: rest))
      as [[r err] ->]; [simpl; lia|left; reflexivity|].
    destruct err; cbn; [auto|]. right. right. exists r. auto.
  - destruct (String.eqb p2 "ipv6") eqn:E6; cbn; [|auto].
    apply String.eqb_eq in E6. subst p2.
    destruct (parseIPRange_returns (p0 :: p1 :: "ipv6" :: p3 :: p4 :: p5 :: p6 :: rest))
      as [[r err] ->]; [simpl; lia|right; reflexivity|].
    destruct err; cbn; [auto|]. right. right. exists r. auto.
Qed.

Lemma countVersion4_app ranges r :
  countVersion4 (ranges ++ [r])
  = countVersion4 ranges + (if Version r =? 4 then 1 else 0).
Proof.
  unfold countVersion4. rewrite filter_app, length_app.
  cbn [filter list_filter]. destruct (decide (Version r = 4)) as [E|E].
  - rewrite E. simpl. lia.
  - apply Z.eqb_neq in E. rewrite E. simpl. lia.
Qed.

Lemma scanLines_counts `{Platform} lines ranges stats :
  exists ranges' stats',
    scanLines lines (ranges, stats) = Return (ranges', stats')
    /\ totalCount stats' = totalCount stats + Z.of_nat (length lines)
    /\ IPv4Count stats' - countVersion4 ranges'
       = IPv4Count stats - countVersion4 ranges
    /\ IPv6Count stats' - (Z.of_nat (length ranges') - countVersion4 ranges')
       = IPv6Count stats - (Z.of_nat (length ranges) - countVersion4 ranges)
    /\ SkippedCount stats <= SkippedCount stats'
    /\ ParseErrors stats <= ParseErrors stats'.
Proof.
  revert ranges stats. induction lines as [|line rest IH]; intros ranges stats.
  - exists ranges, stats. cbn. repeat split; lia.
  - cbn [scanLines]. unfold_M.
    destruct (scanLine_cases ranges stats line) as [E | [E | (r & _ & E)]];
      rewrite E.
    + destruct (IH ranges (incSkipped stats)) as (r2 & s2 & -> & Ht & H4 & H6 & Hs & Hp).
      exists r2, s2. split; [reflexivity|].
      unfold totalCount in *. cbn [incSkipped IPv4Count IPv6Count SkippedCount
                                    ParseErrors length] in *.
      repeat split; lia.
    + destruct (IH ranges (incParseErrors stats))
        as (r2 & s2 & -> & Ht & H4 & H6 & Hs & Hp).
      exists r2, s2. split; [reflexivity|].
      unfold totalCount in *. cbn [incParseErrors IPv4Count IPv6Count SkippedCount
                                    ParseErrors length] in *.
      repeat split; lia.
    + destruct (IH (ranges ++ [r])
                   (if Version r =? 4 then incIPv4 stats else incIPv6 stats))
        as (r2 & s2 & -> & Ht & H4 & H6 & Hs & Hp).
      exists r2, s2. split; [reflexivity|].
      rewrite countVersion4_app, length_app in *.
      unfold totalCount in *.
      destruct (Version r =? 4);
        cbn [incIPv4 incIPv6 IPv4Count IPv6Count SkippedCount ParseErrors length] in *;
        repeat split; lia.
Qed.

(** X1. The line loop never stops early and never panics, whatever the
    lines are, and counts every line exactly once: as an IPv4 range, an IPv6
    range, a skipped line or a parse error.  The IPv4 count is the number of
    returned ranges tagged 4 and the IPv6 count is the number of the
    others. *)
Theorem scanLines_counts_every_line `{Platform} (lines : list string) :
  exists ranges stats,
    scanLines lines ([], zeroStats) = Return (ranges, stats)
    /\ totalCount stats = Z.of_nat (length lines)
    /\ IPv4Count stats = countVersion4 ranges
    /\ IPv6Count stats = Z.of_nat (length ranges) - countVersion4 ranges
    /\ 0 <= SkippedCount stats
    /\ 0 <= ParseErrors stats.
Proof.
  destruct (scanLines_counts lines [] zeroStats)
    as (r & s & E & Ht & H4 & H6 & Hs & Hp).
  exists r, s. split; [exact E|].
  unfold totalCount, countVersion4 in *. cbn in *. repeat split; lia.
Qed.

(** The nine lines of [mixedBody]: two ranges, six skipped, one error. *)
Example scanLines_mixedBody :
  @scanLines amd64 mixedBody ([], zeroStats)
  = Return ([usRange; caRange],
            {| IPv4Count := 1; IPv6Count := 1; SkippedCount := 6;
               ParseErrors := 1 |}).
Proof. vm_compute. reflexivity. Qed.

(** ** The networks that the parser builds *)

Lemma and_bytes_idem a m :
  Net.and_bytes (Net.and_bytes a m) m = Net.and_bytes a m.
Proof.
  unfold Net.and_bytes. revert m. induction a as [|x a IH]; intros [|y m];
    cbn [zip_with]; try reflexivity.
  rewrite IH. f_equal. rewrite <- Z.land_assoc, Z.land_diag. reflexivity.
Qed.

Lemma and_bytes_length a m :
  length a = length m -> length (Net.and_bytes a m) = length a.
Proof.
  unfold Net.and_bytes. intros E. rewrite length_zip_with. lia.
Qed.

Lemma CIDRMask_length bits k :
  bits = 32 \/ bits = 128 -> 0 <= k <= bits ->
  length (Net.CIDRMask k bits) = Z.to_nat (bits / 8).
Proof.
  intros Hb Hk. unfold Net.CIDRMask.
  assert (negb (bits =? 32) && negb (bits =? 128) = false) as ->
    by (destruct Hb as [-> | ->]; reflexivity).
  destruct (k <? 0) eqn:E1; [lia|]. destruct (bits <? k) eqn:E2; [lia|].
  cbn [orb]. apply cidr_bytes_length.
Qed.

Lemma To4_length ip x : Net.To4 ip = Some x -> length x = 4%nat.
Proof.
  unfold Net.To4.
  destruct (Nat.eqb (length ip) Net.IPv4len) eqn:E4.
  - intros [= <-]. apply Nat.eqb_eq in E4. exact E4.
  - destruct (Nat.eqb (length ip) Net.IPv6len) eqn:E6; [|discriminate].
    destruct (Net.bytes_eqb _ _); [|discriminate].
    intros [= <-]. apply Nat.eqb_eq in E6. rewrite length_drop, E6. reflexivity.
Qed.

(** The loop of [parseIPv6] never writes beyond the sixteenth byte. *)
Lemma parseIPv6_loop_length fuel s ip ellipsis s' ip' ellipsis' :
  Net.parseIPv6_loop fuel s ip ellipsis = Some (s', ip', ellipsis') ->
  (length ip <= 16)%nat -> Nat.even (length ip) = true ->
  (length ip' <= 16)%nat.
Proof.
  revert s ip ellipsis.
  induction fuel as [|fuel IH]; intros s ip ellipsis; cbn [Net.parseIPv6_loop].
  { intros [= _ <- _]. auto. }
  destruct (Nat.leb 16 (length ip)) eqn:Hfull; [intros [= _ <- _]; auto|].
  apply Nat.leb_gt in Hfull.
  destruct (Net.hex_group s 0 0) as [[[off acc] rest]|]; [|discriminate].
  intros E Hle Hev.
  assert (Hlen2 : forall x y, (length (ip ++ [x; y]) <= 16)%nat
                              /\ Nat.even (length (ip ++ [x; y])) = true).
  { intros x y. rewrite length_app. cbn [length].
    replace (length ip + 2)%nat with (S (S (length ip))) by lia.
    split; [|exact Hev].
    destruct (Nat.eq_dec (length ip) 15%nat) as [E15|]; [|lia].
    rewrite E15 in Hev. discriminate. }
  assert (Hv4 : (if (match ellipsis with None => true | Some _ => false end)
                    && negb (Nat.eqb (length ip) 12) then None
                 else if Nat.ltb 16 (length ip + 4) then None
                 else match Net.parseIPv4 s with
                      | None => None
                      | Some b4 => Some (EmptyString, ip ++ b4, ellipsis)
                      end) = Some (s', ip', ellipsis') ->
                (length ip' <= 16)%nat).
  { destruct (_ && _); [discriminate|].
    destruct (Nat.ltb 16 (length ip + 4)) eqn:H4; [discriminate|].
    apply Nat.ltb_ge in H4.
    destruct (Net.parseIPv4 s) as [b4|] eqn:E4; [|discriminate].
    intros [= _ <- _]. rewrite length_app.
    assert (length b4 = 4%nat)
      by (eapply parseIPv4_loop_length; [exact E4|simpl; lia]).
    lia. }
  assert (Hnorm : match rest with
                  | EmptyString =>
                      Some (EmptyString, ip ++ [Z.shiftr acc 8; Z.land acc 255],
                            ellipsis)
                  | String c EmptyString => None
                  | String c (String c' rest' as rest1) =>
                      if negb (Ascii.eqb c ":") then None
                      else if Ascii.eqb c' ":" then
                        match ellipsis with
                        | Some _ => None
                        | None =>
                            match rest' with
                            | EmptyString =>
                                Some (EmptyString,
                                      ip ++ [Z.shiftr acc 8; Z.land acc 255],
                                      Some (length (ip ++ [Z.shiftr acc 8;
                                                           Z.land acc 255])))
                            | _ => Net.parseIPv6_loop fuel rest'
                                     (ip ++ [Z.shiftr acc 8; Z.land acc 255])
                                     (Some (length (ip ++ [Z.shiftr acc 8;
                                                           Z.land acc 255])))
                            end
                        end
                      else Net.parseIPv6_loop fuel rest1
                             (ip ++ [Z.shiftr acc 8; Z.land acc 255]) ellipsis
                  end = Some (s', ip', ellipsis') ->
                  (length ip' <= 16)%nat).
  { destruct (Hlen2 (Z.shiftr acc 8) (Z.land acc 255)) as [Hl He].
    destruct rest as [|c [|c' rest']]; [intros [= _ <- _]; exact Hl|discriminate|].
    destruct (negb (Ascii.eqb c ":")); [discriminate|].
    destruct (Ascii.eqb c' ":").
    - destruct ellipsis; [discriminate|].
      destruct rest'; [intros [= _ <- _]; exact Hl|].
      intros E'. eapply IH; eauto.
    - intros E'. eapply IH; eauto. }
  destruct off as [|off]; [discriminate|].
  destruct rest as [|c rest0]; [apply Hnorm; exact E|].
  destruct c as [[] [] [] [] [] [] [] []];
    first [apply Hv4; exact E | apply Hnorm; exact E].
Qed.

Lemma parseIPv6_length s b zone :
  Net.parseIPv6 s = Some (Net.Addr6 b zone) -> length b = 16%nat.
Proof.
  unfold Net.parseIPv6.
  destruct (match Str.cut "%" s with
            | Some (s1, z) => (s1, z, true)
            | None => (s, EmptyString, false)
            end) as [[s1 z] hasZone].
  destruct (hasZone && _); [discriminate|].
  destruct (match s1 with
            | String ":" (String ":" r) => (r, Some 0%nat, true)
            | _ => (s1, None, false)
            end) as [[s2 ellipsis] lead].
  destruct (lead && _); [intros [= <- _]; reflexivity|].
  destruct (Net.parseIPv6_loop 9 s2 [] ellipsis) as [[[s3 ip] e]|] eqn:E;
    [|discriminate].
  apply parseIPv6_loop_length in E; [|simpl; lia|reflexivity].
  destruct s3; [|discriminate].
  destruct (Nat.ltb (length ip) 16) eqn:Hlt.
  - apply Nat.ltb_lt in Hlt. destruct e as [e|]; [|discriminate].
    intros [= <- _]. rewrite !length_app, length_take, length_replicate, length_drop.
    lia.
  - apply Nat.ltb_ge in Hlt. destruct e; [discriminate|].
    intros [= <- _]. lia.
Qed.

Lemma ParseAddr_scan_length whole s a :
  Net.ParseAddr_scan whole s = Some a ->
  match a with
  | Net.Addr4 b => length b = 4%nat
  | Net.Addr6 b _ => length b = 16%nat
  end.
Proof.
  induction s as [|c s IH]; cbn [Net.ParseAddr_scan]; [discriminate|].
  destruct (Ascii.eqb c ".").
  { destruct (Net.parseIPv4 whole) as [b|] eqn:E; [|discriminate].
    intros [= <-]. eapply parseIPv4_loop_length; [exact E|simpl; lia]. }
  destruct (Ascii.eqb c ":").
  { destruct a as [b|b z]; intros E.
    - unfold Net.parseIPv6 in E.
      repeat match type of E with
             | context [match ?x with _ => _ end] => destruct x; try discriminate
             end.
    - eapply parseIPv6_length. exact E. }
  destruct (Ascii.eqb c "%"); [discriminate|]. exact IH.
Qed.

Lemma Mask_v6 a m :
  length a = 16%nat -> length m = 16%nat -> Net.Mask a m = Net.and_bytes a m.
Proof.
  intros Ha Hm.
  do 17 (destruct a as [|? a]; try discriminate).
  do 17 (destruct m as [|? m]; try discriminate).
  reflexivity.
Qed.

(** A network that [net.ParseCIDR] returns is canonical. *)
Lemma ParseCIDR_canonical s ip n :
  Net.ParseCIDR s = (ip, Some n, None) -> canonicalNet n.
Proof.
  unfold Net.ParseCIDR.
  destruct (Str.cut "/" s) as [[addr mask]|]; [|discriminate].
  destruct (Net.ParseAddr addr) as [ipAddr|] eqn:EA; [|discriminate].
  destruct (negb _); [discriminate|].
  destruct (Net.dtoi mask) as [[k i] ok].
  destruct (negb ok || negb (i =? Str.len mask)); [discriminate|].
  cbn [orb].
  destruct (k <? 0) eqn:E1; [discriminate|].
  destruct (Net.BitLen ipAddr <? k) eqn:E2; [discriminate|].
  cbn [orb]. intros [= _ <-].
  apply ParseAddr_scan_length in EA.
  destruct ipAddr as [b|b z]; cbn [Net.BitLen Net.As16] in *.
  - assert (Hm : length (Net.CIDRMask k 32) = 4%nat)
      by (apply CIDRMask_32_length; lia).
    exists 32, k. cbn [Net.net_IP Net.net_Mask].
    rewrite (Mask_v4 _ _ EA Hm).
    split; [auto|]. split; [lia|]. split; [reflexivity|].
    split; [rewrite and_bytes_length; [exact EA|congruence]|].
    apply and_bytes_idem.
  - assert (Hm : length (Net.CIDRMask k 128) = 16%nat)
      by (rewrite CIDRMask_length; [reflexivity|auto|lia]).
    exists 128, k. cbn [Net.net_IP Net.net_Mask].
    rewrite (Mask_v6 _ _ EA Hm).
    split; [auto|]. split; [lia|]. split; [reflexivity|].
    split; [rewrite and_bytes_length; [exact EA|congruence]|].
    apply and_bytes_idem.
Qed.

(** A canonical network contains its own base address. *)
Lemma canonicalNet_contains_base n :
  canonicalNet n -> Net.Contains n (Net.net_IP n) = true.
Proof.
  intros (bits & k & Hb & Hk & Hm & Hl & _).
  assert (Hml : length (Net.net_Mask n) = Z.to_nat (bits / 8))
    by (rewrite Hm; apply CIDRMask_length; assumption).
  assert (Hbytes : forall a m, Net.bytes_eqb (Net.and_bytes a m) (Net.and_bytes a m) = true)
    by (intros; apply bool_decide_eq_true_2; reflexivity).
  unfold Net.Contains, Net.networkNumberAndMask, Net.IPv4len, Net.IPv6len.
  destruct (Net.To4 (Net.net_IP n)) as [x|] eqn:E4.
  - pose proof (To4_length _ _ E4) as Hx.
    destruct Hb as [-> | ->];
      change (Z.to_nat (32 / 8)) with 4%nat in *;
      change (Z.to_nat (128 / 8)) with 16%nat in *;
      do 3 (rewrite ?Hml, ?Hx; cbn [Nat.eqb]; cbv beta iota zeta);
      apply Hbytes.
  - destruct Hb as [-> | ->];
      change (Z.to_nat (32 / 8)) with 4%nat in *;
      change (Z.to_nat (128 / 8)) with 16%nat in *.
    + unfold Net.To4, Net.IPv4len in E4. rewrite Hl in E4. discriminate.
    + do 3 (rewrite ?Hml, ?Hl; cbn [Nat.eqb]; cbv beta iota zeta).
      apply Hbytes.
Qed.

(** X2. A range that [parseIPRange] returns without error has the zero id,
    the country of field 2, the version tag of the family in field 3 (4 for
    "ipv4", 6 for "ipv6", whatever the family of the start address), and a
    canonical network: a mask of k ones out of 32 or 128 bits and a base
    address with the host bits cleared, which the network contains. *)
Theorem parseIPRange_result `{Platform} (parts : list string) (r : IPRange) :
  parseIPRange parts = Return (r, None) ->
  ID r = 0
  /\ parts !! 1%nat = Some (CountryCode r)
  /\ ((parts !! 2%nat = Some "ipv4" /\ Version r = 4)
      \/ (parts !! 2%nat = Some "ipv6" /\ Version r = 6))
  /\ canonicalNet (Network r)
  /\ Net.Contains (Network r) (Net.net_IP (Network r)) = true.
Proof.
  unfold parseIPRange, index. unfold_M.
  destruct (parts !! 1%nat) as [countryCode|]; [|discriminate].
  destruct (parts !! 3%nat) as [startIP|]; [|discriminate].
  destruct (parts !! 2%nat) as [family|]; [|discriminate].
  assert (Hnet : forall prefixLen network,
             parseCIDR startIP prefixLen = (Some network, None) ->
             canonicalNet network).
  { intros prefixLen network. unfold parseCIDR.
    destruct (Net.ParseCIDR _) as [[a n] e] eqn:E. intros [= -> ->].
    eapply ParseCIDR_canonical. exact E. }
  destruct (String.eqb family "ipv4") eqn:E4.
  - apply String.eqb_eq in E4. subst family.
    destruct (parts !! 4%nat) as [field|]; [|discriminate].
    destruct (Str.ParseInt field) as [value [e|]]; [discriminate|].
    destruct (parseCIDR startIP _) as [[network|] [e|]] eqn:EC; try discriminate.
    intros [= <-]. cbn. apply Hnet in EC.
    repeat split; auto using canonicalNet_contains_base.
  - destruct (String.eqb family "ipv6") eqn:E6; [|discriminate].
    apply String.eqb_eq in E6. subst family.
    destruct (parts !! 4%nat) as [field|]; [|discriminate].
    destruct (Str.Atoi field) as [value [e|]]; [discriminate|].
    destruct (parseCIDR startIP _) as [[network|] [e|]] eqn:EC; try discriminate.
    intros [= <-]. cbn. apply Hnet in EC.
    repeat split; auto using canonicalNet_contains_base.
Qed.

Lemma parseIPRange_result_witness :
  @parseIPRange amd64 sampleParts = Return (usRange, None)
  /\ ID usRange = 0
  /\ sampleParts !! 1%nat = Some (CountryCode usRange)
  /\ ((sampleParts !! 2%nat = Some "ipv4" /\ Version usRange = 4)
      \/ (sampleParts !! 2%nat = Some "ipv6" /\ Version usRange = 6))
  /\ canonicalNet (Network usRange)
  /\ Net.Contains (Network usRange) (Net.net_IP (Network usRange)) = true.
Proof.
  assert (E : @parseIPRange amd64 sampleParts = Return (usRange, None))
    by (vm_compute; reflexivity).
  split; [exact E|].
  exact (@parseIPRange_result amd64 sampleParts usRange E).
Defined.

(** The version tag follows the family field, not the address: an "ipv4"
    record with an IPv6 start is a 128-bit network tagged 4. *)
Example parseIPRange_family_mismatch :
  @parseIPRange amd64
    ["x"; "US"; "ipv4"; "2001:db8::"; "256"; "20100101"; "allocated"]
  = Return ({| ID := 0;
               Network := {| Net.net_IP := [32; 1; 13; 0; 0; 0; 0; 0;
                                            0; 0; 0; 0; 0; 0; 0; 0];
                             Net.net_Mask := [255; 255; 255; 0; 0; 0; 0; 0;
                                              0; 0; 0; 0; 0; 0; 0; 0] |};
               CountryCode := "US"; Version := 4 |}, None).
Proof. vm_compute. reflexivity. Qed.

(** ** What a fetch and a cycle of fetches return *)

Section FetchResults.
Context {W : Type} `{Platform} `{Transport W}.

Lemma fetchWithTimeout_success_counts (url : string) (w w' : W) ranges stats :
  fetchWithTimeout url w = (Return (ranges, stats, None), w') ->
  Z.of_nat (length ranges) = IPv4Count stats + IPv6Count stats.
Proof.
  unfold fetchWithTimeout. unfold_M.
  destruct (Get url w) as [[o|p] w1]; [|discriminate].
  destruct o as [e|e|status lines scanErr]; try discriminate.
  destruct (negb (status =? StatusOK)); [discriminate|].
  destruct (scanLines_spec lines [] zeroStats) as (r & s & E & Hc).
  rewrite E. destruct scanErr; [discriminate|].
  intros [= <- <- <-]. simpl in Hc. lia.
Qed.

Lemma retry_result (url : string) attempts lastErr (w w' : W) ranges stats err :
  retry url attempts lastErr w = (Return (ranges, stats, err), w') ->
  match err with
  | None => Z.of_nat (length ranges) = IPv4Count stats + IPv6Count stats
  | Some e =>
      ranges = [] /\ stats = zeroStats
      /\ exists last,
           e = FailedAfterAttempts maxRetries last
           /\ (last = None -> lastErr = None /\ attempts = [])
  end.
Proof.
  revert lastErr w. induction attempts as [|attempt rest IH]; intros lastErr w.
  - cbn. intros [= <- <- <- <-]. eauto 10.
  - cbn [retry]. unfold_M.
    destruct ((if 0 <? attempt then Sleep (attempt * 5 * Second)
               else fun w0 => (Return tt, w0)) w) as [[[]|p] w0]; [|discriminate].
    destruct (fetchWithTimeout url w0) as [[[[r s] e]|p] w1] eqn:EF; [|discriminate].
    destruct e as [e|].
    + intros E. apply IH in E. destruct err as [e'|]; [|exact E].
      destruct E as (-> & -> & last & -> & Hlast).
      split; [reflexivity|]. split; [reflexivity|].
      exists last. split; [reflexivity|].
      intros Hn. destruct (Hlast Hn) as [? _]. discriminate.
    + intros [= <- <- <- <-]. eapply fetchWithTimeout_success_counts. exact EF.
Qed.


Lemma fetchAll_totals_gen rirs allRanges errors totals (w w' : W)
      allRanges' errors' totals' :
  fetchAll rirs allRanges errors totals w
  = (Return (allRanges', errors', totals'), w') ->
  TotalRanges totals' - Z.of_nat (length allRanges')
  = TotalRanges totals - Z.of_nat (length allRanges)
  /\ IPv4Ranges totals' + IPv6Ranges totals' - TotalRanges totals'
     = IPv4Ranges totals + IPv6Ranges totals - TotalRanges totals
  /\ (length errors' <= length errors + length rirs)%nat
  /\ (length allRanges <= length allRanges')%nat
  /\ (length errors' = length errors + length rirs -> allRanges' = allRanges)%nat.
Proof.
  revert allRanges errors totals w.
  induction rirs as [|rir rest IH]; intros allRanges errors totals w.
  - cbn. intros [= <- <- <- <-]. repeat split; try lia.
  - cbn [fetchAll]. unfold_M.
    destruct (FetchIPRanges (URL rir) w) as [[[[r s] e]|p] w1] eqn:EF;
      [|discriminate].
    destruct e as [e|].
    + intros E. apply IH in E as (Ht & Hv & Hl & Ha & He).
      rewrite length_app in *. cbn [length] in *.
      repeat split; try lia. intros Hlen. apply He. lia.
    + intros E. apply IH in E as (Ht & Hv & Hl & Ha & He).
      unfold FetchIPRanges in EF. apply retry_result in EF.
      rewrite length_app in *.
      cbn [addStats TotalRanges IPv4Ranges IPv6Ranges length] in *.
      repeat split; lia.
Qed.

(** X4. The totals of a cycle agree with what it aggregated: the total is
    the number of aggregated ranges, the IPv4 and IPv6 totals add up to it,
    and there is at most one recorded error per configured source; when
    every source has an error nothing was aggregated. *)
Theorem fetchAll_totals rirs (w w' : W) allRanges errors totals :
  fetchAll rirs [] [] zeroTotals w = (Return (allRanges, errors, totals), w') ->
  TotalRanges totals = Z.of_nat (length allRanges)
  /\ IPv4Ranges totals + IPv6Ranges totals = TotalRanges totals
  /\ (length errors <= length rirs)%nat
  /\ (length errors = length rirs -> allRanges = []).
Proof.
  intros E. apply fetchAll_totals_gen in E as (Ht & Hv & Hl & Ha & He).
  cbn in *. repeat split; try lia. exact He.
Qed.

End FetchResults.


Lemma fetchAll_totals_witness :
  @fetchAll World amd64 _ defaultRIRs [] [] zeroTotals validWorld
  = (Return ([usRange; caRange], otherSourcesDown,
             addStats zeroTotals validStats [usRange; caRange]),
     (@fetchAll World amd64 _ defaultRIRs [] [] zeroTotals validWorld).2)
  /\ TotalRanges (addStats zeroTotals validStats [usRange; caRange])
     = Z.of_nat (length [usRange; caRange])
  /\ IPv4Ranges (addStats zeroTotals validStats [usRange; caRange])
     + IPv6Ranges (addStats zeroTotals validStats [usRange; caRange])
     = TotalRanges (addStats zeroTotals validStats [usRange; caRange])
  /\ (length otherSourcesDown <= length defaultRIRs)%nat
  /\ (length otherSourcesDown = length defaultRIRs -> [usRange; caRange] = []).
Proof.
  assert (E : @fetchAll World amd64 _ defaultRIRs [] [] zeroTotals validWorld
              = (Return ([usRange; caRange], otherSourcesDown,
                         addStats zeroTotals validStats [usRange; caRange]),
                 (@fetchAll World amd64 _ defaultRIRs [] [] zeroTotals validWorld).2))
    by (vm_compute; reflexivity).
  split; [exact E|].
  exact (@fetchAll_totals World amd64 _ _ _ _ _ _ _ E).
Defined.

(** ** The numeric key of an address *)

Lemma land_shifted_low x y n :
  0 <= y < 2 ^ n -> 0 <= n -> Z.land (x * 2 ^ n) y = 0.
Proof.
  intros Hy Hn.
  apply Z.bits_inj'. intros i Hi. rewrite Z.land_spec, Z.bits_0.
  destruct (Z.lt_ge_cases i n) as [Hlt|Hge].
  - rewrite Z.mul_pow2_bits_low by lia. reflexivity.
  - destruct (Z.eq_dec y 0) as [->|Hy0]; [rewrite Z.bits_0; apply andb_false_r|].
    rewrite (Z.bits_above_log2 y i); [apply andb_false_r|lia|].
    apply Z.log2_lt_pow2; [lia|].
    apply Z.lt_le_trans with (2 ^ n); [lia|].
    apply Z.pow_le_mono_r; lia.
Qed.

Lemma lor_shiftl_byte x y n :
  0 <= y < 2 ^ n -> 0 <= n ->
  Z.lor (Z.shiftl x n) y = x * 2 ^ n + y.
Proof.
  intros Hy Hn.
  rewrite Z.shiftl_mul_pow2 by lia.
  rewrite <- Z.lxor_lor by (apply land_shifted_low; assumption).
  symmetry. apply Z.add_nocarry_lxor. apply land_shifted_low; assumption.
Qed.

Lemma ipToInt_bytes a b c d :
  isByte a -> isByte b -> isByte c -> isByte d ->
  Redis.ipToInt [a; b; c; d] = a * 2 ^ 24 + b * 2 ^ 16 + c * 2 ^ 8 + d.
Proof.
  unfold isByte. intros Ha Hb Hc Hd. unfold Redis.ipToInt. cbn [Net.To4 length
    Nat.eqb Net.IPv4len nth].
  change (Z.shiftl a 24) with (Z.shiftl a 24).
  assert (E1 : Z.lor (Z.shiftl a 24) (Z.shiftl b 16) = (a * 2 ^ 8 + b) * 2 ^ 16).
  { replace (Z.shiftl a 24) with (Z.shiftl (Z.shiftl a 8) 16)
      by (rewrite Z.shiftl_shiftl by lia; reflexivity).
    rewrite <- Z.shiftl_lor. rewrite (lor_shiftl_byte a b 8) by lia.
    apply Z.shiftl_mul_pow2. lia. }
  rewrite E1.
  assert (E2 : Z.lor ((a * 2 ^ 8 + b) * 2 ^ 16) (Z.shiftl c 8)
               = ((a * 2 ^ 8 + b) * 2 ^ 8 + c) * 2 ^ 8).
  { replace ((a * 2 ^ 8 + b) * 2 ^ 16) with (Z.shiftl (Z.shiftl (a * 2 ^ 8 + b) 8) 8)
      by (rewrite Z.shiftl_shiftl by lia; rewrite Z.shiftl_mul_pow2 by lia; reflexivity).
    rewrite <- Z.shiftl_lor. rewrite (lor_shiftl_byte (a * 2 ^ 8 + b) c 8) by lia.
    apply Z.shiftl_mul_pow2. lia. }
  rewrite E2.
  replace (((a * 2 ^ 8 + b) * 2 ^ 8 + c) * 2 ^ 8)
    with (Z.shiftl ((a * 2 ^ 8 + b) * 2 ^ 8 + c) 8)
    by (apply Z.shiftl_mul_pow2; lia).
  rewrite (lor_shiftl_byte ((a * 2 ^ 8 + b) * 2 ^ 8 + c) d 8) by lia.
  lia.
Qed.

(** X5. The numeric key of an IPv4 address is the big-endian value of its
    four octets, the same for the 4-byte and the 16-byte form of the
    address; it lies below 2^32 and two addresses with the same key have the
    same octets.  Every address that is not IPv4 has the key 0. *)
Theorem ipToInt_big_endian (a b c d a' b' c' d' : Z) :
  isByte a -> isByte b -> isByte c -> isByte d ->
  isByte a' -> isByte b' -> isByte c' -> isByte d' ->
  Redis.ipToInt [a; b; c; d] = a * 2 ^ 24 + b * 2 ^ 16 + c * 2 ^ 8 + d
  /\ Redis.ipToInt (Net.v4InV6Prefix ++ [a; b; c; d]) = Redis.ipToInt [a; b; c; d]
  /\ 0 <= Redis.ipToInt [a; b; c; d] < 2 ^ 32
  /\ (Redis.ipToInt [a; b; c; d] = Redis.ipToInt [a'; b'; c'; d'] ->
      [a; b; c; d] = [a'; b'; c'; d'])
  /\ (forall ip, Net.To4 ip = None -> Redis.ipToInt ip = 0).
Proof.
  intros Ha Hb Hc Hd Ha' Hb' Hc' Hd'.
  assert (E16 : Redis.ipToInt (Net.v4InV6Prefix ++ [a; b; c; d])
                = Redis.ipToInt [a; b; c; d]) by reflexivity.
  rewrite E16, !ipToInt_bytes by assumption.
  unfold isByte in *.
  split; [reflexivity|]. split; [reflexivity|]. split; [lia|].
  split.
  - intros E.
    assert (a = a' /\ b = b' /\ c = c' /\ d = d') as (-> & -> & -> & ->) by lia.
    reflexivity.
  - intros ip E. unfold Redis.ipToInt. rewrite E. reflexivity.
Qed.

Lemma ipToInt_big_endian_witness :
  isByte 8 /\ isByte 8 /\ isByte 4 /\ isByte 4
  /\ isByte 10 /\ isByte 0 /\ isByte 0 /\ isByte 1
  /\ Redis.ipToInt [8; 8; 4; 4] = 8 * 2 ^ 24 + 8 * 2 ^ 16 + 4 * 2 ^ 8 + 4
  /\ Redis.ipToInt (Net.v4InV6Prefix ++ [8; 8; 4; 4]) = Redis.ipToInt [8; 8; 4; 4]
  /\ 0 <= Redis.ipToInt [8; 8; 4; 4] < 2 ^ 32
  /\ (Redis.ipToInt [8; 8; 4; 4] = Redis.ipToInt [10; 0; 0; 1] ->
      [8; 8; 4; 4] = [10; 0; 0; 1])
  /\ (forall ip, Net.To4 ip = None -> Redis.ipToInt ip = 0).
Proof.
  assert (B : forall b, 0 <= b < 256 -> isByte b) by (intros b Hb; exact Hb).
  repeat (split; [apply B; lia|]).
  apply (ipToInt_big_endian 8 8 4 4 10 0 0 1); apply B; lia.
Defined.

(** ** Maps filled by a loop *)

Lemma foldl_insert_lookup {K V A : Type} `{Countable K}
      (key : A -> K) (val : A -> V) (l : list A) (m : gmap K V) (k : K) :
  foldl (fun m r => <[key r := val r]> m) m l !! k
  = match lastWith (fun r => bool_decide (key r = k)) l with
    | Some r => Some (val r)
    | None => m !! k
    end.
Proof.
  induction l as [|x l IH] using rev_ind; [reflexivity|].
  rewrite foldl_app. cbn [foldl]. unfold lastWith in *.
  rewrite List.filter_app. cbn [List.filter].
  destruct (bool_decide (key x = k)) eqn:E.
  - apply bool_decide_eq_true in E. subst k.
    rewrite last_snoc. apply lookup_insert_eq.
  - apply bool_decide_eq_false in E.
    rewrite app_nil_r, lookup_insert_ne by exact E. exact IH.
Qed.

(** ** Tier 1 of the cache *)

Lemma tier1_key_inj (a b : string) : "ip:" +:+ a = "ip:" +:+ b -> a = b.
Proof. intros E. injection E. auto. Qed.

(** X6. A country written to tier 1 is what the next read of the same
    address returns, and the write touches no other key and no other
    store. *)
Theorem SetCountry_then_GetCountry (ip countryCode : string) (w : World) :
  callsSucceed 2 w ->
  exists w1,
    Redis.SetCountry ip countryCode w = (Return None, w1)
    /\ Redis.GetCountry ip w1 = (Return (countryCode, None), afterCalls 1 w1)
    /\ (forall ip', ip' <> ip ->
          redis_kv w1 !! ("ip:" +:+ ip') = redis_kv w !! ("ip:" +:+ ip'))
    /\ pg_ip_ranges w1 = pg_ip_ranges w
    /\ redis_ipranges w1 = redis_ipranges w.
Proof.
  intros H2. apply callsSucceed_S in H2 as [H1 H2].
  apply callsSucceed_S in H2 as [H2 _].
  unfold Redis.SetCountry, Redis.GetCountry. unfold_M.
  rewrite call_spec, H1. cbn [gets modify].
  eexists. split; [reflexivity|].
  rewrite call_spec.
  split.
  - match goal with |- context [nextFault ?x] =>
      change (nextFault x) with (nextFault (afterCalls 1 w)) end.
    rewrite H2. cbn [gets].
    match goal with |- context [redis_kv ?x !! _] =>
      change (redis_kv x) with (<["ip:" +:+ ip := countryCode]> (redis_kv w)) end.
    rewrite lookup_insert_eq. reflexivity.
  - split; [|split; reflexivity].
    intros ip' Hne.
    match goal with |- context [redis_kv ?x !! _] =>
      change (redis_kv x) with (<["ip:" +:+ ip := countryCode]> (redis_kv w)) end.
    apply lookup_insert_ne. intros E. apply tier1_key_inj in E. congruence.
Qed.

Lemma SetCountry_then_GetCountry_witness :
  callsSucceed 2 emptyWorld
  /\ exists w1,
       Redis.SetCountry "8.8.8.8" "US" emptyWorld = (Return None, w1)
       /\ Redis.GetCountry "8.8.8.8" w1 = (Return ("US", None), afterCalls 1 w1)
       /\ (forall ip', ip' <> "8.8.8.8" ->
             redis_kv w1 !! ("ip:" +:+ ip') = redis_kv emptyWorld !! ("ip:" +:+ ip'))
       /\ pg_ip_ranges w1 = pg_ip_ranges emptyWorld
       /\ redis_ipranges w1 = redis_ipranges emptyWorld.
Proof.
  assert (H : callsSucceed 2 emptyWorld) by constructor.
  split; [exact H|]. exact (SetCountry_then_GetCountry "8.8.8.8" "US" emptyWorld H).
Defined.

(** ** Tier 2 of the cache *)

(** X7. A rebuild of tier 2 that succeeds replaces the whole index: what
    was there before is gone, and every member carries the score of the
    last range of the list that produces it.  Ranges of one country with
    masks of one length share a member, so only the last of them is
    indexed. *)
Theorem CacheIPRanges_last_range_wins (ranges : list IPRange) (w w' : World) :
  Redis.CacheIPRanges ranges w = (Return None, w') ->
  (forall m,
     redis_ipranges w' !! m
     = Redis.score
         <$> lastWith (fun r => bool_decide (Redis.member r = m)) ranges)
  /\ (size (redis_ipranges w') <= length ranges)%nat
  /\ pg_ip_ranges w' = pg_ip_ranges w
  /\ redis_kv w' = redis_kv w.
Proof.
  rewrite CacheIPRanges_spec.
  destruct (nextFault w) eqn:Ef; [discriminate|].
  intros [= <-]. cbn [redis_ipranges with_ipranges pg_ip_ranges redis_kv].
  split; [|split; [|split; reflexivity]].
  - intros m. unfold Redis.zaddAll.
    rewrite (foldl_insert_lookup Redis.member Redis.score ranges ∅ m).
    destruct (lastWith _ ranges); [reflexivity|apply lookup_empty].
  - unfold Redis.zaddAll.
    assert (G : forall l (z : gmap string Z),
               (size (foldl (fun z r => <[Redis.member r := Redis.score r]> z) z l)
                <= size z + length l)%nat).
    { induction l as [|r l IH]; intros z; cbn [foldl length]; [lia|].
      specialize (IH (<[Redis.member r := Redis.score r]> z)).
      pose proof (map_size_insert (Redis.member r) (Redis.score r) z) as Hs.
      destruct (z !! Redis.member r); unfold id in Hs; lia. }
    specialize (G ranges ∅). rewrite map_size_empty in G. exact G.
Qed.

(** Two /16 ranges of one country. *)
Example CacheIPRanges_same_member :
  exists w',
    Redis.CacheIPRanges
      [usRange;
       {| ID := 0;
          Network := {| Net.net_IP := [172; 16; 0; 0];
                        Net.net_Mask := [255; 255; 0; 0] |};
          CountryCode := "US"; Version := 4 |}] emptyWorld
    = (Return None, w')
    /\ map_to_list (redis_ipranges w') = [("US|ffff0000", 2886729728)].
Proof. eexists. split; vm_compute; reflexivity. Qed.

Lemma CacheIPRanges_last_range_wins_witness :
  Redis.CacheIPRanges [usRange; deRange] emptyWorld
  = (Return None, tier2Of [usRange; deRange])
  /\ (forall m,
        redis_ipranges (tier2Of [usRange; deRange]) !! m
        = Redis.score
            <$> lastWith (fun r => bool_decide (Redis.member r = m))
                         [usRange; deRange])
  /\ (size (redis_ipranges (tier2Of [usRange; deRange]))
      <= length [usRange; deRange])%nat
  /\ pg_ip_ranges (tier2Of [usRange; deRange]) = pg_ip_ranges emptyWorld
  /\ redis_kv (tier2Of [usRange; deRange]) = redis_kv emptyWorld.
Proof.
  assert (H : Redis.CacheIPRanges [usRange; deRange] emptyWorld
              = (Return None, tier2Of [usRange; deRange])) by reflexivity.
  split; [exact H|].
  exact (CacheIPRanges_last_range_wins [usRange; deRange] emptyWorld _ H).
Defined.

(** What [ZREVRANGEBYSCORE] returns has a score between the bounds. *)
Lemma ZRevRangeByScore1_in_range (z : gmap string Z) min max m rest :
  Redis.ZRevRangeByScore1 z min max = m :: rest ->
  exists s, z !! m = Some s /\ min <= s <= max.
Proof.
  unfold Redis.ZRevRangeByScore1.
  set (l := filter _ (map_to_list z)).
  assert (Hl : forall e, e ∈ l -> z !! e.1 = Some e.2 /\ min <= e.2 <= max).
  { intros [k v] [Hr Hin]%list_elem_of_filter. split; [|exact Hr].
    apply elem_of_map_to_list. exact Hin. }
  clearbody l.
  assert (Hbest : forall best,
             foldr (fun e best =>
                      match best with
                      | None => Some e
                      | Some b => if Redis.zlt b e then Some e else Some b
                      end) None l = Some best -> best ∈ l).
  { induction l as [|e l IH]; cbn [foldr]; [discriminate|].
    intros best.
    destruct (foldr _ None l) as [b|] eqn:E.
    - destruct (Redis.zlt b e); intros [= <-]; [left|].
      right. apply IH; [|reflexivity].
      intros e' He'. apply Hl. right. exact He'.
    - intros [= <-]. left. }
  destruct (foldr _ None l) as [best|]; [|discriminate].
  intros [= <- _]. exists best.2. apply Hl, Hbest. reflexivity.
Qed.

(** X8. A tier-2 read always returns: it never dereferences a nil network.
    It makes one call to Redis and changes no store, and it returns a
    country only without an error. *)
Theorem GetCachedRange_returns (ip : Net.IP) (w : World) :
  exists c err,
    Redis.GetCachedRange ip w = (Return (c, err), afterCalls 1 w)
    /\ (c <> EmptyString -> err = None)
    /\ (forall e, nextFault w = Some e -> c = EmptyString /\ err = Some e).
Proof.
  unfold Redis.GetCachedRange. unfold_M. rewrite call_spec.
  destruct (nextFault w) as [e|].
  { exists EmptyString, (Some e). repeat split; congruence. }
  cbn [gets].
  destruct (Redis.ZRevRangeByScore1 _ _ _) as [|range0 rest].
  { exists EmptyString, None. repeat split; congruence. }
  destruct (Str.Split "|" range0) as [|cc [|mask [|x xs]]];
    try (exists EmptyString, (Some InvalidRangeFormat); repeat split; congruence).
  destruct (Net.ParseCIDR _) as [[i n] e] eqn:EP.
  destruct e as [e|].
  { exists EmptyString, (Some e). repeat split; congruence. }
  destruct (ParseCIDR_network _ _ _ EP) as [network ->].
  destruct (Net.Contains network ip).
  - exists cc, None. repeat split; congruence.
  - exists EmptyString, None. repeat split; congruence.
Qed.

(** X9. With no start value at or below the key of the address, and so
    with an empty index, a tier-2 read that reaches Redis is a miss without
    an error. *)
Theorem GetCachedRange_nothing_below (ip : Net.IP) (w : World) :
  nextFault w = None ->
  (forall m s, redis_ipranges w !! m = Some s -> Redis.ipToInt ip < s) ->
  Redis.GetCachedRange ip w = (Return (EmptyString, None), afterCalls 1 w).
Proof.
  intros Hf Hs. unfold Redis.GetCachedRange. unfold_M. rewrite call_spec, Hf.
  cbn [gets]. change (redis_ipranges (afterCalls 1 w)) with (redis_ipranges w).
  destruct (Redis.ZRevRangeByScore1 _ _ _) as [|range0 rest] eqn:EZ;
    [reflexivity|].
  apply ZRevRangeByScore1_in_range in EZ as (s & Es & Hr).
  apply Hs in Es. lia.
Qed.

Lemma GetCachedRange_nothing_below_witness :
  nextFault (tier2Of [usRange]) = None
  /\ (forall m s, redis_ipranges (tier2Of [usRange]) !! m = Some s ->
        Redis.ipToInt [10; 1; 2; 3] < s)
  /\ Redis.GetCachedRange [10; 1; 2; 3] (tier2Of [usRange])
     = (Return (EmptyString, None), afterCalls 1 (tier2Of [usRange])).
Proof.
  assert (Hf : nextFault (tier2Of [usRange]) = None) by reflexivity.
  assert (Hs : forall m s, redis_ipranges (tier2Of [usRange]) !! m = Some s ->
                 Redis.ipToInt [10; 1; 2; 3] < s).
  { intros m s.
    change (redis_ipranges (tier2Of [usRange]))
      with (<[Redis.member usRange := Redis.score usRange]> (∅ : gmap string Z)).
    destruct (decide (Redis.member usRange = m)) as [<-|Hne].
    - rewrite lookup_insert_eq. intros [= <-]. vm_compute. reflexivity.
    - rewrite lookup_insert_ne, lookup_empty by exact Hne. discriminate. }
  split; [exact Hf|]. split; [exact Hs|].
  exact (GetCachedRange_nothing_below [10; 1; 2; 3] (tier2Of [usRange]) Hf Hs).
Defined.

Lemma GetCachedRange_never_hits_witness :
  (forall r, r ∈ [deRange] -> prefixMask (Net.net_Mask (Network r)))
  /\ redis_ipranges (tier2Of [deRange]) = Redis.zaddAll [deRange] ∅
  /\ exists c,
       Redis.GetCachedRange [10; 1; 2; 3] (tier2Of [deRange])
       = (Return (c, Some (CIDRParseError "10.1.2.3/ff000000")),
          afterCalls 1 (tier2Of [deRange]))
       /\ c = EmptyString.
Proof.
  assert (Hm : forall r, r ∈ [deRange] -> prefixMask (Net.net_Mask (Network r))).
  { intros r ->%list_elem_of_singleton. left. exists 8.
    split; [lia|reflexivity]. }
  assert (Hz : redis_ipranges (tier2Of [deRange]) = Redis.zaddAll [deRange] ∅)
    by reflexivity.
  assert (Hg : Redis.GetCachedRange [10; 1; 2; 3] (tier2Of [deRange])
               = (Return (EmptyString, Some (CIDRParseError "10.1.2.3/ff000000")),
                  afterCalls 1 (tier2Of [deRange])))
    by (vm_compute; reflexivity).
  split; [exact Hm|]. split; [exact Hz|].
  exists EmptyString. split; [exact Hg|].
  exact (GetCachedRange_never_hits [deRange] [10; 1; 2; 3] (tier2Of [deRange])
           _ _ _ Hm Hz Hg).
Defined.

(** ** The range store *)

(** X11. A bulk save always returns, and with an error it has changed
    nothing: the table is as it was before the transaction began.  Redis is
    not touched either way. *)
Theorem SaveIPRanges_all_or_nothing (ranges : list IPRange) (w : World) :
  exists err w',
    Postgres.SaveIPRanges ranges w = (Return err, w')
    /\ redis_kv w' = redis_kv w
    /\ redis_ipranges w' = redis_ipranges w
    /\ (err <> None -> pg_ip_ranges w' = pg_ip_ranges w).
Proof.
  destruct (SaveIPRanges_any ranges w) as (err & n & E).
  exists err. eexists. split; [exact E|].
  destruct err as [e|];
    cbn [redis_kv redis_ipranges pg_ip_ranges with_pg afterCalls failing];
    repeat split; congruence.
Qed.

(** X20. A bulk save that succeeds leaves every network of the list with
    the country and the version of the last range of the list that has
    that network, the earlier ones being overwritten, and leaves the rows
    of the other networks as they were. *)
Theorem SaveIPRanges_last_write_wins (ranges : list IPRange) (w w' : World) :
  Forall storable ranges ->
  Postgres.SaveIPRanges ranges w = (Return None, w') ->
  forall k,
    pg_ip_ranges w' !! k
    = match lastWith (fun r => bool_decide (Postgres.rowKey r = k)) ranges with
      | Some r => Some (CountryCode r, Version r)
      | None => pg_ip_ranges w !! k
      end.
Proof.
  intros _ E k.
  destruct (SaveIPRanges_any ranges w) as ([e|] & n & E'); rewrite E' in E;
    [discriminate|].
  injection E as <-. cbn [pg_ip_ranges with_pg].
  exact (foldl_insert_lookup Postgres.rowKey
           (fun r => (CountryCode r, Version r)) ranges (pg_ip_ranges w) k).
Qed.

Lemma storable_v4 (a b c d k : Z) (cc : string) (id version : Z) :
  0 <= k <= 32 ->
  Net.and_bytes [a; b; c; d] (Net.CIDRMask k 32) = [a; b; c; d] ->
  String.length cc = 2%nat ->
  storable {| ID := id;
              Network := {| Net.net_IP := [a; b; c; d];
                            Net.net_Mask := Net.CIDRMask k 32 |};
              CountryCode := cc; Version := version |}.
Proof.
  intros Hk Hand Hcc. split; [|split; [discriminate|exact Hcc]].
  exists 32, k. repeat split; try assumption; try lia.
Qed.

Lemma SaveIPRanges_last_write_wins_witness :
  Forall storable [deRange; frRange]
  /\ Postgres.SaveIPRanges [deRange; frRange] emptyWorld
     = (Return None, nestedWorld)
  /\ forall k,
       pg_ip_ranges nestedWorld !! k
       = match lastWith (fun r => bool_decide (Postgres.rowKey r = k))
                        [deRange; frRange] with
         | Some r => Some (CountryCode r, Version r)
         | None => pg_ip_ranges emptyWorld !! k
         end.
Proof.
  assert (Hs : Forall storable [deRange; frRange]).
  { constructor; [|constructor; [|constructor]].
    - apply (storable_v4 10 0 0 0 8); [lia|reflexivity|reflexivity].
    - apply (storable_v4 10 1 0 0 16); [lia|reflexivity|reflexivity]. }
  assert (HE : Postgres.SaveIPRanges [deRange; frRange] emptyWorld
               = (Return None, nestedWorld)) by reflexivity.
  split; [exact Hs|]. split; [exact HE|].
  exact (SaveIPRanges_last_write_wins [deRange; frRange] emptyWorld _ Hs HE).
Defined.

Lemma bitcmp_Eq (a b : list bool) :
  length a = length b -> Postgres.bitcmp a b = Eq -> a = b.
Proof.
  revert b. induction a as [|x a IH]; intros [|y b]; cbn; try discriminate;
    [reflexivity|].
  intros [= Hl]. destruct x, y; try discriminate; intros E;
    f_equal; apply IH; assumption.
Qed.

Lemma bitcmp_refl (a : list bool) : Postgres.bitcmp a a = Eq.
Proof. induction a as [|[] a IH]; cbn; auto. Qed.

Lemma bitsOf_length (b : list Z) : length (Postgres.bitsOf b) = (8 * length b)%nat.
Proof.
  unfold Postgres.bitsOf. induction b as [|x b IH]; [reflexivity|].
  cbn [flat_map]. rewrite length_app, IH. cbn [map length]. lia.
Qed.

Lemma take_eq_le {A : Type} (x y : list A) (n m : nat) :
  (m <= n)%nat -> take n x = take n y -> take m x = take m y.
Proof.
  intros Hle E. replace m with (Nat.min m n) by lia.
  rewrite <- !take_take, E. reflexivity.
Qed.

(** Two networks that contain one address agree on the bits of the shorter
    prefix. *)
Lemma bitncmp_common (a b addr : list Z) (ma mb : Z) :
  length a = length addr -> length b = length addr ->
  Postgres.bitncmp a addr ma = Eq -> Postgres.bitncmp b addr mb = Eq ->
  Postgres.bitncmp a b (Z.min ma mb) = Eq.
Proof.
  unfold Postgres.bitncmp. intros La Lb Ea Eb.
  apply bitcmp_Eq in Ea; [|rewrite !length_take, !bitsOf_length; lia].
  apply bitcmp_Eq in Eb; [|rewrite !length_take, !bitsOf_length; lia].
  assert (Ha : (Z.to_nat (Z.min ma mb) <= Z.to_nat ma)%nat) by lia.
  assert (Hb : (Z.to_nat (Z.min ma mb) <= Z.to_nat mb)%nat) by lia.
  rewrite (take_eq_le _ _ _ _ Ha Ea), (take_eq_le _ _ _ _ Hb Eb).
  apply bitcmp_refl.
Qed.

(** Among networks that contain one address the order of PostgreSQL is the
    order of the prefix lengths first. *)
Lemma network_cmp_containing (k k' : cidr) (addr : list Z) :
  Postgres.strictlyContains k addr = true ->
  Postgres.strictlyContains k' addr = true ->
  (Postgres.network_cmp k k' = Lt ->
   Postgres.maskBits k.2 <= Postgres.maskBits k'.2)
  /\ (Postgres.network_cmp k k' <> Lt ->
      Postgres.maskBits k'.2 <= Postgres.maskBits k.2).
Proof.
  unfold Postgres.strictlyContains.
  intros [[La _]%andb_prop Ea]%andb_prop [[Lb _]%andb_prop Eb]%andb_prop.
  apply Nat.eqb_eq in La, Lb.
  destruct (Postgres.bitncmp k.1 addr _) eqn:Ca; try discriminate.
  destruct (Postgres.bitncmp k'.1 addr _) eqn:Cb; try discriminate.
  unfold Postgres.network_cmp.
  rewrite (proj2 (Nat.eqb_eq _ _)) by congruence.
  rewrite (bitncmp_common _ _ addr _ _ La Lb Ca Cb).
  destruct (Z.compare_spec (Postgres.maskBits k.2) (Postgres.maskBits k'.2)) as [E|E|E].
  - split; intros _; lia.
  - split; [intros _; lia|congruence].
  - split; [discriminate|intros _; lia].
Qed.

(** The row that [ORDER BY network ASC LIMIT 1] keeps. *)
Lemma selectCountry_spec (t : gmap cidr (string * Z)) (addr : list Z) :
  match Postgres.selectCountry t addr with
  | None =>
      forall k v, t !! k = Some v -> Postgres.strictlyContains k addr = false
  | Some c =>
      exists k version,
        t !! k = Some (c, version)
        /\ Postgres.strictlyContains k addr = true
        /\ forall k' v, t !! k' = Some v ->
             Postgres.strictlyContains k' addr = true ->
             Postgres.maskBits k.2 <= Postgres.maskBits k'.2
  end.
Proof.
  unfold Postgres.selectCountry.
  set (rows := filter _ (map_to_list t)).
  assert (Hrows : forall row, row ∈ rows <->
                    t !! row.1 = Some row.2
                    /\ Postgres.strictlyContains row.1 addr = true).
  { intros [k v]. unfold rows. rewrite list_elem_of_filter, elem_of_map_to_list.
    cbn. tauto. }
  clearbody rows.
  assert (Hbest :
    match foldr (fun row best =>
                   match best with
                   | None => Some row
                   | Some b => match Postgres.network_cmp row.1 b.1 with
                               | Lt => Some row
                               | _ => Some b
                               end
                   end) None rows with
    | None => rows = []
    | Some best =>
        best ∈ rows
        /\ forall row, row ∈ rows ->
             Postgres.maskBits best.1.2 <= Postgres.maskBits row.1.2
    end).
  { assert (Hc : forall row, row ∈ rows ->
                   Postgres.strictlyContains row.1 addr = true)
      by (intros row Hin; apply Hrows, Hin).
    clear Hrows. induction rows as [|row rows IH]; cbn [foldr]; [reflexivity|].
    assert (IH' := IH (fun r Hin => Hc r (list_elem_of_further _ _ _ Hin))).
    clear IH.
    destruct (foldr _ None rows) as [b|].
    - destruct IH' as [Hb Hmin].
      pose proof (network_cmp_containing row.1 b.1 addr
                    (Hc row (list_elem_of_here _ _))
                    (Hc b (list_elem_of_further _ _ _ Hb))) as [Hlt Hge].
      destruct (Postgres.network_cmp row.1 b.1) eqn:Ecmp.
      + split; [right; exact Hb|].
        intros r [->|Hin]%elem_of_cons; [apply Hge; discriminate|auto].
      + split; [left|].
        intros r [->|Hin]%elem_of_cons; [lia|].
        specialize (Hmin r Hin). specialize (Hlt eq_refl). lia.
      + split; [right; exact Hb|].
        intros r [->|Hin]%elem_of_cons; [apply Hge; discriminate|auto].
    - subst rows. split; [left|].
      intros r [->|Hin]%elem_of_cons; [lia|].
      apply elem_of_nil in Hin. destruct Hin. }
  destruct (foldr _ None rows) as [[k [c version]]|].
  - destruct Hbest as [Hin Hmin]. exists k, version.
    apply Hrows in Hin as [Hk Hc]. cbn in Hk, Hc. repeat split; try assumption.
    intros k' v Hk' Hc'. exact (Hmin (k', v) (proj2 (Hrows (k', v)) (conj Hk' Hc'))).
  - subst rows. intros k v Hk.
    destruct (Postgres.strictlyContains k addr) eqn:Hc; [|reflexivity].
    assert (Hin : (k, v) ∈ @nil (cidr * (string * Z)))
      by (apply Hrows; split; assumption).
    apply elem_of_nil in Hin. destruct Hin.
Qed.

(** X12. A query of the range store that returns without an error made one
    call and changed nothing.  It answers the unknown country when no
    stored network strictly contains the address; otherwise it answers
    with the country of a stored network that contains the address and
    whose prefix is shorter than the address, and no stored network that
    contains the address has a shorter prefix than that one: the least
    specific range decides. *)
Theorem FindCountryForIP_least_specific (ip : Net.IP) (w w' : World) (c : string) :
  Postgres.FindCountryForIP ip w = (Return (c, None), w') ->
  w' = afterCalls 1 w
  /\ ((c = unknownCountry
       /\ forall k v, pg_ip_ranges w !! k = Some v ->
            Postgres.strictlyContains k (pgAddr ip) = false)
      \/ exists k version,
           pg_ip_ranges w !! k = Some (c, version)
           /\ Postgres.strictlyContains k (pgAddr ip) = true
           /\ Postgres.maskBits k.2 < 8 * Z.of_nat (length (pgAddr ip))
           /\ forall k' v, pg_ip_ranges w !! k' = Some v ->
                Postgres.strictlyContains k' (pgAddr ip) = true ->
                Postgres.maskBits k.2 <= Postgres.maskBits k'.2).
Proof.
  unfold Postgres.FindCountryForIP. unfold_M. rewrite call_spec.
  destruct (nextFault w); [discriminate|].
  fold (pgAddr ip).
  destruct (negb _ && negb _); [discriminate|].
  cbn [gets]. change (pg_ip_ranges (afterCalls 1 w)) with (pg_ip_ranges w).
  pose proof (selectCountry_spec (pg_ip_ranges w) (pgAddr ip)) as Hs.
  destruct (Postgres.selectCountry _ _) as [c'|]; intros [= <- <-];
    (split; [reflexivity|]).
  - right. destruct Hs as (k & version & Hk & Hc & Hmin).
    exists k, version. repeat split; try assumption.
    unfold Postgres.strictlyContains in Hc.
    apply andb_prop in Hc as [[_ Hlt]%andb_prop _]. lia.
  - left. split; [reflexivity|exact Hs].
Qed.

Lemma FindCountryForIP_least_specific_witness :
  Postgres.FindCountryForIP ip10123 nestedWorld
  = (Return ("DE", None), afterCalls 1 nestedWorld)
  /\ afterCalls 1 nestedWorld = afterCalls 1 nestedWorld
  /\ (("DE" = unknownCountry
       /\ forall k v, pg_ip_ranges nestedWorld !! k = Some v ->
            Postgres.strictlyContains k (pgAddr ip10123) = false)
      \/ exists k version,
           pg_ip_ranges nestedWorld !! k = Some ("DE", version)
           /\ Postgres.strictlyContains k (pgAddr ip10123) = true
           /\ Postgres.maskBits k.2 < 8 * Z.of_nat (length (pgAddr ip10123))
           /\ forall k' v, pg_ip_ranges nestedWorld !! k' = Some v ->
                Postgres.strictlyContains k' (pgAddr ip10123) = true ->
                Postgres.maskBits k.2 <= Postgres.maskBits k'.2).
Proof.
  assert (H : Postgres.FindCountryForIP ip10123 nestedWorld
              = (Return ("DE", None), afterCalls 1 nestedWorld))
    by (vm_compute; reflexivity).
  split; [exact H|].
  exact (FindCountryForIP_least_specific ip10123 nestedWorld _ "DE" H).
Defined.

(** ** Lookups over the real stores *)

Lemma GetCountry_spec (ip : string) (w : World) :
  Redis.GetCountry ip w
  = (Return (match nextFault w with
             | Some e => (EmptyString, Some e)
             | None =>
                 match redis_kv w !! ("ip:" +:+ ip) with
                 | None => (EmptyString, None)
                 | Some c => (c, None)
                 end
             end), afterCalls 1 w).
Proof.
  unfold Redis.GetCountry. unfold_M. rewrite call_spec.
  destruct (nextFault w); [reflexivity|]. cbn [gets].
  change (redis_kv (afterCalls 1 w)) with (redis_kv w).
  destruct (redis_kv w !! _); reflexivity.
Qed.

Lemma SetCountry_spec (ip c : string) (w : World) :
  Redis.SetCountry ip c w
  = (Return (nextFault w),
     match nextFault w with
     | Some _ => afterCalls 1 w
     | None => with_kv (afterCalls 1 w) (<["ip:" +:+ ip := c]> (redis_kv w))
     end).
Proof.
  unfold Redis.SetCountry. unfold_M. rewrite call_spec.
  destruct (nextFault w); reflexivity.
Qed.

Lemma GetCachedRange_total (ip : Net.IP) (w : World) :
  exists r, Redis.GetCachedRange ip w = (Return r, afterCalls 1 w).
Proof.
  unfold Redis.GetCachedRange. unfold_M. rewrite call_spec.
  destruct (nextFault w); [eauto|]. cbn [gets].
  destruct (Redis.ZRevRangeByScore1 _ _ _) as [|range0 rest]; [eauto|].
  destruct (Str.Split "|" range0) as [|cc [|mask [|x xs]]]; eauto.
  destruct (Net.ParseCIDR _) as [[i n] e] eqn:EP.
  destruct e as [e|]; [eauto|].
  destruct (ParseCIDR_network _ _ _ EP) as [network ->].
  destruct (Net.Contains network ip); eauto.
Qed.

Lemma FindCountryForIP_total (ip : Net.IP) (w : World) :
  exists r, Postgres.FindCountryForIP ip w = (Return r, afterCalls 1 w).
Proof.
  unfold Postgres.FindCountryForIP. unfold_M. rewrite call_spec.
  destruct (nextFault w); [eauto|].
  destruct (negb _ && negb _); [eauto|]. cbn [gets].
  destruct (Postgres.selectCountry _ _); eauto.
Qed.


Lemma lookupLeaves_afterCalls ipStr (w : World) n :
  (n <= 4)%nat -> lookupLeaves ipStr w (afterCalls n w).
Proof. intros Hn. repeat split; eauto. Qed.

Lemma lookupLeaves_SetCountry ipStr c (w : World) n :
  (n < 4)%nat ->
  lookupLeaves ipStr w (Redis.SetCountry ipStr c (afterCalls n w)).2.
Proof.
  intros Hn. rewrite SetCountry_spec. rewrite nextFault_afterCalls.
  cbn [snd]. rewrite afterCalls_afterCalls.
  destruct (faults w !! n) as [[e|]|].
  - apply lookupLeaves_afterCalls. lia.
  - repeat split; cbn; eauto.
    + exists (n + 1)%nat. split; [lia|reflexivity].
    + intros k Hk. rewrite lookup_insert_ne by congruence. reflexivity.
  - repeat split; cbn; eauto.
    + exists (n + 1)%nat. split; [lia|reflexivity].
    + intros k Hk. rewrite lookup_insert_ne by congruence. reflexivity.
Qed.

(** X13. Over Redis and PostgreSQL a lookup always returns.  It makes at
    most four calls to the stores, sends no request, and leaves the range
    store and tier 2 as they were; in tier 1 it writes at most the entry of
    the address it was asked for. *)
Theorem LookupIP_frame (ipStr : string) (w : World) :
  exists r w',
    LookupIP ipStr w = (Return r, w')
    /\ pg_ip_ranges w' = pg_ip_ranges w
    /\ redis_ipranges w' = redis_ipranges w
    /\ http w' = http w
    /\ trace w' = trace w
    /\ (exists n, (n <= 4)%nat /\ faults w' = drop n (faults w))
    /\ forall k, k <> "ip:" +:+ ipStr -> redis_kv w' !! k = redis_kv w !! k.
Proof.
  change (exists r w', LookupIP ipStr w = (Return r, w') /\ lookupLeaves ipStr w w').
  unfold LookupIP. unfold_M.
  cbn [GetCountry SetCountry GetCachedRange FindCountryForIP
       Redis_Cache Postgres_Repository].
  rewrite GetCountry_spec.
  match goal with |- context [let '(_, _) := ?x in _] => destruct x as [c1 e1] end.
  destruct (isNil e1 && nonEmpty c1).
  { eexists _, _. split; [reflexivity|]. apply lookupLeaves_afterCalls. lia. }
  destruct (Nat.eqb _ 0).
  { eexists _, _. split; [reflexivity|]. apply lookupLeaves_afterCalls. lia. }
  destruct (GetCachedRange_total (Net.ParseIP ipStr) (afterCalls 1 w)) as [[c2 e2] ->].
  rewrite afterCalls_afterCalls. cbn [Nat.add].
  destruct (isNil e2 && nonEmpty c2).
  { pose proof (lookupLeaves_SetCountry ipStr c2 w 2 ltac:(lia)) as HL.
    destruct (Redis.SetCountry ipStr c2 (afterCalls 2 w)) as [[r|p] w3] eqn:ES.
    - eexists _, _. split; [reflexivity|exact HL].
    - rewrite SetCountry_spec in ES. discriminate. }
  destruct (FindCountryForIP_total (Net.ParseIP ipStr) (afterCalls 2 w))
    as [[c3 e3] ->].
  rewrite afterCalls_afterCalls. cbn [Nat.add].
  destruct e3 as [e3|].
  { eexists _, _. split; [reflexivity|]. apply lookupLeaves_afterCalls. lia. }
  destruct (negb (String.eqb c3 unknownCountry)).
  - pose proof (lookupLeaves_SetCountry ipStr c3 w 3 ltac:(lia)) as HL.
    destruct (Redis.SetCountry ipStr c3 (afterCalls 3 w)) as [[r|p] w3] eqn:ES.
    + eexists _, _. split; [reflexivity|exact HL].
    + rewrite SetCountry_spec in ES. discriminate.
  - eexists _, _. split; [reflexivity|]. apply lookupLeaves_afterCalls. lia.
Qed.

Lemma callsSucceed_nextFault (n i : nat) (w : World) :
  callsSucceed n w -> (i < n)%nat -> nextFault (afterCalls i w) = None.
Proof.
  unfold callsSucceed. intros Hc Hi. rewrite nextFault_afterCalls.
  destruct (faults w !! i) as [f|] eqn:E; [|reflexivity].
  rewrite Forall_lookup in Hc. apply (Hc i).
  rewrite lookup_take_lt by exact Hi. exact E.
Qed.

Lemma nonEmpty_true (s : string) : s <> EmptyString -> nonEmpty s = true.
Proof.
  intros Hs. unfold nonEmpty. destruct (String.eqb s EmptyString) eqn:E;
    [apply String.eqb_eq in E; contradiction|reflexivity].
Qed.

Lemma nonEmpty_neq (s : string) : nonEmpty s = true -> s <> EmptyString.
Proof.
  unfold nonEmpty. intros E ->. discriminate.
Qed.

(** A lookup whose tier-1 read succeeds and finds a country. *)
Lemma LookupIP_tier1_hit (ipStr c : string) (w : World) :
  nextFault w = None ->
  redis_kv w !! ("ip:" +:+ ipStr) = Some c ->
  c <> EmptyString ->
  LookupIP ipStr w
  = (Return (Some {| Resp_IP := ipStr; Resp_CountryCode := c |}, None),
     afterCalls 1 w).
Proof.
  intros Hf Hk Hc. unfold LookupIP. unfold_M.
  cbn [GetCountry Redis_Cache]. rewrite GetCountry_spec, Hf, Hk.
  cbn [isNil andb]. rewrite (nonEmpty_true c Hc). reflexivity.
Qed.

(** X14. While the calls to the stores succeed, a lookup that answered
    with a country other than the empty and the unknown one has left it in
    tier 1: the same lookup asked again is answered by its tier-1 read
    alone, with the same response. *)
Theorem LookupIP_again_hits_tier1 (ipStr : string) (w w' : World) (r : IPResponse) :
  callsSucceed 5 w ->
  LookupIP ipStr w = (Return (Some r, None), w') ->
  Resp_CountryCode r <> unknownCountry ->
  Resp_CountryCode r <> EmptyString ->
  LookupIP ipStr w' = (Return (Some r, None), afterCalls 1 w').
Proof.
  intros Hc.
  pose proof (callsSucceed_nextFault 5 0 w Hc ltac:(lia)) as H0.
  pose proof (callsSucceed_nextFault 5 1 w Hc ltac:(lia)) as H1.
  pose proof (callsSucceed_nextFault 5 2 w Hc ltac:(lia)) as H2.
  pose proof (callsSucceed_nextFault 5 3 w Hc ltac:(lia)) as H3.
  pose proof (callsSucceed_nextFault 5 4 w Hc ltac:(lia)) as H4.
  rewrite afterCalls_0 in H0.
  unfold LookupIP at 1. unfold_M.
  cbn [GetCountry SetCountry GetCachedRange FindCountryForIP
       Redis_Cache Postgres_Repository].
  rewrite GetCountry_spec, H0.
  destruct (match redis_kv w !! ("ip:" +:+ ipStr) with
            | Some c => (c, None)
            | None => (EmptyString, None)
            end) as [c1 e1] eqn:Ek.
  destruct (isNil e1 && nonEmpty c1) eqn:Hit.
  { apply andb_prop in Hit as [_ En].
    destruct (redis_kv w !! ("ip:" +:+ ipStr)) as [c|] eqn:Ek';
      injection Ek as <- <-; [|discriminate].
    intros [= <- <-] _ _. apply LookupIP_tier1_hit;
      [exact H1|exact Ek'|apply nonEmpty_neq, En]. }
  clear Ek Hit c1 e1.
  destruct (Nat.eqb _ 0); [discriminate|].
  destruct (GetCachedRange_total (Net.ParseIP ipStr) (afterCalls 1 w)) as [[c2 e2] ->].
  rewrite afterCalls_afterCalls. cbn [Nat.add].
  destruct (isNil e2 && nonEmpty c2) eqn:Hit.
  { apply andb_prop in Hit as [_ En].
    rewrite SetCountry_spec, H2, afterCalls_afterCalls. cbn [Nat.add].
    intros [= <- <-] _ _. apply LookupIP_tier1_hit.
    - exact H3.
    - cbn [redis_kv with_kv]. apply lookup_insert_eq.
    - apply nonEmpty_neq, En. }
  destruct (FindCountryForIP_total (Net.ParseIP ipStr) (afterCalls 2 w))
    as [[c3 e3] ->].
  rewrite afterCalls_afterCalls. cbn [Nat.add].
  destruct e3 as [e3|]; [discriminate|].
  destruct (negb (String.eqb c3 unknownCountry)) eqn:Eu.
  - rewrite SetCountry_spec, H3, afterCalls_afterCalls. cbn [Nat.add].
    intros [= <- <-] _ Hne. apply LookupIP_tier1_hit.
    + exact H4.
    + cbn [redis_kv with_kv]. apply lookup_insert_eq.
    + exact Hne.
  - intros [= <- <-] Hu _. exfalso. apply Hu. cbn [Resp_CountryCode].
    apply negb_false_iff, String.eqb_eq in Eu. exact Eu.
Qed.

(** ** The start of the service *)

(** X15. When the count of the table fails, or the table holds a row,
    [Start] makes that one call to the store and nothing else: no request
    is sent and no store changes.  It returns the wrapped error of the
    count, or nil. *)
Theorem Start_without_initial_load `{Platform} (config : Config) (w : World) :
  nextFault w <> None \/ pg_ip_ranges w <> ∅ ->
  Start config w
  = (Return (NamedError "checking data existence" <$> nextFault w),
     afterCalls 1 w).
Proof.
  intros Hw. unfold Start, checkDataExists. unfold_M.
  cbn [GetRangesCount Postgres_Repository]. unfold Postgres.GetRangesCount.
  unfold_M. rewrite call_spec.
  destruct (nextFault w) as [e|]; [reflexivity|].
  destruct Hw as [Hw|Hw]; [congruence|].
  cbn [gets]. change (pg_ip_ranges (afterCalls 1 w)) with (pg_ip_ranges w).
  assert (Hs : size (pg_ip_ranges w) <> 0%nat)
    by (intros E; apply map_size_empty_iff in E; contradiction).
  destruct (0 <? Z.of_nat (size (pg_ip_ranges w))) eqn:E;
    [reflexivity|apply Z.ltb_ge in E; lia].
Qed.

Lemma Start_without_initial_load_witness :
  (nextFault nestedWorld <> None \/ pg_ip_ranges nestedWorld <> ∅)
  /\ @Start World amd64 _ _ _ defaultConfig nestedWorld
     = (Return (NamedError "checking data existence" <$> nextFault nestedWorld),
        afterCalls 1 nestedWorld).
Proof.
  assert (Hw : nextFault nestedWorld <> None \/ pg_ip_ranges nestedWorld <> ∅).
  { right. apply insert_non_empty. }
  split; [exact Hw|].
  exact (@Start_without_initial_load amd64 defaultConfig nestedWorld Hw).
Defined.

(** On an empty table with nobody answering, the initial load fails and
    [Start] returns its error. *)
Example Start_empty_table_nobody_answers :
  exists e,
    (@Start World amd64 _ _ _ {| RIRs := [arin] |} emptyWorld).1
    = Return (Some (NamedError "initial IP ranges update failed"
                               (NoRangesFetched [e]))).
Proof. eexists. vm_compute. reflexivity. Qed.

(** ** The handler over the resolver *)

Section HandlerProperties.
Context {W : Type} {repo : Repository W} {cache : Cache W}.
Variable Error : error -> string.

(** A lookup that returns no error returns a response, for the address it
    was asked for. *)
Lemma LookupIP_success_has_response (ipStr : string) (w w' : W) resp :
  LookupIP ipStr w = (Return (resp, None), w') ->
  exists c, resp = Some {| Resp_IP := ipStr; Resp_CountryCode := c |}.
Proof.
  unfold LookupIP. unfold_M.
  destruct (GetCountry ipStr w) as [[[c1 err1]|p] w1]; [|discriminate].
  destruct (isNil err1 && nonEmpty c1); [intros [= <- _]; eauto|].
  destruct (Nat.eqb (length (Net.ParseIP ipStr)) 0); [discriminate|].
  destruct (GetCachedRange (Net.ParseIP ipStr) w1) as [[[c2 err2]|p] w2];
    [|discriminate].
  destruct (isNil err2 && nonEmpty c2).
  { destruct (SetCountry ipStr c2 w2) as [[?|?] ?]; [|discriminate].
    intros [= <- _]; eauto. }
  destruct (FindCountryForIP (Net.ParseIP ipStr) w2) as [[[c3 err3]|p] w3];
    [|discriminate].
  destruct err3 as [e3|]; [discriminate|].
  destruct (negb (String.eqb c3 unknownCountry)).
  - destruct (SetCountry ipStr c3 w3) as [[?|?] ?]; [|discriminate].
    intros [= <- _]; eauto.
  - intros [= <- _]; eauto.
Qed.

(** X16. Whenever the lookup of the service returns, the handler replies:
    it never reads the country of a nil result.  The reply is 200 with the
    response of the service when that carries a known country, 404 when it
    carries the unknown country, and 400 or 500 when the service returned
    an error. *)
Theorem Handler_LookupIP_replies (ip : string) (w w1 : W)
        (r : option IPResponse * option error) :
  ip <> EmptyString ->
  LookupIP ip w = (Return r, w1) ->
  exists status body,
    Handler_LookupIP Error LookupIP ip w = (Return (status, body), w1)
    /\ ((status = StatusOK
         /\ exists c, c <> unknownCountry
              /\ r = (Some {| Resp_IP := ip; Resp_CountryCode := c |}, None)
              /\ body = ResultBody {| Resp_IP := ip; Resp_CountryCode := c |})
        \/ (status = StatusNotFound
            /\ r = (Some {| Resp_IP := ip; Resp_CountryCode := unknownCountry |},
                    None))
        \/ ((status = StatusBadRequest \/ status = StatusInternalServerError)
            /\ exists e, r = (None, Some e))).
Proof.
  intros Hip HL. unfold Handler_LookupIP.
  destruct (String.eqb ip EmptyString) eqn:E;
    [apply String.eqb_eq in E; contradiction|].
  unfold_M. rewrite HL. destruct r as [resp [e|]].
  - destruct (LookupIP_errors cache ip w resp e w1 HL) as [-> _].
    destruct (Strings.Contains _ _); eexists _, _;
      (split; [reflexivity|]); right; right; eauto.
  - destruct (LookupIP_success_has_response ip w w1 resp HL) as [c ->].
    cbn [Resp_CountryCode].
    destruct (String.eqb c "ZZ") eqn:Ec; eexists _, _; (split; [reflexivity|]).
    + apply String.eqb_eq in Ec. subst c. right. left. split; reflexivity.
    + apply String.eqb_neq in Ec. left. split; [reflexivity|].
      exists c. repeat split. exact Ec.
Qed.

(** X17. A text that is no address and has no entry in tier 1 is answered
    with 400 and the text in the message; neither tier 2 nor the range
    store is asked. *)
Theorem Handler_LookupIP_invalid_address (ip c : string) (e : option error)
        (w w1 : W) :
  (forall s, Error (InvalidIPAddress s) = "invalid IP address: " +:+ s) ->
  ip <> EmptyString ->
  Net.ParseIP ip = [] ->
  GetCountry ip w = (Return (c, e), w1) ->
  isNil e && nonEmpty c = false ->
  Handler_LookupIP Error LookupIP ip w
  = (Return (StatusBadRequest,
             ErrorBody ("Invalid IP address format: " +:+ ip)), w1).
Proof.
  intros HE Hip Hparse HG Hmiss. unfold Handler_LookupIP.
  destruct (String.eqb ip EmptyString) eqn:E;
    [apply String.eqb_eq in E; contradiction|].
  unfold LookupIP. unfold_M. rewrite HG. cbv beta iota. rewrite Hmiss, Hparse.
  cbn [length Nat.eqb]. rewrite HE. reflexivity.
Qed.

End HandlerProperties.

Lemma LookupIP_again_hits_tier1_witness :
  callsSucceed 5 nestedWorld
  /\ LookupIP "10.1.2.3" nestedWorld
     = (Return (Some deResponse, None), (LookupIP "10.1.2.3" nestedWorld).2)
  /\ Resp_CountryCode deResponse <> unknownCountry
  /\ Resp_CountryCode deResponse <> EmptyString
  /\ LookupIP "10.1.2.3" (LookupIP "10.1.2.3" nestedWorld).2
     = (Return (Some deResponse, None),
        afterCalls 1 (LookupIP "10.1.2.3" nestedWorld).2).
Proof.
  assert (Hc : callsSucceed 5 nestedWorld) by constructor.
  assert (HL : LookupIP "10.1.2.3" nestedWorld
               = (Return (Some deResponse, None),
                  (LookupIP "10.1.2.3" nestedWorld).2))
    by (vm_compute; reflexivity).
  assert (Hu : Resp_CountryCode deResponse <> unknownCountry) by discriminate.
  assert (He : Resp_CountryCode deResponse <> EmptyString) by discriminate.
  repeat (split; [assumption|]).
  exact (LookupIP_again_hits_tier1 "10.1.2.3" nestedWorld _ deResponse Hc HL Hu He).
Defined.

Lemma Handler_LookupIP_replies_witness :
  "10.1.2.3" <> EmptyString
  /\ LookupIP "10.1.2.3" nestedWorld
     = (Return (Some deResponse, None), (LookupIP "10.1.2.3" nestedWorld).2)
  /\ exists status body,
       Handler_LookupIP sampleError LookupIP "10.1.2.3" nestedWorld
       = (Return (status, body), (LookupIP "10.1.2.3" nestedWorld).2)
       /\ ((status = StatusOK
            /\ exists c, c <> unknownCountry
                 /\ (Some deResponse, None)
                    = (Some {| Resp_IP := "10.1.2.3"; Resp_CountryCode := c |},
                       @None error)
                 /\ body = ResultBody {| Resp_IP := "10.1.2.3";
                                         Resp_CountryCode := c |})
           \/ (status = StatusNotFound
               /\ (Some deResponse, None)
                  = (Some {| Resp_IP := "10.1.2.3";
                             Resp_CountryCode := unknownCountry |}, @None error))
           \/ ((status = StatusBadRequest \/ status = StatusInternalServerError)
               /\ exists e, (Some deResponse, @None error) = (None, Some e))).
Proof.
  assert (Hip : "10.1.2.3" <> EmptyString) by discriminate.
  assert (HL : LookupIP "10.1.2.3" nestedWorld
               = (Return (Some deResponse, None),
                  (LookupIP "10.1.2.3" nestedWorld).2))
    by (vm_compute; reflexivity).
  split; [exact Hip|]. split; [exact HL|].
  exact (Handler_LookupIP_replies sampleError "10.1.2.3" nestedWorld _
           (Some deResponse, None) Hip HL).
Defined.

Lemma Handler_LookupIP_invalid_address_witness :
  (forall s, sampleError (InvalidIPAddress s) = "invalid IP address: " +:+ s)
  /\ "not-an-ip" <> EmptyString
  /\ Net.ParseIP "not-an-ip" = []
  /\ GetCountry "not-an-ip" emptyWorld
     = (Return (EmptyString, None), afterCalls 1 emptyWorld)
  /\ isNil None && nonEmpty EmptyString = false
  /\ Handler_LookupIP sampleError LookupIP "not-an-ip" emptyWorld
     = (Return (StatusBadRequest,
                ErrorBody ("Invalid IP address format: " +:+ "not-an-ip")),
        afterCalls 1 emptyWorld).
Proof.
  assert (HE : forall s, sampleError (InvalidIPAddress s)
                         = "invalid IP address: " +:+ s) by reflexivity.
  assert (Hip : "not-an-ip" <> EmptyString) by discriminate.
  assert (Hp : Net.ParseIP "not-an-ip" = []) by reflexivity.
  assert (HG : GetCountry "not-an-ip" emptyWorld
               = (Return (EmptyString, None), afterCalls 1 emptyWorld))
    by reflexivity.
  assert (Hm : isNil None && nonEmpty EmptyString = false) by reflexivity.
  repeat (split; [assumption|]).
  exact (Handler_LookupIP_invalid_address sampleError "not-an-ip" EmptyString None
           emptyWorld _ HE Hip Hp HG Hm).
Defined.

(** ** The calls of a lookup *)

(** X18. Whatever the collaborators answer, and also when one of them
    panics, a lookup calls them in one of five ways: the tier-1 read alone;
    then, for a text that parses only, the tier-2 read; then either the
    tier-1 write of a non-empty country, or the query of the range store,
    which a tier-1 write of a country other than the unknown one may
    follow.  It never saves, clears, counts or rebuilds. *)
Theorem LookupIP_calls (repo : mocks.MockRepository) (c : mocks.MockCache)
        (ipStr : string) (calls : list mocks.Call) :
  exists made,
    (mocks.LookupIP repo c ipStr calls).2 = calls ++ made
    /\ lookupCalls ipStr made.
Proof.
  unfold mocks.LookupIP, LookupIP, lookupCalls. unfold_M.
  cbn [GetCountry SetCountry GetCachedRange FindCountryForIP
       mocks.repository mocks.cache].
  unfold mocks.invoke.
  destruct (mocks.GetCountryFunc c) as [g1|]; cbn [option_map];
    [|eexists; split; [reflexivity|left; reflexivity]].
  destruct (g1 calls ipStr) as [c1 e1].
  destruct (isNil e1 && nonEmpty c1);
    [eexists; split; [reflexivity|left; reflexivity]|].
  destruct (Nat.eqb (length (Net.ParseIP ipStr)) 0) eqn:Hnil;
    [eexists; split; [reflexivity|left; reflexivity]|].
  assert (Hip : Net.ParseIP ipStr <> [])
    by (intros E; rewrite E in Hnil; discriminate).
  destruct (mocks.GetCachedRangeFunc c) as [g2|]; cbn [option_map];
    [|eexists; split; [rewrite <- app_assoc; reflexivity|right; split; [exact Hip|left; reflexivity]]].
  destruct (g2 _ _) as [c2 e2].
  destruct (isNil e2 && nonEmpty c2) eqn:Hit.
  { apply andb_prop in Hit as [_ Hne]. apply nonEmpty_neq in Hne.
    destruct (mocks.SetCountryFunc c) as [g3|]; cbn [option_map];
      (eexists; split; [rewrite <- !app_assoc; reflexivity|]);
      right; (split; [exact Hip|]); right; left; eauto. }
  destruct (mocks.FindCountryForIPFunc repo) as [g4|]; cbn [option_map];
    [|eexists; split; [rewrite <- !app_assoc; reflexivity|];
      right; split; [exact Hip|]; right; right; left; reflexivity].
  destruct (g4 _ _) as [c3 [e3|]];
    [eexists; split; [rewrite <- !app_assoc; reflexivity|];
     right; split; [exact Hip|]; right; right; left; reflexivity|].
  destruct (negb (String.eqb c3 unknownCountry)) eqn:Eu.
  - apply negb_true_iff, String.eqb_neq in Eu.
    destruct (mocks.SetCountryFunc c) as [g3|]; cbn [option_map];
      (eexists; split; [rewrite <- !app_assoc; reflexivity|]);
      right; (split; [exact Hip|]); right; right; right; eauto.
  - eexists; split; [rewrite <- !app_assoc; reflexivity|].
    right; split; [exact Hip|]; right; right; left; reflexivity.
Qed.

(** ** Containment in Go and in PostgreSQL *)

(** The byte of a mask with [j] leading ones. *)
Lemma mask_byte_bits (j i : Z) :
  0 <= j <= 8 -> 0 <= i ->
  Z.testbit (Z.lxor 255 (Z.shiftr 255 j)) i = (8 - j <=? i) && (i <? 8).
Proof.
  intros Hj Hi. rewrite Z.lxor_spec, Z.shiftr_spec by lia.
  change 255 with (Z.ones 8). rewrite !Z.testbit_ones by lia.
  destruct (Z.leb_spec 0 i), (Z.ltb_spec i 8), (Z.leb_spec 0 (i + j)),
    (Z.ltb_spec (i + j) 8), (Z.leb_spec (8 - j) i); cbn; try reflexivity; lia.
Qed.

Lemma land_eq_bits (x y m : Z) :
  Z.land x m = Z.land y m
  <-> forall i, 0 <= i -> Z.testbit m i = true -> Z.testbit x i = Z.testbit y i.
Proof.
  split.
  - intros E i Hi Hm.
    apply (f_equal (fun z => Z.testbit z i)) in E.
    rewrite !Z.land_spec, Hm, !andb_true_r in E. exact E.
  - intros Hb. apply Z.bits_inj'. intros i Hi. rewrite !Z.land_spec.
    destruct (Z.testbit m i) eqn:Hm; [|rewrite !andb_false_r; reflexivity].
    rewrite (Hb i Hi Hm). reflexivity.
Qed.

Lemma take_bits8 (x y : Z) (j : Z) :
  0 <= j <= 8 ->
  take (Z.to_nat j) (map (Z.testbit x) [7; 6; 5; 4; 3; 2; 1; 0])
  = take (Z.to_nat j) (map (Z.testbit y) [7; 6; 5; 4; 3; 2; 1; 0])
  <-> forall i, 8 - j <= i < 8 -> Z.testbit x i = Z.testbit y i.
Proof.
  intros Hj.
  assert (Hcases : j = 0 \/ j = 1 \/ j = 2 \/ j = 3 \/ j = 4 \/ j = 5 \/ j = 6
                   \/ j = 7 \/ j = 8) by lia.
  split.
  - intros E i Hi.
    assert (Hi' : i = 0 \/ i = 1 \/ i = 2 \/ i = 3 \/ i = 4 \/ i = 5 \/ i = 6
                  \/ i = 7) by lia.
    destruct Hcases as [->|[->|[->|[->|[->|[->|[->|[->| ->]]]]]]]];
      vm_compute (Z.to_nat _) in E; cbn [firstn map] in E; simplify_eq;
      destruct Hi' as [->|[->|[->|[->|[->|[->|[->| ->]]]]]]];
      first [lia|assumption].
  - intros Hb.
    destruct Hcases as [->|[->|[->|[->|[->|[->|[->|[->| ->]]]]]]]];
      vm_compute (Z.to_nat _); cbn [firstn map];
      repeat (apply (f_equal2 cons); [apply Hb; lia|]); reflexivity.
Qed.

(** One byte under a mask byte of [j] leading ones: the first [j] bits. *)
Lemma land_mask_byte (x y j : Z) :
  0 <= j <= 8 ->
  Z.land x (Z.lxor 255 (Z.shiftr 255 j)) = Z.land y (Z.lxor 255 (Z.shiftr 255 j))
  <-> take (Z.to_nat j) (map (Z.testbit x) [7; 6; 5; 4; 3; 2; 1; 0])
      = take (Z.to_nat j) (map (Z.testbit y) [7; 6; 5; 4; 3; 2; 1; 0]).
Proof.
  intros Hj. rewrite land_eq_bits, (take_bits8 x y j Hj). split.
  - intros Hb i Hi. apply Hb; [lia|]. rewrite mask_byte_bits by lia.
    apply andb_true_intro. split; [apply Z.leb_le|apply Z.ltb_lt]; lia.
  - intros Hb i Hi Hm. rewrite mask_byte_bits in Hm by lia.
    apply andb_prop in Hm as [H1%Z.leb_le H2%Z.ltb_lt]. apply Hb. lia.
Qed.

Lemma land_255 (x y : Z) :
  Z.land x 255 = Z.land y 255
  <-> map (Z.testbit x) [7; 6; 5; 4; 3; 2; 1; 0]
      = map (Z.testbit y) [7; 6; 5; 4; 3; 2; 1; 0].
Proof. exact (land_mask_byte x y 8 ltac:(lia)). Qed.

Lemma bitsOf_cons (x : Z) (b : list Z) :
  Postgres.bitsOf (x :: b)
  = map (Z.testbit x) [7; 6; 5; 4; 3; 2; 1; 0] ++ Postgres.bitsOf b.
Proof. reflexivity. Qed.

(** Go compares the masked bytes, PostgreSQL the bits of the prefix. *)
Lemma and_bytes_cidr (n : nat) (p : Z) (nn a : list Z) :
  length nn = n -> length a = n -> 0 <= p ->
  Net.and_bytes nn (Net.cidr_bytes n p) = Net.and_bytes a (Net.cidr_bytes n p)
  <-> take (Z.to_nat p) (Postgres.bitsOf nn) = take (Z.to_nat p) (Postgres.bitsOf a).
Proof.
  revert p nn a.
  induction n as [|n IH]; intros p [|x nn] [|y a]; try discriminate.
  { intros _ _ _. split; reflexivity. }
  intros [= Hn] [= Ha] Hp. cbn [Net.cidr_bytes]. rewrite !bitsOf_cons.
  unfold Net.and_bytes in *.
  destruct (Z.leb_spec 8 p) as [H8|H8]; cbn [zip_with].
  - replace (Z.to_nat p) with (8 + Z.to_nat (p - 8))%nat by lia.
    rewrite !take_app_add' by reflexivity.
    specialize (IH (p - 8) nn a Hn Ha ltac:(lia)).
    split.
    + intros [= Hx Hr]. apply land_255 in Hx. rewrite Hx.
      f_equal. apply IH, Hr.
    + intros [Hx Hr]%app_inj_1; [|reflexivity].
      apply land_255 in Hx. rewrite Hx. f_equal. apply IH, Hr.
  - rewrite !take_app_le by (cbn [length map]; lia).
    pose proof (IH 0 nn a Hn Ha ltac:(lia)) as [_ IH0].
    specialize (IH0 eq_refl).
    split.
    + intros [= Hx _]. apply land_mask_byte; [lia|exact Hx].
    + intros Hx. apply land_mask_byte in Hx; [|lia]. rewrite Hx, IH0.
      reflexivity.
Qed.

(** The prefix length that PostgreSQL reads from a mask of Go. *)
Lemma maskBits_cidr_bytes (n : nat) (p : Z) :
  0 <= p <= 8 * Z.of_nat n -> Postgres.maskBits (Net.cidr_bytes n p) = p.
Proof.
  unfold Postgres.maskBits. revert p.
  induction n as [|n IH]; intros p Hp; [cbn; lia|].
  cbn [Net.cidr_bytes].
  destruct (Z.leb_spec 8 p) as [H8|H8]; rewrite bitsOf_cons.
  - change (map (Z.testbit 255) [7; 6; 5; 4; 3; 2; 1; 0])
      with [true; true; true; true; true; true; true; true].
    cbn [app Postgres.leadingOnes]. rewrite (IH (p - 8)) by lia. lia.
  - generalize (Postgres.bitsOf (Net.cidr_bytes n 0)). intros rest.
    assert (Hc : p = 0 \/ p = 1 \/ p = 2 \/ p = 3 \/ p = 4 \/ p = 5 \/ p = 6
                 \/ p = 7) by lia.
    destruct Hc as [->|[->|[->|[->|[->|[->|[->| ->]]]]]]]; reflexivity.
Qed.

(** An address that a network of Go contains, of the family of the
    network, has the bits of the network's prefix. *)
Lemma Contains_bitncmp (n : Net.IPNet) (ip : Net.IP) :
  canonicalNet n ->
  length (Net.net_IP n) = length (pgAddr ip) ->
  Net.Contains n ip = true ->
  Postgres.bitncmp (Net.net_IP n) (pgAddr ip)
                   (Postgres.maskBits (Net.net_Mask n)) = Eq.
Proof.
  intros (bits & k & Hb & Hk & Hm & Hl & _) Hlen HC.
  assert (Hmask : Net.net_Mask n = Net.cidr_bytes (Z.to_nat (bits / 8)) k).
  { rewrite Hm. unfold Net.CIDRMask.
    assert (negb (bits =? 32) && negb (bits =? 128) = false) as ->
      by (destruct Hb as [-> | ->]; reflexivity).
    assert ((k <? 0) || (bits <? k) = false) as ->
      by (destruct (Z.ltb_spec k 0), (Z.ltb_spec bits k); cbn [orb];
          try reflexivity; lia).
    reflexivity. }
  assert (Hml : length (Net.net_Mask n) = Z.to_nat (bits / 8))
    by (rewrite Hmask; apply cidr_bytes_length).
  assert (Hbits : Postgres.maskBits (Net.net_Mask n) = k).
  { rewrite Hmask. apply maskBits_cidr_bytes.
    destruct Hb as [-> | ->];
      [change (Z.to_nat (32 / 8)) with 4%nat
      |change (Z.to_nat (128 / 8)) with 16%nat]; lia. }
  rewrite Hbits. unfold Postgres.bitncmp.
  enough (E : take (Z.to_nat k) (Postgres.bitsOf (Net.net_IP n))
              = take (Z.to_nat k) (Postgres.bitsOf (pgAddr ip)))
    by (rewrite E; apply bitcmp_refl).
  apply (and_bytes_cidr (Z.to_nat (bits / 8)) k); [exact Hl|congruence|lia|].
  rewrite <- Hmask.
  unfold Net.Contains, Net.networkNumberAndMask in HC.
  fold (pgAddr ip) in HC.
  assert (Hself : Nat.eqb (length (pgAddr ip)) (length (Net.net_IP n)) = true)
    by (apply Nat.eqb_eq; congruence).
  unfold Net.To4, Net.IPv4len, Net.IPv6len in HC.
  rewrite Hml, Hl in HC.
  destruct Hb as [-> | ->];
    [change (Z.to_nat (32 / 8)) with 4%nat in *
    |change (Z.to_nat (128 / 8)) with 16%nat in *];
    cbn [Nat.eqb andb] in HC.
  - rewrite Hl in HC. cbn [Nat.eqb] in HC. rewrite Hself in HC.
    unfold Net.bytes_eqb in HC. apply bool_decide_eq_true in HC. exact HC.
  - destruct (Net.bytes_eqb (take 12 (Net.net_IP n)) Net.v4InV6Prefix).
    + assert (Hd : length (drop 12 (Net.net_IP n)) = 4%nat)
        by (rewrite length_drop, Hl; reflexivity).
      rewrite Hd in HC. cbn [Nat.eqb] in HC. cbv beta iota zeta in HC.
      rewrite Hd, <- Hlen, Hl in HC. cbn [Nat.eqb] in HC. discriminate.
    + rewrite Hl in HC. cbn [Nat.eqb] in HC. rewrite Hself in HC.
      unfold Net.bytes_eqb in HC. apply bool_decide_eq_true in HC. exact HC.
Qed.

(** X19. An address that lies inside a stored range of its family, whose
    prefix is shorter than the address, is never answered for lack of a
    range: the answer of the store is the country of a stored network that
    contains the address and is at most as specific as that range. *)
Theorem FindCountryForIP_inside_stored_range
        (r : IPRange) (ip : Net.IP) (w w' : World) (c : string) (v : string * Z) :
  canonicalNet (Network r) ->
  length (Net.net_IP (Network r)) = length (pgAddr ip) ->
  Net.Contains (Network r) ip = true ->
  Postgres.maskBits (Net.net_Mask (Network r))
  < 8 * Z.of_nat (length (pgAddr ip)) ->
  pg_ip_ranges w !! Postgres.rowKey r = Some v ->
  Postgres.FindCountryForIP ip w = (Return (c, None), w') ->
  exists k version,
    pg_ip_ranges w !! k = Some (c, version)
    /\ Postgres.strictlyContains k (pgAddr ip) = true
    /\ Postgres.maskBits k.2 <= Postgres.maskBits (Net.net_Mask (Network r)).
Proof.
  intros Hcan Hlen HC Hshort Hrow.
  assert (Hstrict : Postgres.strictlyContains (Postgres.rowKey r) (pgAddr ip) = true).
  { unfold Postgres.strictlyContains, Postgres.rowKey. cbn [fst snd].
    rewrite (Contains_bitncmp _ _ Hcan Hlen HC).
    rewrite (proj2 (Nat.eqb_eq _ _) Hlen), (proj2 (Z.ltb_lt _ _) Hshort).
    reflexivity. }
  unfold Postgres.FindCountryForIP. unfold_M. rewrite call_spec.
  destruct (nextFault w); [discriminate|].
  fold (pgAddr ip).
  destruct (negb _ && negb _); [discriminate|].
  cbn [gets]. change (pg_ip_ranges (afterCalls 1 w)) with (pg_ip_ranges w).
  pose proof (selectCountry_spec (pg_ip_ranges w) (pgAddr ip)) as Hs.
  destruct (Postgres.selectCountry _ _) as [c'|]; intros [= <- <-].
  - destruct Hs as (k & version & Hk & Hc & Hmin).
    exists k, version. repeat split; try assumption.
    exact (Hmin _ _ Hrow Hstrict).
  - rewrite (Hs _ _ Hrow) in Hstrict. discriminate.
Qed.

Lemma canonicalNet_v4 (a b c d k : Z) :
  0 <= k <= 32 ->
  Net.and_bytes [a; b; c; d] (Net.CIDRMask k 32) = [a; b; c; d] ->
  canonicalNet {| Net.net_IP := [a; b; c; d]; Net.net_Mask := Net.CIDRMask k 32 |}.
Proof.
  intros Hk Hand. exists 32, k. repeat split; try assumption; try lia.
Qed.

Lemma FindCountryForIP_inside_stored_range_witness :
  canonicalNet (Network frRange)
  /\ length (Net.net_IP (Network frRange)) = length (pgAddr ip10123)
  /\ Net.Contains (Network frRange) ip10123 = true
  /\ Postgres.maskBits (Net.net_Mask (Network frRange))
     < 8 * Z.of_nat (length (pgAddr ip10123))
  /\ pg_ip_ranges nestedWorld !! Postgres.rowKey frRange = Some ("FR", 4)
  /\ Postgres.FindCountryForIP ip10123 nestedWorld
     = (Return ("DE", None), afterCalls 1 nestedWorld)
  /\ exists k version,
       pg_ip_ranges nestedWorld !! k = Some ("DE", version)
       /\ Postgres.strictlyContains k (pgAddr ip10123) = true
       /\ Postgres.maskBits k.2 <= Postgres.maskBits (Net.net_Mask (Network frRange)).
Proof.
  assert (H1 : canonicalNet (Network frRange))
    by (apply (canonicalNet_v4 10 1 0 0 16); [lia|reflexivity]).
  assert (H2 : length (Net.net_IP (Network frRange)) = length (pgAddr ip10123))
    by reflexivity.
  assert (H3 : Net.Contains (Network frRange) ip10123 = true) by reflexivity.
  assert (H4 : Postgres.maskBits (Net.net_Mask (Network frRange))
               < 8 * Z.of_nat (length (pgAddr ip10123))) by reflexivity.
  assert (H5 : pg_ip_ranges nestedWorld !! Postgres.rowKey frRange = Some ("FR", 4))
    by (vm_compute; reflexivity).
  assert (H6 : Postgres.FindCountryForIP ip10123 nestedWorld
               = (Return ("DE", None), afterCalls 1 nestedWorld))
    by (vm_compute; reflexivity).
  repeat (split; [assumption|]).
  exact (FindCountryForIP_inside_stored_range frRange ip10123 nestedWorld _ "DE" _
           H1 H2 H3 H4 H5 H6).
Defined.

(** A range of one address is stored with the prefix of a host, which
    contains no address strictly: its own address is answered as
    unknown. *)
Example FindCountryForIP_host_range :
  Net.Contains (Network hostRange) ip10123 = true
  /\ (Postgres.FindCountryForIP ip10123
        (with_pg emptyWorld (Postgres.upsert ∅ hostRange))).1
     = Return (unknownCountry, None).
Proof. split; vm_compute; reflexivity. Qed.

(** ** The refresh cycle and the start, whatever fails *)

Lemma foldl_upsert_non_empty (ranges : list IPRange) (t : gmap cidr (string * Z)) :
  ranges <> [] -> foldl Postgres.upsert t ranges <> ∅.
Proof.
  destruct ranges as [|r rest] using rev_ind; [congruence|].
  intros _. rewrite foldl_app. cbn [foldl]. apply insert_non_empty.
Qed.

(** The steps of a cycle after the sources were asked. *)
Ltac cycle_steps w1 r rest :=
  cbn [ClearIPRanges Postgres_Repository]; rewrite ClearIPRanges_spec;
  destruct (nextFault w1) as [?|];
  [|cbn [SaveIPRanges Postgres_Repository];
    let err := fresh "err" in
    let n := fresh "n" in
    destruct (SaveIPRanges_any (r :: rest) (with_pg (afterCalls 1 w1) ∅))
      as (err & n & ->);
    destruct err as [?|];
    [|cbn [CacheIPRanges Redis_Cache]; rewrite CacheIPRanges_spec]].

Lemma UpdateIPRanges_outcome `{Platform} (config : Config) (w : World) :
  exists err w',
    UpdateIPRanges config w = (Return err, w')
    /\ (err = None -> pg_ip_ranges w' <> ∅).
Proof.
  unfold UpdateIPRanges. unfold_M.
  destruct (World_fetchAll (RIRs config) [] [] zeroTotals w)
    as (allRanges & errors & totals & w1 & -> & _ & _).
  destruct allRanges as [|r rest]; cbn [length Nat.eqb].
  { do 2 eexists. split; [reflexivity|discriminate]. }
  cycle_steps w1 r rest; do 2 eexists; (split; [reflexivity|]);
    try discriminate.
  intros _.
  assert (Hne : foldl Postgres.upsert ∅ (r :: rest) <> ∅)
    by (apply foldl_upsert_non_empty; discriminate).
  destruct (nextFault _); exact Hne.
Qed.


(** X22. [Start] always returns, and when it returns nil the table holds
    at least one row: either it held one already or the initial load has
    filled it. *)
Theorem Start_success_has_data `{Platform} (config : Config) (w : World) :
  exists err w',
    Start config w = (Return err, w')
    /\ (err = None -> pg_ip_ranges w' <> ∅).
Proof.
  unfold Start, checkDataExists. unfold_M.
  cbn [GetRangesCount Postgres_Repository]. unfold Postgres.GetRangesCount.
  unfold_M. rewrite call_spec.
  destruct (nextFault w) as [e|].
  { do 2 eexists. split; [reflexivity|discriminate]. }
  cbn [gets]. change (pg_ip_ranges (afterCalls 1 w)) with (pg_ip_ranges w).
  destruct (0 <? Z.of_nat (size (pg_ip_ranges w))) eqn:E; cbn [negb].
  - do 2 eexists. split; [reflexivity|]. intros _ Hempty.
    change (pg_ip_ranges (afterCalls 1 w)) with (pg_ip_ranges w) in Hempty.
    rewrite Hempty, map_size_empty in E. discriminate.
  - destruct (UpdateIPRanges_outcome config (afterCalls 1 w))
      as (err & w' & -> & Hne).
    destruct err as [e|]; do 2 eexists; (split; [reflexivity|]);
      [discriminate|exact Hne].
Qed.
